(** * Backtesting platform: signal layer, simulation engine, metrics

    A shallow embedding of [app/strategies/*.py], [app/backtester/engine.py]
    and [app/backtester/metrics.py].

    Numbers.  A Python / numpy float is modelled by [fval]: a finite value
    is an exact rational ([Fin q], no rounding, no signed zero, no overflow),
    and the three IEEE special values [PInf], [NInf], [NaN] follow the IEEE
    rules the code relies on (x/0, 0/0, comparisons with NaN are false).
    [np.sqrt] is not rational: it is a parameter [sqrtQ] of the definitions
    that use it.  Where rounding decides, the trade block of the loop is
    repeated on binary64 numbers ([simulate64]).

    Frames.  A pandas DataFrame is a list of column labels and a list of
    rows; a row (the Series that [iterrows] yields) is a finite map from
    column label to cell. *)

From Stdlib Require Import QArith Qabs Qround ZArith Lia Lqa.
From Stdlib Require PrimFloat SpecFloat FloatOps.
From stdpp Require Import base option list gmap strings sorting.


(** ** Floats *)

Inductive fval : Type :=
| Fin (q : Q)
| PInf
| NInf
| NaN.

Definition fneg (x : fval) : fval :=
  match x with
  | Fin q => Fin (- q)
  | PInf => NInf
  | NInf => PInf
  | NaN => NaN
  end.

Definition fadd (x y : fval) : fval :=
  match x, y with
  | NaN, _ | _, NaN => NaN
  | Fin a, Fin b => Fin (a + b)
  | PInf, NInf | NInf, PInf => NaN
  | PInf, _ | _, PInf => PInf
  | NInf, _ | _, NInf => NInf
  end.

Definition fsub (x y : fval) : fval := fadd x (fneg y).

Definition fmul (x y : fval) : fval :=
  match x, y with
  | NaN, _ | _, NaN => NaN
  | Fin a, Fin b => Fin (a * b)
  | Fin a, PInf | PInf, Fin a =>
      match (a ?= 0)%Q with Eq => NaN | Gt => PInf | Lt => NInf end
  | Fin a, NInf | NInf, Fin a =>
      match (a ?= 0)%Q with Eq => NaN | Gt => NInf | Lt => PInf end
  | PInf, PInf | NInf, NInf => PInf
  | PInf, NInf | NInf, PInf => NInf
  end.

(** numpy division: a zero divisor gives an infinity or NaN, never raises. *)
Definition fdiv (x y : fval) : fval :=
  match x, y with
  | NaN, _ | _, NaN => NaN
  | Fin a, Fin b =>
      if Qeq_bool b 0
      then match (a ?= 0)%Q with Eq => NaN | Gt => PInf | Lt => NInf end
      else Fin (a / b)
  | Fin _, (PInf | NInf) => Fin 0
  | (PInf | NInf), (PInf | NInf) => NaN
  | PInf, Fin b => if Qle_bool 0 b then PInf else NInf
  | NInf, Fin b => if Qle_bool 0 b then NInf else PInf
  end.

Definition Qlt_bool (a b : Q) : bool := negb (Qle_bool b a).

(** The comparison operators [==], [!=], [<], [<=], [>], [>=]. *)
Definition feqb (x y : fval) : bool :=
  match x, y with
  | Fin a, Fin b => Qeq_bool a b
  | PInf, PInf | NInf, NInf => true
  | _, _ => false
  end.

Definition fneb (x y : fval) : bool := negb (feqb x y).

Definition fltb (x y : fval) : bool :=
  match x, y with
  | Fin a, Fin b => Qlt_bool a b
  | NInf, (Fin _ | PInf) | Fin _, PInf => true
  | _, _ => false
  end.

Definition fleb (x y : fval) : bool :=
  match x, y with
  | Fin a, Fin b => Qle_bool a b
  | NInf, (Fin _ | PInf | NInf) | Fin _, PInf | PInf, PInf => true
  | _, _ => false
  end.

Definition fgtb (x y : fval) : bool := fltb y x.
Definition fgeb (x y : fval) : bool := fleb y x.

Definition is_nan (x : fval) : bool :=
  match x with NaN => true | _ => false end.

Definition fabs (x : fval) : fval :=
  match x with
  | Fin q => Fin (Qabs q)
  | PInf | NInf => PInf
  | NaN => NaN
  end.

Definition of_Z (n : Z) : fval := Fin (inject_Z n).

(** Two cells hold the same number. *)
Definition same (x y : fval) : Prop :=
  match x, y with
  | Fin a, Fin b => (a == b)%Q
  | PInf, PInf | NInf, NInf | NaN, NaN => True
  | _, _ => False
  end.

Definition sameb (x y : fval) : bool :=
  match x, y with
  | Fin a, Fin b => Qeq_bool a b
  | PInf, PInf | NInf, NInf | NaN, NaN => true
  | _, _ => false
  end.

(** ** Exceptions *)

Inductive exn : Type :=
| KeyError (key : string)
| ValueError (msg : string)
| OverflowError
| ZeroDivisionError
| UnboundLocalError (name : string).

Inductive result (A : Type) : Type :=
| Ok (a : A)
| Raise (e : exn).
Arguments Ok {A} a.
Arguments Raise {A} e.

#[global] Instance result_ret : MRet result := λ A a, Ok a.
#[global] Instance result_bind : MBind result := λ A B f m,
  match m with Ok a => f a | Raise e => Raise e end.

Fixpoint foldlM {A B : Type} (f : B → A → result B) (b : B) (l : list A)
  : result B :=
  match l with
  | [] => Ok b
  | a :: l => b' ← f b a; foldlM f b' l
  end.

(** Truncation toward zero. *)
Definition Qtrunc (q : Q) : Z := Z.quot (Qnum q) (Z.pos (Qden q)).

(** [int(x)]: truncates; raises on an infinity or NaN. *)
Definition py_int (x : fval) : result Z :=
  match x with
  | Fin q => Ok (Qtrunc q)
  | PInf | NInf => Raise OverflowError
  | NaN => Raise (ValueError "cannot convert float NaN to integer")
  end.

(** ** Frames *)

Record Timestamp : Type := { year : Z; month : Z; day : Z }.

(** A pandas Series of floats, by position. *)
Abbreviation Series := (list fval).

Record DataFrame : Type := {
  columns : list string;
  rows : list (Timestamp * gmap string fval)
}.

(** [row[key]] *)
Definition row_getitem (row : gmap string fval) (key : string) : result fval :=
  match row !! key with
  | Some v => Ok v
  | None => Raise (KeyError key)
  end.

(** [row.get(key, dflt)] *)
Definition row_get (row : gmap string fval) (key : string) (dflt : fval) : fval :=
  default dflt (row !! key).

Definition iterrows (df : DataFrame) : list (Timestamp * gmap string fval) :=
  rows df.

(** The strategy contract: one operation, [generate_signals]. *)
Class BaseStrategy (S : Type) : Type := {
  generate_signals : S → DataFrame → result DataFrame
}.

(** ** Simulation engine ([engine.py]) *)

Record BacktestEngine : Type := {
  initial_capital : Q;
  commission : Q;
  max_position_size : Q;
  stop_loss_pct : Q;
  take_profit_pct : Q;
  max_risk_per_trade : Q
}.

Inductive Action : Type := BUY | SELL.

#[global] Instance Action_eq_dec : EqDecision Action.
Proof. solve_decision. Defined.

(** A trade dict; the key ['pnl'] is absent until the second pass adds it. *)
Record Trade : Type := {
  trade_date : Timestamp;
  trade_action : Action;
  trade_price : fval;
  trade_quantity : Z;
  trade_value : fval;
  trade_commission : fval;
  trade_pnl : option fval
}.

(** One row of the equity-curve frame. *)
Record EquitySnapshot : Type := {
  snap_date : Timestamp;
  snap_portfolio_value : fval;
  snap_cash : fval;
  snap_holdings_value : fval;
  snap_returns : fval
}.

Record BacktestResult : Type := {
  res_equity_curve : list EquitySnapshot;
  res_trades : list Trade;
  final_portfolio_value : fval;
  res_initial_capital : Q
}.

(** The locals of [run_backtest] that the loop reads and writes
    ([portfolio['portfolio_value']], [['dates']] and [['returns']] are
    appended to and never read; they are left out).
    [current_portfolio_value] is unbound until the first iteration. *)
Record LoopState : Type := {
  cash : fval;
  holdings : Z;
  trades : list Trade;
  equity_curve : list EquitySnapshot;
  prev_portfolio_value : fval;
  current_portfolio_value : option fval
}.

Definition init_state (self : BacktestEngine) : LoopState :=
  {| cash := Fin (initial_capital self);
     holdings := 0;
     trades := [];
     equity_curve := [];
     prev_portfolio_value := Fin (initial_capital self);
     current_portfolio_value := None |}.

(** The trade block of the loop body: the new cash, holdings and trade log. *)
Definition execute_signal (self : BacktestEngine) (st : LoopState)
    (date : Timestamp) (current_price signal : fval)
  : result (fval * Z * list Trade) :=
  if feqb signal (of_Z 1) && bool_decide (holdings st = 0%Z) then
    let available_cash := fmul (cash st) (Fin 0.95) in
    shares_to_buy ←
      py_int (fdiv available_cash
                (fmul current_price (Fin (1 + commission self))));
    if bool_decide (shares_to_buy > 0)%Z then
      let cost := fmul (fmul (of_Z shares_to_buy) current_price)
                       (Fin (1 + commission self)) in
      Ok (fsub (cash st) cost,
          (holdings st + shares_to_buy)%Z,
          trades st ++ [ {| trade_date := date;
                            trade_action := BUY;
                            trade_price := current_price;
                            trade_quantity := shares_to_buy;
                            trade_value := cost;
                            trade_commission := fmul cost (Fin (commission self));
                            trade_pnl := None |} ])
    else Ok (cash st, holdings st, trades st)
  else if feqb signal (of_Z (-1)) && bool_decide (holdings st > 0)%Z then
    let shares_to_sell := holdings st in
    let proceeds := fmul (fmul (of_Z shares_to_sell) current_price)
                         (Fin (1 - commission self)) in
    Ok (fadd (cash st) proceeds,
        0%Z,
        trades st ++ [ {| trade_date := date;
                          trade_action := SELL;
                          trade_price := current_price;
                          trade_quantity := shares_to_sell;
                          trade_value := proceeds;
                          trade_commission := fmul proceeds (Fin (commission self));
                          trade_pnl := None |} ])
  else Ok (cash st, holdings st, trades st).

(** One iteration of [for i, (date, row) in enumerate(signal_data.iterrows())]. *)
Definition loop_body (self : BacktestEngine) (st : LoopState)
    (bar : Timestamp * gmap string fval) : result LoopState :=
  let '(date, row) := bar in
  current_price ← row_getitem row "close";
  let signal := row_get row "signal" (of_Z 0) in
  '(cash', holdings', trades') ← execute_signal self st date current_price signal;
  let value := fadd cash' (fmul (of_Z holdings') current_price) in
  let daily_return :=
    fdiv (fsub value (prev_portfolio_value st)) (prev_portfolio_value st) in
  Ok {| cash := cash';
        holdings := holdings';
        trades := trades';
        equity_curve := equity_curve st ++
          [ {| snap_date := date;
               snap_portfolio_value := value;
               snap_cash := cash';
               snap_holdings_value := fmul (of_Z holdings') current_price;
               snap_returns := daily_return |} ];
        prev_portfolio_value := value;
        current_portfolio_value := Some value |}.

Definition simulate (self : BacktestEngine)
    (bars : list (Timestamp * gmap string fval)) : result LoopState :=
  foldlM (loop_body self) (init_state self) bars.

(** The second pass: [for i in range(1, len(trades))], a SELL right after a
    BUY gets ['pnl']. [prev] is [trades[i-1]]. *)
Fixpoint assign_pnl (prev : Trade) (ts : list Trade) : list Trade :=
  match ts with
  | [] => []
  | t :: rest =>
      let t' :=
        if bool_decide (trade_action t = SELL)
           && bool_decide (trade_action prev = BUY)
        then
          let pnl := fmul (fsub (trade_price t) (trade_price prev))
                          (of_Z (trade_quantity t)) in
          {| trade_date := trade_date t;
             trade_action := trade_action t;
             trade_price := trade_price t;
             trade_quantity := trade_quantity t;
             trade_value := trade_value t;
             trade_commission := trade_commission t;
             trade_pnl := Some pnl |}
        else t in
      t' :: assign_pnl t' rest
  end.

Definition calculate_pnl (ts : list Trade) : list Trade :=
  match ts with
  | [] => []
  | t :: rest => t :: assign_pnl t rest
  end.

(** [pd.DataFrame(equity_curve).set_index('date')]: a frame built from an
    empty list has no columns, so ['date'] is not found. *)
Definition set_index_date (ec : list EquitySnapshot)
  : result (list EquitySnapshot) :=
  match ec with
  | [] => Raise (KeyError "None of ['date'] are in the columns")
  | _ => Ok ec
  end.

Definition run_backtest {S : Type} `{BaseStrategy S}
    (self : BacktestEngine) (data : DataFrame) (strategy : S)
  : result BacktestResult :=
  signal_data ← generate_signals strategy data;
  st ← simulate self (iterrows signal_data);
  equity_df ← set_index_date (equity_curve st);
  let trades := calculate_pnl (trades st) in
  match current_portfolio_value st with
  | None => Raise (UnboundLocalError "current_portfolio_value")
  | Some value =>
      Ok {| res_equity_curve := equity_df;
            res_trades := trades;
            final_portfolio_value := value;
            res_initial_capital := initial_capital self |}
  end.

(** [check_stop_loss] and [check_take_profit]: Python floats, so a zero
    entry price raises. *)
Definition py_div (a b : Q) : result Q :=
  if Qeq_bool b 0 then Raise ZeroDivisionError else Ok (a / b)%Q.

Definition check_stop_loss (self : BacktestEngine)
    (entry_price current_price : Q) (position_type : string) : result bool :=
  if bool_decide (position_type = "long"%string) then
    r ← py_div (entry_price - current_price) entry_price;
    Ok (Qle_bool (stop_loss_pct self) r)
  else
    r ← py_div (current_price - entry_price) entry_price;
    Ok (Qle_bool (stop_loss_pct self) r).

Definition check_take_profit (self : BacktestEngine)
    (entry_price current_price : Q) (position_type : string) : result bool :=
  if bool_decide (position_type = "long"%string) then
    r ← py_div (current_price - entry_price) entry_price;
    Ok (Qle_bool (take_profit_pct self) r)
  else
    r ← py_div (entry_price - current_price) entry_price;
    Ok (Qle_bool (take_profit_pct self) r).

(** ** Series and frame operations (pandas) *)

Definition series_sum (s : Series) : fval := foldl fadd (Fin 0) s.

(** [Series.mean()]; the mean of no value is NaN. *)
Definition mean (s : Series) : fval :=
  fdiv (series_sum s) (of_Z (Z.of_nat (length s))).

Definition dropna_series (s : Series) : Series :=
  List.filter (λ x, negb (is_nan x)) s.

Definition series_add (a b : Series) : Series := zip_with fadd a b.
Definition series_sub (a b : Series) : Series := zip_with fsub a b.
Definition series_div (a b : Series) : Series := zip_with fdiv a b.
Definition series_scale (a : Series) (k : fval) : Series := map (λ x, fmul x k) a.
Definition series_neg (a : Series) : Series := map fneg a.

(** [s.shift(1)] *)
Definition shift1 (s : Series) : Series :=
  match s with
  | [] => []
  | _ :: _ => NaN :: take (length s - 1) s
  end.

(** [s.diff()] *)
Definition diff (s : Series) : Series := series_sub s (shift1 s).

(** [s.where(mask, other)] *)
Definition where_ (s : Series) (mask : list bool) (other : fval) : Series :=
  zip_with (λ x (m : bool), if m then x else other) s mask.

(** The [w] values ending at position [i]. *)
Definition window (w i : nat) (s : Series) : Series :=
  take w (drop (i + 1 - w) s).

(** [s.rolling(window=w).agg()]: undefined until [w] values are there. *)
Definition rolling_at (w : nat) (agg : Series → fval) (s : Series) (i : nat)
  : fval :=
  if bool_decide (w ≤ i + 1) then agg (window w i s) else NaN.

Definition rolling (w : nat) (agg : Series → fval) (s : Series) : Series :=
  imap (λ i _, rolling_at w agg s i) s.

Definition rolling_mean (w : nat) (s : Series) : Series := rolling w mean s.

(** [s.ewm(span=span).mean()] with pandas' defaults ([adjust=True],
    [ignore_na=False], [min_periods=0]), step by step as pandas computes it:
    [weighted] is the average so far and [old_wt] the weight it carries.
    An undefined observation leaves the average as it is and still ages
    its weight; the result is undefined until the first observation. *)
Fixpoint ewm_from (alpha : Q) (weighted : fval) (old_wt : Q) (s : Series)
  : Series :=
  match s with
  | [] => []
  | cur :: s =>
      let is_observation := negb (is_nan cur) in
      let '(weighted', old_wt') :=
        if negb (is_nan weighted) then
          let old_wt := (old_wt * (1 - alpha))%Q in
          if is_observation then
            (if fneb weighted cur
             then fdiv (fadd (fmul (Fin old_wt) weighted) (fmul (Fin 1) cur))
                       (Fin (old_wt + 1))
             else weighted,
             (old_wt + 1)%Q)
          else (weighted, old_wt)
        else if is_observation then (cur, old_wt)
        else (weighted, old_wt) in
      weighted' :: ewm_from alpha weighted' old_wt' s
  end.

Definition ewm (span : nat) (s : Series) : Series :=
  match s with
  | [] => []
  | x :: s => x :: ewm_from (2 / (inject_Z (Z.of_nat span) + 1)) x 1 s
  end.

(** pandas rejects a span below 1 when the window is built. *)
Definition ewm_mean (span : nat) (s : Series) : result Series :=
  if bool_decide (span < 1)
  then Raise (ValueError "span must satisfy: span >= 1")
  else Ok (ewm span s).

(** The cells of one column, top to bottom. *)
Definition column (df : DataFrame) (key : string) : Series :=
  map (λ r, default NaN (r.2 !! key)) (rows df).

(** [df[key]] *)
Definition df_getitem (df : DataFrame) (key : string) : result Series :=
  if bool_decide (key ∈ columns df) then Ok (column df key)
  else Raise (KeyError key).

(** [df[key] = s] *)
Definition df_setitem (df : DataFrame) (key : string) (s : Series) : DataFrame :=
  {| columns := if bool_decide (key ∈ columns df) then columns df
                else columns df ++ [key];
     rows := zip_with (λ r v, (r.1, <[key := v]> r.2)) (rows df) s |}.

(** [df[key] = v] for a scalar [v] *)
Definition df_setitem_scalar (df : DataFrame) (key : string) (v : fval)
  : DataFrame :=
  {| columns := if bool_decide (key ∈ columns df) then columns df
                else columns df ++ [key];
     rows := map (λ r, (r.1, <[key := v]> r.2)) (rows df) |}.

(** [df.loc[mask, key] = v] *)
Definition df_loc_set (df : DataFrame) (mask : list bool) (key : string)
    (v : fval) : DataFrame :=
  {| columns := columns df;
     rows := zip_with (λ r (m : bool), if m then (r.1, <[key := v]> r.2) else r)
               (rows df) mask |}.

Definition row_complete (r : Timestamp * gmap string fval) : Prop :=
  map_Forall (λ _ v, is_nan v = false) r.2.

#[global] Instance row_complete_dec r : Decision (row_complete r).
Proof. unfold row_complete. apply _. Defined.

(** [df.dropna()]: the rows without a NaN cell. *)
Definition dropna (df : DataFrame) : DataFrame :=
  {| columns := columns df; rows := filter row_complete (rows df) |}.

(** [df.fillna(method='ffill')]: [last] holds the last valid cell seen in
    each column. *)
Fixpoint ffill_rows (last : gmap string fval)
    (rs : list (Timestamp * gmap string fval))
  : list (Timestamp * gmap string fval) :=
  match rs with
  | [] => []
  | (d, r) :: rs =>
      let r' := map_imap (λ k v, Some (if is_nan v then default v (last !! k)
                                       else v)) r in
      (d, r') :: ffill_rows (filter (λ kv, is_nan kv.2 = false) r' ∪ last) rs
  end.

Definition ffill (df : DataFrame) : DataFrame :=
  {| columns := columns df; rows := ffill_rows ∅ (rows df) |}.

Definition bfill (df : DataFrame) : DataFrame :=
  {| columns := columns df; rows := reverse (ffill_rows ∅ (reverse (rows df))) |}.

(** ** Signal layer ([strategies/]) *)

Definition required_columns : list string :=
  ["Open"; "High"; "Low"; "Close"; "Volume"]%string.

(** [BaseStrategy.prepare_data] *)
Definition prepare_data (data : DataFrame) : result DataFrame :=
  _ ← foldlM (λ (_ : unit) col,
         if bool_decide (col ∈ columns data) then Ok ()
         else Raise (ValueError (String.append "Missing required column: " col)))
       () required_columns;
  Ok (bfill (ffill data)).

(** [str.lower] on ASCII letters. *)
Definition lower_ascii (c : Ascii.ascii) : Ascii.ascii :=
  let n := Ascii.nat_of_ascii c in
  if (65 <=? n)%nat && (n <=? 90)%nat then Ascii.ascii_of_nat (n + 32) else c.

Fixpoint lower (s : string) : string :=
  match s with
  | EmptyString => EmptyString
  | String c s => String (lower_ascii c) (lower s)
  end.

Record MovingAverageCrossover : Type := {
  mac_fast_period : nat;
  mac_slow_period : nat
}.

Definition mac_generate_signals (self : MovingAverageCrossover)
    (data : DataFrame) : result DataFrame :=
  close ← df_getitem data "close";
  let data := df_setitem data "ma_fast"
                (rolling_mean (mac_fast_period self) close) in
  close ← df_getitem data "close";
  let data := df_setitem data "ma_slow"
                (rolling_mean (mac_slow_period self) close) in
  let data := df_setitem_scalar data "signal" (of_Z 0) in
  ma_fast ← df_getitem data "ma_fast";
  ma_slow ← df_getitem data "ma_slow";
  let data := df_loc_set data (zip_with fgtb ma_fast ma_slow) "signal" (of_Z 1) in
  ma_fast ← df_getitem data "ma_fast";
  ma_slow ← df_getitem data "ma_slow";
  let data := df_loc_set data (zip_with fltb ma_fast ma_slow) "signal"
                (of_Z (-1)) in
  Ok (dropna data).

#[global] Instance MovingAverageCrossover_strategy
  : BaseStrategy MovingAverageCrossover :=
  {| generate_signals := mac_generate_signals |}.

Record RSIMeanReversion : Type := {
  rsi_period : nat;
  rsi_oversold : Z;
  rsi_overbought : Z
}.

Definition calculate_rsi (prices : Series) (period : nat) : Series :=
  let delta := diff prices in
  let gain :=
    rolling_mean period
      (where_ delta (map (λ d, fgtb d (of_Z 0)) delta) (of_Z 0)) in
  let loss :=
    rolling_mean period
      (series_neg (where_ delta (map (λ d, fltb d (of_Z 0)) delta) (of_Z 0))) in
  let rs := series_div gain loss in
  map (λ x, fsub (of_Z 100) (fdiv (of_Z 100) (fadd (of_Z 1) x))) rs.

Definition rsi_generate_signals (self : RSIMeanReversion)
    (data : DataFrame) : result DataFrame :=
  close ← df_getitem data "close";
  let data := df_setitem data "rsi" (calculate_rsi close (rsi_period self)) in
  let data := df_setitem_scalar data "signal" (of_Z 0) in
  rsi ← df_getitem data "rsi";
  let data := df_loc_set data
                (map (λ x, fltb x (of_Z (rsi_oversold self))) rsi)
                "signal" (of_Z 1) in
  rsi ← df_getitem data "rsi";
  let data := df_loc_set data
                (map (λ x, fgtb x (of_Z (rsi_overbought self))) rsi)
                "signal" (of_Z (-1)) in
  Ok (dropna data).

#[global] Instance RSIMeanReversion_strategy : BaseStrategy RSIMeanReversion :=
  {| generate_signals := rsi_generate_signals |}.

Record MACDStrategy : Type := {
  macd_fast_period : nat;
  macd_slow_period : nat;
  macd_signal_period : nat
}.

Definition macd_generate_signals (self : MACDStrategy)
    (data : DataFrame) : result DataFrame :=
  close ← df_getitem data "close";
  exp1 ← ewm_mean (macd_fast_period self) close;
  close ← df_getitem data "close";
  exp2 ← ewm_mean (macd_slow_period self) close;
  let macd_line := series_sub exp1 exp2 in
  signal_line ← ewm_mean (macd_signal_period self) macd_line;
  let histogram := series_sub macd_line signal_line in
  let data := df_setitem data "macd" macd_line in
  let data := df_setitem data "macd_signal" signal_line in
  let data := df_setitem data "macd_histogram" histogram in
  let data := df_setitem_scalar data "signal" (of_Z 0) in
  let data :=
    df_loc_set data
      (zip_with andb (zip_with fgtb macd_line signal_line)
                     (zip_with fleb (shift1 macd_line) (shift1 signal_line)))
      "signal" (of_Z 1) in
  let data :=
    df_loc_set data
      (zip_with andb (zip_with fltb macd_line signal_line)
                     (zip_with fgeb (shift1 macd_line) (shift1 signal_line)))
      "signal" (of_Z (-1)) in
  Ok data.

#[global] Instance MACDStrategy_strategy : BaseStrategy MACDStrategy :=
  {| generate_signals := macd_generate_signals |}.

(** ** Definitions that take a square root *)

Section Sqrt.

(** [np.sqrt] on non-negative finite values. *)
Variable sqrtQ : Q → Q.

Definition fsqrt (x : fval) : fval :=
  match x with
  | Fin q => if Qlt_bool q 0 then NaN else Fin (sqrtQ q)
  | PInf => PInf
  | NInf | NaN => NaN
  end.

(** [Series.std()], the sample standard deviation ([ddof=1]); pandas
    returns NaN when there are not more than [ddof] values. *)
Definition std (s : Series) : fval :=
  if bool_decide (length s ≤ 1) then NaN
  else
    let m := mean s in
    let squares := map (λ x, fmul (fsub x m) (fsub x m)) s in
    fsqrt (fdiv (series_sum squares) (of_Z (Z.of_nat (length s) - 1))).

Definition rolling_std (w : nat) (s : Series) : Series := rolling w std s.

Record BollingerBandStrategy : Type := {
  bb_period : nat;
  bb_std_dev : Q
}.

Definition bb_generate_signals (self : BollingerBandStrategy)
    (data : DataFrame) : result DataFrame :=
  close ← df_getitem data "close";
  let data := df_setitem data "ma" (rolling_mean (bb_period self) close) in
  close ← df_getitem data "close";
  let data := df_setitem data "std" (rolling_std (bb_period self) close) in
  ma ← df_getitem data "ma";
  sd ← df_getitem data "std";
  let data := df_setitem data "upper_band"
                (series_add ma (series_scale sd (Fin (bb_std_dev self)))) in
  ma ← df_getitem data "ma";
  sd ← df_getitem data "std";
  let data := df_setitem data "lower_band"
                (series_sub ma (series_scale sd (Fin (bb_std_dev self)))) in
  let data := df_setitem_scalar data "signal" (of_Z 0) in
  close ← df_getitem data "close";
  lower_band ← df_getitem data "lower_band";
  let data := df_loc_set data (zip_with fleb close lower_band) "signal"
                (of_Z 1) in
  close ← df_getitem data "close";
  upper_band ← df_getitem data "upper_band";
  let data := df_loc_set data (zip_with fgeb close upper_band) "signal"
                (of_Z (-1)) in
  Ok (dropna data).

(** *** Performance metrics ([metrics.py]) *)

Definition returns_of (self : BacktestResult) : Series :=
  map snap_returns (res_equity_curve self).

Definition calculate_total_return (self : BacktestResult) : fval :=
  fsub (final_portfolio_value self) (Fin (res_initial_capital self)).

Definition calculate_sharpe_ratio (self : BacktestResult) (risk_free_rate : Q)
  : fval :=
  let returns := dropna_series (returns_of self) in
  if bool_decide (length returns = 0%nat) || feqb (std returns) (of_Z 0)
  then Fin 0
  else
    let excess_returns := fsub (mean returns) (Fin (risk_free_rate / 252)) in
    fmul (fdiv excess_returns (std returns)) (fsqrt (of_Z 252)).

(** [t.get('pnl', 0)] *)
Definition pnl_or_zero (t : Trade) : fval := default (of_Z 0) (trade_pnl t).

Definition calculate_profit_factor (self : BacktestResult) : fval :=
  let profits :=
    map pnl_or_zero
      (List.filter (λ t, fgtb (pnl_or_zero t) (of_Z 0)) (res_trades self)) in
  let losses :=
    map (λ t, fabs (pnl_or_zero t))
      (List.filter (λ t, fltb (pnl_or_zero t) (of_Z 0)) (res_trades self)) in
  let gross_profit := match profits with [] => of_Z 0 | _ => series_sum profits end in
  let gross_loss := match losses with [] => of_Z 0 | _ => series_sum losses end in
  if feqb gross_loss (of_Z 0)
  then (if fgtb gross_profit (of_Z 0) then PInf else of_Z 0)
  else fdiv gross_profit gross_loss.

Definition calculate_sortino_ratio (self : BacktestResult) (risk_free_rate : Q)
  : fval :=
  let returns := dropna_series (returns_of self) in
  if bool_decide (length returns = 0%nat) then Fin 0
  else
    let negative_returns := List.filter (λ r, fltb r (of_Z 0)) returns in
    if bool_decide (length negative_returns = 0%nat)
    then (if fgtb (mean returns) (of_Z 0) then PInf else of_Z 0)
    else
      let downside_std := fmul (std negative_returns) (fsqrt (of_Z 252)) in
      let excess_return :=
        fsub (fmul (mean returns) (of_Z 252)) (Fin risk_free_rate) in
      if fneb downside_std (of_Z 0) then fdiv excess_return downside_std
      else of_Z 0.

End Sqrt.

(** A square root for running examples: exact on squares of rationals,
    rounded down on the numerator otherwise. *)
Definition sqrt_floor (q : Q) : Q :=
  Z.sqrt (Qnum q * Z.pos (Qden q)) # Qden q.

(** [index.to_period('M')] *)
Definition to_period_M (d : Timestamp) : Z * Z := (year d, month d).

(** [Series.unique()]: first occurrences, in order of appearance. *)
Fixpoint unique (l : list (Z * Z)) : list (Z * Z) :=
  match l with
  | [] => []
  | x :: l => x :: filter (λ y, y ≠ x) (unique l)
  end.

Definition monthly_return_of (month_data : list EquitySnapshot) : option fval :=
  match head month_data, last month_data with
  | Some first, Some final =>
      let start_value := snap_portfolio_value first in
      let end_value := snap_portfolio_value final in
      Some (fmul (fdiv (fsub end_value start_value) start_value) (of_Z 100))
  | _, _ => None
  end.

Definition calculate_monthly_returns (self : BacktestResult)
  : gmap (Z * Z) fval :=
  let equity_curve := res_equity_curve self in
  foldl (λ (monthly_returns : gmap (Z * Z) fval) month,
           let month_data :=
             filter (λ s, to_period_M (snap_date s) = month) equity_curve in
           if bool_decide (1 < length month_data) then
             match monthly_return_of month_data with
             | Some monthly_return => <[month := monthly_return]> monthly_returns
             | None => monthly_returns
             end
           else monthly_returns)
        ∅ (unique (map (λ s, to_period_M (snap_date s)) equity_curve)).

(** ** The strategies, bar by bar

    What the vectorised assignments of each [generate_signals] leave in bar
    number [i] of the frame, before [dropna]: the indicator cells and the
    signal, where the SELL assignment comes last and so overrides BUY. *)

Definition mac_bar (self : MovingAverageCrossover) (data : DataFrame)
    (i : nat) (r : Timestamp * gmap string fval) : Timestamp * gmap string fval :=
  let close := column data "close" in
  let ma_fast := rolling_at (mac_fast_period self) mean close i in
  let ma_slow := rolling_at (mac_slow_period self) mean close i in
  let signal :=
    if fltb ma_fast ma_slow then of_Z (-1)
    else if fgtb ma_fast ma_slow then of_Z 1 else of_Z 0 in
  (r.1, <["signal"%string := signal]>
          (<["ma_slow"%string := ma_slow]> (<["ma_fast"%string := ma_fast]> r.2))).

Definition bb_bar (sqrtQ : Q → Q) (self : BollingerBandStrategy)
    (data : DataFrame) (i : nat) (r : Timestamp * gmap string fval)
  : Timestamp * gmap string fval :=
  let closes := column data "close" in
  let ma := rolling_at (bb_period self) mean closes i in
  let sd := rolling_at (bb_period self) (std sqrtQ) closes i in
  let upper_band := fadd ma (fmul sd (Fin (bb_std_dev self))) in
  let lower_band := fsub ma (fmul sd (Fin (bb_std_dev self))) in
  let close := default NaN (r.2 !! "close"%string) in
  let signal :=
    if fgeb close upper_band then of_Z (-1)
    else if fleb close lower_band then of_Z 1 else of_Z 0 in
  (r.1, <["signal"%string := signal]>
          (<["lower_band"%string := lower_band]>
             (<["upper_band"%string := upper_band]>
                (<["std"%string := sd]> (<["ma"%string := ma]> r.2))))).

(** The value of a series one bar before bar [i]; there is none before
    the first bar. *)
Definition before (s : Series) (i : nat) : fval :=
  match i with
  | O => NaN
  | S j => default NaN (s !! j)
  end.

Definition macd_bar (self : MACDStrategy) (data : DataFrame)
    (i : nat) (r : Timestamp * gmap string fval) : Timestamp * gmap string fval :=
  let close := column data "close" in
  let macd_line :=
    series_sub (ewm (macd_fast_period self) close)
               (ewm (macd_slow_period self) close) in
  let signal_line := ewm (macd_signal_period self) macd_line in
  let macd := default NaN (macd_line !! i) in
  let macd_signal := default NaN (signal_line !! i) in
  let signal :=
    if fltb macd macd_signal && fgeb (before macd_line i) (before signal_line i)
    then of_Z (-1)
    else if fgtb macd macd_signal
            && fleb (before macd_line i) (before signal_line i)
         then of_Z 1 else of_Z 0 in
  (r.1, <["signal"%string := signal]>
          (<["macd_histogram"%string := fsub macd macd_signal]>
             (<["macd_signal"%string := macd_signal]>
                (<["macd"%string := macd]> r.2)))).

(** The gain and the loss of bar [j] against the bar before it; bar 0 has
    no bar before it and counts as 0 in both. *)
Definition up_move (prices : Series) (j : nat) : fval :=
  let d := fsub (default NaN (prices !! j)) (before prices j) in
  if fgtb d (of_Z 0) then d else of_Z 0.

Definition down_move (prices : Series) (j : nat) : fval :=
  let d := fsub (default NaN (prices !! j)) (before prices j) in
  fneg (if fltb d (of_Z 0) then d else of_Z 0).

(** RSI of bar [i] from the plain means of the last [period] gains and
    losses. *)
Definition rsi_at (prices : Series) (period i : nat) : fval :=
  if bool_decide (period ≤ i + 1) then
    let js := seq (i + 1 - period) period in
    let gain := mean (map (up_move prices) js) in
    let loss := mean (map (down_move prices) js) in
    fsub (of_Z 100) (fdiv (of_Z 100) (fadd (of_Z 1) (fdiv gain loss)))
  else NaN.

Definition rsi_bar (self : RSIMeanReversion) (data : DataFrame)
    (i : nat) (r : Timestamp * gmap string fval) : Timestamp * gmap string fval :=
  let rsi := rsi_at (column data "close") (rsi_period self) i in
  let signal :=
    if fgtb rsi (of_Z (rsi_overbought self)) then of_Z (-1)
    else if fltb rsi (of_Z (rsi_oversold self)) then of_Z 1 else of_Z 0 in
  (r.1, <["signal"%string := signal]> (<["rsi"%string := rsi]> r.2)).

(** ** Wilder's smoothing, as the specification names it

    For comparison with [calculate_rsi]: the first average is the plain
    mean of the first [n] gains (losses); every later one is
    [(previous * (n - 1) + current) / n]. *)

Fixpoint wilder_from (n : nat) (prev : fval) (s : Series) : Series :=
  match s with
  | [] => []
  | x :: s =>
      let a := fdiv (fadd (fmul prev (of_Z (Z.of_nat n - 1))) x)
                    (of_Z (Z.of_nat n)) in
      a :: wilder_from n a s
  end.

Definition wilder_smooth_spec (n : nat) (s : Series) : Series :=
  if bool_decide (length s < n) then replicate (length s) NaN
  else
    let first := mean (take n s) in
    replicate (n - 1) NaN ++ first :: wilder_from n first (drop n s).

Definition wilder_rsi_spec (prices : Series) (period : nat) : Series :=
  let delta := drop 1 (diff prices) in
  let gains := map (λ d, if fgtb d (of_Z 0) then d else of_Z 0) delta in
  let losses := map (λ d, if fltb d (of_Z 0) then fneg d else of_Z 0) delta in
  let rs := series_div (wilder_smooth_spec period gains)
                       (wilder_smooth_spec period losses) in
  match prices with
  | [] => []
  | _ :: _ =>
      NaN :: map (λ x, fsub (of_Z 100) (fdiv (of_Z 100) (fadd (of_Z 1) x))) rs
  end.

(** ** Inputs for the examples *)

(** A strategy whose frame already carries its signals. *)
Inductive Precomputed : Type := precomputed.

#[global] Instance Precomputed_strategy : BaseStrategy Precomputed :=
  {| generate_signals := λ _ df, Ok df |}.

Definition jan (d : Z) : Timestamp := {| year := 2024; month := 1; day := d |}.

Definition bar (d : Z) (close : Q) (signal : Z) : Timestamp * gmap string fval :=
  (jan d, {[ "close"%string := Fin close; "signal"%string := of_Z signal ]}).

Definition unsignalled_bar (d : Z) (close : Q) : Timestamp * gmap string fval :=
  (jan d, {[ "close"%string := Fin close ]}).

Definition annotated (bars : list (Timestamp * gmap string fval)) : DataFrame :=
  {| columns := ["close"; "signal"]%string; rows := bars |}.

Definition closes (l : list Q) : DataFrame :=
  {| columns := ["close"%string];
     rows := imap (λ i c, unsignalled_bar (Z.of_nat i + 1) c) l |}.

Definition engine (initial_capital commission : Q) : BacktestEngine :=
  {| initial_capital := initial_capital;
     commission := commission;
     max_position_size := 0.1;
     stop_loss_pct := 0.05;
     take_profit_pct := 0.15;
     max_risk_per_trade := 0.02 |}.

(** An equity snapshot that only carries its date and portfolio value. *)
Definition snapshot (y m d : Z) (value : Q) : EquitySnapshot :=
  {| snap_date := {| year := y; month := m; day := d |};
     snap_portfolio_value := Fin value;
     snap_cash := Fin value;
     snap_holdings_value := Fin 0;
     snap_returns := NaN |}.

Definition curve (ec : list EquitySnapshot) : BacktestResult :=
  {| res_equity_curve := ec;
     res_trades := [];
     final_portfolio_value := default NaN (snap_portfolio_value <$> last ec);
     res_initial_capital := 10000 |}.

(** Does the cell under [key] hold the number [v]? *)
Definition cell_is (row : gmap string fval) (key : string) (v : fval) : bool :=
  match row !! key with
  | Some x => sameb x v
  | None => false
  end.

(** ** The trade log as a ledger

    [ledger c d h ts d' h']: starting with cash [d] above the initial
    capital and [h] shares, the trades [ts], each one a full entry or a full
    exit as the loop books it at commission rate [c], lead to cash [d'] above
    the initial capital and [h'] shares. *)

Inductive ledger (c : Q) : Q → Z → list Trade → Q → Z → Prop :=
| ledger_nil d h : ledger c d h [] d h
| ledger_buy d date p q ts d' h' :
    (q > 0)%Z →
    ledger c (d - inject_Z q * p * (1 + c)) q ts d' h' →
    ledger c d 0
      ({| trade_date := date; trade_action := BUY; trade_price := Fin p;
          trade_quantity := q;
          trade_value := Fin (inject_Z q * p * (1 + c));
          trade_commission := Fin (inject_Z q * p * (1 + c) * c);
          trade_pnl := None |} :: ts) d' h'
| ledger_sell d h date p ts d' h' :
    (h > 0)%Z →
    ledger c (d + inject_Z h * p * (1 - c)) 0 ts d' h' →
    ledger c d h
      ({| trade_date := date; trade_action := SELL; trade_price := Fin p;
          trade_quantity := h;
          trade_value := Fin (inject_Z h * p * (1 - c));
          trade_commission := Fin (inject_Z h * p * (1 - c) * c);
          trade_pnl := None |} :: ts) d' h'.

(** What the loop maintains on bars with finite closes. *)
Definition books_balance (self : BacktestEngine) (st : LoopState) : Prop :=
  ∃ qc d,
    cash st = Fin qc ∧
    (qc == initial_capital self + d)%Q ∧
    ledger (commission self) 0 0 (trades st) d (holdings st) ∧
    match current_portfolio_value st with
    | Some v => ∃ p, v = fadd (Fin qc) (fmul (of_Z (holdings st)) (Fin p))
    | None => True
    end.

(** ** More of the engine *)

(** What the second pass makes of trade [t] when [prev] is the trade
    before it. *)
Definition with_pnl (prev t : Trade) : Trade :=
  if bool_decide (trade_action t = SELL) && bool_decide (trade_action prev = BUY)
  then
    {| trade_date := trade_date t;
       trade_action := trade_action t;
       trade_price := trade_price t;
       trade_quantity := trade_quantity t;
       trade_value := trade_value t;
       trade_commission := trade_commission t;
       trade_pnl := Some (fmul (fsub (trade_price t) (trade_price prev))
                               (of_Z (trade_quantity t))) |}
  else t.

(** What a trade does to the cash balance: a BUY debits its value, a SELL
    credits it. *)
Definition cash_flow (t : Trade) : fval :=
  match trade_action t with
  | BUY => fneg (trade_value t)
  | SELL => trade_value t
  end.

(** [a / b] on Python floats: a zero divisor raises, whatever [a] is. *)
Definition py_truediv (a b : fval) : result fval :=
  if feqb b (of_Z 0) then Raise ZeroDivisionError else Ok (fdiv a b).

(** The truth value of a Python float: false for zero only. *)
Definition py_bool (x : fval) : bool := fneb x (of_Z 0).

(** [BacktestEngine.calculate_position_size]; [volatility] is [None] or a
    float, and only its truth value and sign are looked at. *)
Definition calculate_position_size (self : BacktestEngine)
    (current_portfolio_value price : fval) (volatility : option fval)
  : result Z :=
  let max_dollar_amount :=
    fmul current_portfolio_value (Fin (max_position_size self)) in
  basic ← py_truediv max_dollar_amount price;
  basic_shares ← py_int basic;
  shares ←
    match volatility with
    | Some v =>
        if py_bool v && fgtb v (of_Z 0) then
          let max_risk_amount :=
            fmul current_portfolio_value (Fin (max_risk_per_trade self)) in
          let risk_per_share := fmul price (Fin (stop_loss_pct self)) in
          risk_based_shares ←
            (if fgtb risk_per_share (of_Z 0)
             then r ← py_truediv max_risk_amount risk_per_share; py_int r
             else Ok basic_shares);
          Ok (Z.min basic_shares risk_based_shares)
        else Ok basic_shares
    | None => Ok basic_shares
    end;
  Ok (Z.max 0 shares).

(** Each snapshot's return is taken against the portfolio value before it,
    [prev] for the first one. *)
Fixpoint returns_chain (prev : fval) (ec : list EquitySnapshot) : Prop :=
  match ec with
  | [] => True
  | s :: ec =>
      snap_returns s
      = fdiv (fsub (snap_portfolio_value s) prev) prev ∧
      returns_chain (snap_portfolio_value s) ec
  end.

(** A flat bar, a BUY, a SELL at the same close, a flat bar. *)
Definition round_trip_frame : DataFrame :=
  annotated [bar 1 100 0; bar 2 50 1; bar 3 50 (-1); bar 4 60 0].

(** ** More of the metrics *)

(** [calculate_total_return_pct]; [final_value] is a numpy float, so a zero
    initial capital gives an infinity or NaN. *)
Definition calculate_total_return_pct (self : BacktestResult) : fval :=
  fmul (fdiv (fsub (final_portfolio_value self) (Fin (res_initial_capital self)))
             (Fin (res_initial_capital self)))
       (of_Z 100).

(** [s.expanding().max()]: the largest value so far, NaN cells skipped;
    NaN until there is a value. *)
Fixpoint expanding_max_from (best : option fval) (s : Series) : Series :=
  match s with
  | [] => []
  | x :: s =>
      let best' :=
        if is_nan x then best
        else match best with
             | None => Some x
             | Some b => Some (if fltb b x then x else b)
             end in
      default NaN best' :: expanding_max_from best' s
  end.

Definition expanding_max (s : Series) : Series := expanding_max_from None s.

(** [s.min()]: the smallest value, NaN cells skipped; NaN when there is
    none. *)
Definition series_min (s : Series) : fval :=
  match dropna_series s with
  | [] => NaN
  | x :: l => foldl (λ m y, if fltb y m then y else m) x l
  end.

Definition calculate_max_drawdown (self : BacktestResult) : fval :=
  let portfolio_values := map snap_portfolio_value (res_equity_curve self) in
  let peak := expanding_max portfolio_values in
  let drawdown := series_div (series_sub portfolio_values peak) peak in
  fmul (fabs (series_min drawdown)) (of_Z 100).

(** [len([t for t in self.trades if 'pnl' in t])] *)
Definition total_trades (self : BacktestResult) : nat :=
  length (List.filter (λ t, bool_decide (is_Some (trade_pnl t)))
            (res_trades self)).

Definition calculate_win_rate (self : BacktestResult) : fval :=
  let profitable_trades :=
    List.filter (λ t, fgtb (pnl_or_zero t) (of_Z 0)) (res_trades self) in
  if bool_decide (total_trades self = 0%nat) then Fin 0
  else Fin (inject_Z (Z.of_nat (length profitable_trades))
            / inject_Z (Z.of_nat (total_trades self)) * 100).

Definition calculate_calmar_ratio (self : BacktestResult) : fval :=
  let annual_return := calculate_total_return_pct self in
  let max_dd := calculate_max_drawdown self in
  if fneb max_dd (of_Z 0) then fdiv annual_return max_dd else of_Z 0.

(** The order [np.sort] uses: ascending, NaN last. *)
Definition sort_le (x y : fval) : Prop := fleb x y || is_nan y = true.

#[global] Instance sort_le_dec x y : Decision (sort_le x y).
Proof. unfold sort_le. apply _. Defined.

(** numpy's [_lerp]: between [a] and [b] at fraction [t]. *)
Definition lerp (a b : fval) (t : Q) : fval :=
  let diff_b_a := fsub b a in
  if Qle_bool 0.5 t then fsub b (fmul diff_b_a (Fin (1 - t)))
  else fadd a (fmul diff_b_a (Fin t)).

(** [np.percentile(a, q)] with the default linear interpolation, for a
    non-empty [a] without NaN (its only use here): the value at position
    [(n - 1) * q / 100] of the sorted values. *)
Definition percentile (a : Series) (q : Q) : result fval :=
  if negb (Qle_bool 0 q && Qle_bool q 100)
  then Raise (ValueError "Percentiles must be in the range [0, 100]")
  else
    let sorted := merge_sort sort_le a in
    let n := length a in
    let virtual_index := (inject_Z (Z.of_nat n - 1) * (q / 100))%Q in
    let previous := Z.to_nat (Qfloor virtual_index) in
    let next := Nat.min (previous + 1) (n - 1) in
    let gamma := (virtual_index - inject_Z (Qfloor virtual_index))%Q in
    Ok (lerp (default NaN (sorted !! previous)) (default NaN (sorted !! next))
             gamma).

Definition calculate_var (self : BacktestResult) (confidence_level : Q)
  : result fval :=
  let returns :=
    dropna_series (map snap_returns (res_equity_curve self)) in
  if bool_decide (length returns = 0%nat) then Ok (Fin 0)
  else percentile returns (confidence_level * 100).

Definition calculate_cvar (self : BacktestResult) (confidence_level : Q)
  : result fval :=
  let returns :=
    dropna_series (map snap_returns (res_equity_curve self)) in
  if bool_decide (length returns = 0%nat) then Ok (Fin 0)
  else
    var ← calculate_var self confidence_level;
    let tail_returns := List.filter (λ r, fleb r var) returns in
    Ok (if bool_decide (0 < length tail_returns) then mean tail_returns
        else Fin 0).

(** ** Volume momentum ([strategies/volume_momentum.py]) *)

(** [s.shift(n)] for [n >= 0] *)
Definition shift (n : nat) (s : Series) : Series :=
  take (length s) (replicate n NaN ++ s).

(** [s.ffill()]: [last] is the last valid value seen, NaN before any. *)
Fixpoint ffill_from (last : fval) (s : Series) : Series :=
  match s with
  | [] => []
  | x :: s =>
      let x' := if is_nan x then last else x in
      x' :: ffill_from x' s
  end.

Definition ffill_series (s : Series) : Series := ffill_from NaN s.

(** [s.pct_change(n)] with its default [fill_method='pad']: gaps are
    forward-filled, then [data / data.shift(n) - 1]. *)
Definition pct_change (n : nat) (s : Series) : Series :=
  let data := ffill_series s in
  map (λ x, fsub x (of_Z 1)) (series_div data (shift n data)).

Record VolumeMomentumStrategy : Type := {
  vm_lookback : nat;
  vm_volume_threshold : Q;
  vm_momentum_threshold : Q
}.

Definition vm_generate_signals (self : VolumeMomentumStrategy)
    (data : DataFrame) : result DataFrame :=
  volume ← df_getitem data "volume";
  let data := df_setitem data "volume_ma"
                (rolling_mean (vm_lookback self) volume) in
  close ← df_getitem data "close";
  let data := df_setitem data "price_momentum"
                (pct_change (vm_lookback self) close) in
  volume ← df_getitem data "volume";
  volume_ma ← df_getitem data "volume_ma";
  let data := df_setitem data "volume_ratio" (series_div volume volume_ma) in
  close ← df_getitem data "close";
  let data := df_setitem data "short_momentum" (pct_change 5 close) in
  let data := df_setitem_scalar data "signal" (of_Z 0) in
  close ← df_getitem data "close";
  let data := df_setitem data "price_ma"
                (rolling_mean (vm_lookback self) close) in
  price_momentum ← df_getitem data "price_momentum";
  short_momentum ← df_getitem data "short_momentum";
  volume_ratio ← df_getitem data "volume_ratio";
  close ← df_getitem data "close";
  price_ma ← df_getitem data "price_ma";
  let buy_condition :=
    zip_with andb
      (zip_with andb
         (zip_with andb
            (map (λ x, fgtb x (Fin (vm_momentum_threshold self))) price_momentum)
            (map (λ x, fgtb x (of_Z 0)) short_momentum))
         (map (λ x, fgtb x (Fin (vm_volume_threshold self))) volume_ratio))
      (zip_with fgtb close price_ma) in
  price_momentum ← df_getitem data "price_momentum";
  short_momentum ← df_getitem data "short_momentum";
  volume_ratio ← df_getitem data "volume_ratio";
  close ← df_getitem data "close";
  price_ma ← df_getitem data "price_ma";
  let sell_condition :=
    zip_with andb
      (zip_with andb
         (zip_with andb
            (map (λ x, fltb x (Fin (- vm_momentum_threshold self))) price_momentum)
            (map (λ x, fltb x (of_Z 0)) short_momentum))
         (map (λ x, fgtb x (Fin (vm_volume_threshold self))) volume_ratio))
      (zip_with fltb close price_ma) in
  let data := df_loc_set data buy_condition "signal" (of_Z 1) in
  let data := df_loc_set data sell_condition "signal" (of_Z (-1)) in
  Ok data.

#[global] Instance VolumeMomentumStrategy_strategy
  : BaseStrategy VolumeMomentumStrategy :=
  {| generate_signals := vm_generate_signals |}.

(** The value of a series [n] bars before bar [i]. *)
Definition ago (s : Series) (n i : nat) : fval :=
  if bool_decide (n ≤ i) then default NaN (s !! (i - n)) else NaN.

(** The relative change of the forward-filled series over the [n] bars
    ending at bar [i]. *)
Definition pct_at (s : Series) (n i : nat) : fval :=
  let data := ffill_series s in
  fsub (fdiv (default NaN (data !! i)) (ago data n i)) (of_Z 1).

Definition vm_bar (self : VolumeMomentumStrategy) (data : DataFrame)
    (i : nat) (r : Timestamp * gmap string fval) : Timestamp * gmap string fval :=
  let closes := column data "close" in
  let volumes := column data "volume" in
  let volume_ma := rolling_at (vm_lookback self) mean volumes i in
  let price_momentum := pct_at closes (vm_lookback self) i in
  let volume_ratio := fdiv (default NaN (r.2 !! "volume"%string)) volume_ma in
  let short_momentum := pct_at closes 5 i in
  let price_ma := rolling_at (vm_lookback self) mean closes i in
  let close := default NaN (r.2 !! "close"%string) in
  let buy :=
    fgtb price_momentum (Fin (vm_momentum_threshold self))
    && fgtb short_momentum (of_Z 0)
    && fgtb volume_ratio (Fin (vm_volume_threshold self))
    && fgtb close price_ma in
  let sell :=
    fltb price_momentum (Fin (- vm_momentum_threshold self))
    && fltb short_momentum (of_Z 0)
    && fgtb volume_ratio (Fin (vm_volume_threshold self))
    && fltb close price_ma in
  let signal := if sell then of_Z (-1) else if buy then of_Z 1 else of_Z 0 in
  (r.1, <["signal"%string := signal]>
          (<["price_ma"%string := price_ma]>
             (<["short_momentum"%string := short_momentum]>
                (<["volume_ratio"%string := volume_ratio]>
                   (<["price_momentum"%string := price_momentum]>
                      (<["volume_ma"%string := volume_ma]> r.2)))))).

(** Bars with a close and a volume, for the examples. *)
Definition traded (l : list (Q * Q)) : DataFrame :=
  {| columns := ["close"; "volume"]%string;
     rows := imap (λ i cv, (jan (Z.of_nat i + 1),
                            {[ "close"%string := Fin cv.1;
                               "volume"%string := Fin cv.2 ]})) l |}.

(** A bar of raw market data, and a frame of such bars. *)
Definition ohlcv (d : Z) (open high low close volume : fval)
  : Timestamp * gmap string fval :=
  (jan d, {[ "Open"%string := open; "High"%string := high;
             "Low"%string := low; "Close"%string := close;
             "Volume"%string := volume ]}).

Definition market_data (bars : list (Timestamp * gmap string fval)) : DataFrame :=
  {| columns := required_columns; rows := bars |}.

(** [BacktestEngine.calculate_portfolio_risk_metrics]; the frame built from
    no snapshot has no ['returns'] column. The [iloc[-1]] reads are on
    series with at least 30 rows. *)
Definition calculate_portfolio_risk_metrics (sqrtQ : Q → Q)
    (self : BacktestEngine) (equity_curve : list EquitySnapshot)
  : result (gmap string fval) :=
  match equity_curve with
  | [] => Raise (KeyError "returns")
  | _ =>
      let returns := dropna_series (map snap_returns equity_curve) in
      if bool_decide (length returns < 30) then Ok ∅
      else
        let rolling_vol :=
          series_scale (rolling_std sqrtQ 30 returns) (fsqrt sqrtQ (of_Z 252)) in
        let rolling_sharpe :=
          series_div (series_scale (rolling_mean 30 returns) (of_Z 252))
                     rolling_vol in
        let portfolio_values := map snap_portfolio_value equity_curve in
        let peak := expanding_max portfolio_values in
        let last_value := default NaN (last portfolio_values) in
        let last_peak := default NaN (last peak) in
        let current_drawdown :=
          fmul (fdiv (fsub last_value last_peak) last_peak) (of_Z 100) in
        Ok {[ "current_volatility"%string := default (of_Z 0) (last rolling_vol);
              "current_sharpe"%string := default (of_Z 0) (last rolling_sharpe);
              "current_drawdown"%string := current_drawdown;
              "portfolio_value"%string := last_value ]}
  end.

(** Thirty bars at one price. *)
Definition quiet_month : DataFrame := closes (replicate 30 100%Q).


(** A month that opens with a purchase at 100 and then trades at 90. *)
Definition falling_month : DataFrame :=
  annotated (bar 1 100 1 :: imap (λ i c, bar (Z.of_nat i + 2) c 0)
                                 (replicate 29 90%Q)).

(** ** The trade arithmetic in binary64

    The engine computes with IEEE 754 double-precision numbers. The
    definitions below repeat the trade block and the valuation of the loop
    of [run_backtest] on binary64 numbers, operation by operation and in
    the order of the source, to show where rounding is visible. They read
    the same frames and the same engine as the definitions above. *)

(** [float(z)] *)
Definition Z2b64 (z : Z) : PrimFloat.float :=
  FloatOps.SF2Prim
    (SpecFloat.binary_normalize FloatOps.prec FloatOps.emax z 0 false).

(** The double nearest to a rational whose numerator and denominator are
    below 2^53, as a decimal literal of the source is read. *)
Definition Q2b64 (q : Q) : PrimFloat.float :=
  PrimFloat.div (Z2b64 (Qnum q)) (Z2b64 (Z.pos (Qden q))).

Definition b64 (x : fval) : PrimFloat.float :=
  match x with
  | Fin q => Q2b64 q
  | PInf => PrimFloat.infinity
  | NInf => PrimFloat.neg_infinity
  | NaN => PrimFloat.nan
  end.

(** [int(x)] on a double. *)
Definition py_int64 (x : PrimFloat.float) : result Z :=
  match FloatOps.Prim2SF x with
  | SpecFloat.S754_zero _ => Ok 0%Z
  | SpecFloat.S754_finite s m e =>
      let a := if (0 <=? e)%Z then (Z.pos m * 2 ^ e)%Z
               else (Z.pos m / 2 ^ (- e))%Z in
      Ok (if s then (- a)%Z else a)
  | SpecFloat.S754_infinity _ => Raise OverflowError
  | SpecFloat.S754_nan =>
      Raise (ValueError "cannot convert float NaN to integer")
  end.

Record Trade64 : Type := {
  t64_action : Action;
  t64_price : PrimFloat.float;
  t64_quantity : Z;
  t64_value : PrimFloat.float;
  t64_commission : PrimFloat.float
}.

Record LoopState64 : Type := {
  cash64 : PrimFloat.float;
  holdings64 : Z;
  trades64 : list Trade64;
  value64 : option PrimFloat.float
}.

Definition execute_signal64 (self : BacktestEngine) (st : LoopState64)
    (current_price signal : PrimFloat.float)
  : result (PrimFloat.float * Z * list Trade64) :=
  let commission := Q2b64 (commission self) in
  if PrimFloat.eqb signal (Z2b64 1) && bool_decide (holdings64 st = 0%Z) then
    let available_cash := PrimFloat.mul (cash64 st) (Q2b64 0.95) in
    shares_to_buy ←
      py_int64 (PrimFloat.div available_cash
                  (PrimFloat.mul current_price
                     (PrimFloat.add (Z2b64 1) commission)));
    if bool_decide (shares_to_buy > 0)%Z then
      let cost :=
        PrimFloat.mul (PrimFloat.mul (Z2b64 shares_to_buy) current_price)
                      (PrimFloat.add (Z2b64 1) commission) in
      Ok (PrimFloat.sub (cash64 st) cost,
          (holdings64 st + shares_to_buy)%Z,
          trades64 st ++ [ {| t64_action := BUY;
                              t64_price := current_price;
                              t64_quantity := shares_to_buy;
                              t64_value := cost;
                              t64_commission := PrimFloat.mul cost commission |} ])
    else Ok (cash64 st, holdings64 st, trades64 st)
  else if PrimFloat.eqb signal (Z2b64 (-1))
          && bool_decide (holdings64 st > 0)%Z then
    let shares_to_sell := holdings64 st in
    let proceeds :=
      PrimFloat.mul (PrimFloat.mul (Z2b64 shares_to_sell) current_price)
                    (PrimFloat.sub (Z2b64 1) commission) in
    Ok (PrimFloat.add (cash64 st) proceeds,
        0%Z,
        trades64 st ++ [ {| t64_action := SELL;
                            t64_price := current_price;
                            t64_quantity := shares_to_sell;
                            t64_value := proceeds;
                            t64_commission := PrimFloat.mul proceeds commission |} ])
  else Ok (cash64 st, holdings64 st, trades64 st).

Definition loop_body64 (self : BacktestEngine) (st : LoopState64)
    (bar : Timestamp * gmap string fval) : result LoopState64 :=
  let '(date, row) := bar in
  current_price ← row_getitem row "close";
  let signal := row_get row "signal" (of_Z 0) in
  '(cash', holdings', trades') ←
    execute_signal64 self st (b64 current_price) (b64 signal);
  let value :=
    PrimFloat.add cash' (PrimFloat.mul (Z2b64 holdings') (b64 current_price)) in
  Ok {| cash64 := cash';
        holdings64 := holdings';
        trades64 := trades';
        value64 := Some value |}.

Definition simulate64 (self : BacktestEngine)
    (bars : list (Timestamp * gmap string fval)) : result LoopState64 :=
  foldlM (loop_body64 self)
         {| cash64 := Q2b64 (initial_capital self);
            holdings64 := 0;
            trades64 := [];
            value64 := None |}
         bars.

(** * Properties *)

(** ** Numbers *)

#[local] Arguments Qplus : simpl never.
#[local] Arguments Qmult : simpl never.
#[local] Arguments Qopp : simpl never.
#[local] Arguments Qminus : simpl never.
#[local] Arguments Qdiv : simpl never.
#[local] Arguments Qinv : simpl never.
#[local] Arguments inject_Z : simpl never.
#[local] Arguments Qtrunc : simpl never.

Lemma same_refl x : same x x.
Proof. destruct x; simpl; auto with qarith. Qed.

Lemma same_sym x y : same x y → same y x.
Proof. destruct x, y; simpl; auto with qarith. Qed.

Lemma same_trans x y z : same x y → same y z → same x z.
Proof.
  destruct x, y, z; simpl; try tauto. intros H1 H2. by rewrite H1.
Qed.

Lemma feqb_zero_not_one v :
  feqb v (of_Z 0) = true →
  feqb v (of_Z 1) = false ∧ feqb v (of_Z (-1)) = false.
Proof.
  destruct v as [q| | |]; simpl; try discriminate.
  intros Hq. apply Qeq_bool_iff in Hq.
  split; apply not_true_is_false; intros H; apply Qeq_bool_iff in H;
    rewrite Hq in H; discriminate.
Qed.

(** ** The simulation loop on bars that trigger nothing *)

Lemma execute_signal_hold self st date price signal :
  feqb signal (of_Z 1) = false →
  feqb signal (of_Z (-1)) = false →
  execute_signal self st date price signal
  = Ok (cash st, holdings st, trades st).
Proof. intros H1 H2. unfold execute_signal. by rewrite H1, H2. Qed.

Lemma foldlM_hold self bars : ∀ st qc,
  Forall (λ bar : Timestamp * gmap string fval,
            (∃ p, bar.2 !! "close"%string = Some (Fin p)) ∧
            feqb (row_get bar.2 "signal" (of_Z 0)) (of_Z 1) = false ∧
            feqb (row_get bar.2 "signal" (of_Z 0)) (of_Z (-1)) = false) bars →
  cash st = Fin qc →
  holdings st = 0%Z →
  ∃ st' new,
    foldlM (loop_body self) st bars = Ok st' ∧
    cash st' = Fin qc ∧ holdings st' = 0%Z ∧ trades st' = trades st ∧
    equity_curve st' = equity_curve st ++ new ∧
    length new = length bars ∧
    Forall (λ s, same (snap_portfolio_value s) (Fin qc)) new ∧
    (bars ≠ [] → ∃ v, current_portfolio_value st' = Some v ∧ same v (Fin qc)).
Proof.
  induction bars as [|[date row] bars IH]; intros st qc Hbars Hcash Hhold.
  - exists st, []. rewrite app_nil_r. repeat split; auto. congruence.
  - inversion Hbars as [|? ? [[p Hp] [H1 H2]] Hrest]; subst. simpl in *.
    unfold row_getitem. rewrite Hp. simpl.
    rewrite (execute_signal_hold _ _ _ _ _ H1 H2). simpl.
    rewrite Hcash, Hhold.
    set (st1 := {| cash := Fin qc |}).
    destruct (IH st1 qc Hrest eq_refl eq_refl)
      as (st' & new & Hrun & Hc & Hh & Ht & He & Hlen & Hall & Hcur).
    assert (Hval : (qc + inject_Z 0 * p == qc)%Q) by ring.
    exists st'. eexists (_ :: new). rewrite Hrun. subst st1. simpl in *.
    split; [reflexivity|]. split; [done|]. split; [done|]. split; [done|].
    split; [rewrite He, <- app_assoc; reflexivity|].
    split; [simpl; by rewrite Hlen|].
    split; [constructor; [exact Hval | exact Hall]|].
    intros _. destruct bars as [|b bars].
    + simpl in Hrun. injection Hrun as <-. simpl. eauto.
    + apply Hcur. discriminate.
Qed.

Lemma run_backtest_hold {S : Type} `{BaseStrategy S} (self : BacktestEngine)
    (data : DataFrame) (strategy : S) (signal_data : DataFrame) :
  generate_signals strategy data = Ok signal_data →
  iterrows signal_data ≠ [] →
  Forall (λ bar : Timestamp * gmap string fval,
            (∃ p, bar.2 !! "close"%string = Some (Fin p)) ∧
            feqb (row_get bar.2 "signal" (of_Z 0)) (of_Z 1) = false ∧
            feqb (row_get bar.2 "signal" (of_Z 0)) (of_Z (-1)) = false)
         (iterrows signal_data) →
  ∃ res,
    run_backtest self data strategy = Ok res ∧
    res_trades res = [] ∧
    length (res_equity_curve res) = length (iterrows signal_data) ∧
    Forall (λ s, same (snap_portfolio_value s) (Fin (initial_capital self)))
           (res_equity_curve res) ∧
    same (final_portfolio_value res) (Fin (initial_capital self)).
Proof.
  intros Hgen Hne Hbars.
  destruct (foldlM_hold self _ (init_state self) (initial_capital self)
              Hbars eq_refl eq_refl)
    as (st & new & Hrun & _ & _ & Ht & He & Hlen & Hall & Hcur).
  destruct (Hcur Hne) as (v & Hv & Hsame).
  unfold run_backtest. rewrite Hgen. simpl. unfold simulate. rewrite Hrun. simpl.
  simpl in He. rewrite He, Ht, Hv.
  destruct new as [|s new]; [destruct (iterrows signal_data); done|].
  simpl. eexists. split; [reflexivity|]. simpl. auto.
Qed.

(** C1 (amended): on a non-empty series of bars with finite closes whose
    signal is 0 on every bar, [run_backtest] returns; the trade list is
    empty, there is one equity snapshot per bar, each snapshot's portfolio
    value is the initial capital, and so is the final portfolio value. *)
Theorem all_hold_keeps_capital {S : Type} `{BaseStrategy S}
    (self : BacktestEngine) (data : DataFrame) (strategy : S)
    (signal_data : DataFrame) :
  generate_signals strategy data = Ok signal_data →
  iterrows signal_data ≠ [] →
  Forall (λ bar : Timestamp * gmap string fval,
            (∃ p, bar.2 !! "close"%string = Some (Fin p)) ∧
            (∃ v, bar.2 !! "signal"%string = Some v ∧ feqb v (of_Z 0) = true))
         (iterrows signal_data) →
  ∃ res,
    run_backtest self data strategy = Ok res ∧
    res_trades res = [] ∧
    length (res_equity_curve res) = length (iterrows signal_data) ∧
    Forall (λ s, same (snap_portfolio_value s) (Fin (initial_capital self)))
           (res_equity_curve res) ∧
    same (final_portfolio_value res) (Fin (initial_capital self)).
Proof.
  intros Hgen Hne Hbars. apply (run_backtest_hold self data strategy signal_data);
    [done..|].
  eapply Forall_impl; [exact Hbars|]. intros [d row] [Hp (v & Hv & H0)].
  split; [exact Hp|]. simpl in *. unfold row_get. rewrite Hv. simpl.
  by apply feqb_zero_not_one.
Qed.

Lemma all_hold_keeps_capital_witness :
  ∃ res,
    run_backtest (engine 10000 0.001)
      (annotated [bar 1 100 0; bar 2 101 0]) precomputed = Ok res ∧
    res_trades res = [] ∧
    length (res_equity_curve res) = 2%nat ∧
    Forall (λ s, same (snap_portfolio_value s) (Fin 10000))
           (res_equity_curve res) ∧
    same (final_portfolio_value res) (Fin 10000).
Proof.
  apply (all_hold_keeps_capital (engine 10000 0.001)
           (annotated [bar 1 100 0; bar 2 101 0]) precomputed
           (annotated [bar 1 100 0; bar 2 101 0])).
  - reflexivity.
  - discriminate.
  - repeat constructor; simpl; eauto.
Defined.

(** C1, as stated, fails on the empty series: every bar of it has signal 0,
    and [run_backtest] raises instead of returning the initial capital. *)
Lemma all_hold_empty_series_raises :
  Forall (λ bar : Timestamp * gmap string fval,
            ∃ v, bar.2 !! "signal"%string = Some v ∧ feqb v (of_Z 0) = true)
         (iterrows (annotated [])) ∧
  run_backtest (engine 10000 0.001) (annotated []) precomputed
  = Raise (KeyError "None of ['date'] are in the columns").
Proof. split; [constructor | reflexivity]. Qed.

(** C9 (amended): on a non-empty series of bars with finite closes and no
    ['signal'] cell, [run_backtest] returns: every bar defaults to signal 0,
    no trade is made and the final portfolio value is the initial capital. *)
Theorem missing_signal_is_hold {S : Type} `{BaseStrategy S}
    (self : BacktestEngine) (data : DataFrame) (strategy : S)
    (signal_data : DataFrame) :
  generate_signals strategy data = Ok signal_data →
  iterrows signal_data ≠ [] →
  Forall (λ bar : Timestamp * gmap string fval,
            (∃ p, bar.2 !! "close"%string = Some (Fin p)) ∧
            bar.2 !! "signal"%string = None)
         (iterrows signal_data) →
  Forall (λ bar : Timestamp * gmap string fval,
            row_get bar.2 "signal" (of_Z 0) = of_Z 0)
         (iterrows signal_data) ∧
  ∃ res,
    run_backtest self data strategy = Ok res ∧
    res_trades res = [] ∧
    Forall (λ s, same (snap_portfolio_value s) (Fin (initial_capital self)))
           (res_equity_curve res) ∧
    same (final_portfolio_value res) (Fin (initial_capital self)).
Proof.
  intros Hgen Hne Hbars. split.
  - eapply Forall_impl; [exact Hbars|]. intros [d row] [_ Hnone]. simpl in *.
    unfold row_get. by rewrite Hnone.
  - destruct (run_backtest_hold self data strategy signal_data Hgen Hne)
      as (res & Hrun & Ht & _ & Hall & Hfin).
    + eapply Forall_impl; [exact Hbars|]. intros [d row] [Hp Hnone].
      split; [exact Hp|]. simpl in *. unfold row_get. rewrite Hnone. done.
    + exists res. auto.
Qed.

Lemma missing_signal_is_hold_witness :
  ∃ res,
    run_backtest (engine 10000 0.001) (closes [100; 101]%Q) precomputed = Ok res ∧
    res_trades res = [] ∧
    Forall (λ s, same (snap_portfolio_value s) (Fin 10000))
           (res_equity_curve res) ∧
    same (final_portfolio_value res) (Fin 10000).
Proof.
  apply (missing_signal_is_hold (engine 10000 0.001)
           (closes [100; 101]%Q) precomputed (closes [100; 101]%Q)).
  - reflexivity.
  - discriminate.
  - repeat constructor; simpl; eauto.
Defined.

(** C9, as stated, fails on the empty frame without a ['signal'] column:
    [run_backtest] raises. *)
Lemma missing_signal_empty_series_raises :
  ("signal"%string ∉ columns (closes [])) ∧
  Forall (λ bar : Timestamp * gmap string fval, bar.2 !! "signal"%string = None)
         (iterrows (closes [])) ∧
  run_backtest (engine 10000 0.001) (closes []) precomputed
  = Raise (KeyError "None of ['date'] are in the columns").
Proof.
  split; [|split; [constructor | reflexivity]].
  simpl. intros Hin. apply list_elem_of_singleton in Hin. discriminate.
Qed.

(** ** Cash never goes negative *)

Lemma trunc_le (x : Q) : (0 < Qtrunc x)%Z → (inject_Z (Qtrunc x) <= x)%Q.
Proof.
  unfold Qtrunc. destruct x as [n d]. simpl. intros Hpos.
  assert (Hn : (0 <= n)%Z).
  { destruct (Z.le_gt_cases 0 n) as [|Hneg]; [done|].
    assert (n ÷ Z.pos d <= 0)%Z; [|lia].
    rewrite <- (Z.opp_involutive n), Z.quot_opp_l by lia.
    assert (0 <= (- n) ÷ Z.pos d)%Z by (apply Z.quot_pos; lia). lia. }
  rewrite Z.quot_div_nonneg by lia.
  unfold Qle, inject_Z. simpl. rewrite Z.mul_1_r, Z.mul_comm.
  apply Z.mul_div_le. lia.
Qed.

Lemma Qeq_bool_false_pos (x : Q) : (0 < x)%Q → Qeq_bool x 0 = false.
Proof.
  intros Hx. apply not_true_is_false. intros H. apply Qeq_bool_iff in H.
  rewrite H in Hx. by apply Qlt_irrefl in Hx.
Qed.

Lemma buy_cost_le (qc p c : Q) (n : Z) :
  (0 <= qc)%Q → (0 < p)%Q → (0 <= c)%Q →
  n = Qtrunc (qc * 0.95 / (p * (1 + c))) →
  (n > 0)%Z →
  (inject_Z n * p * (1 + c) <= qc)%Q.
Proof.
  intros Hqc Hp Hc -> Hn.
  assert (HD : (0 < p * (1 + c))%Q) by nra.
  pose proof (trunc_le (qc * 0.95 / (p * (1 + c))) ltac:(lia)) as Hle.
  set (s := inject_Z _) in *.
  apply (Qmult_le_compat_r _ _ (p * (1 + c))) in Hle; [|lra].
  assert (Heq : (qc * 0.95 / (p * (1 + c)) * (p * (1 + c)) == qc * 0.95)%Q).
  { field. split; intros H0; rewrite H0 in *; lra. }
  rewrite Heq in Hle. lra.
Qed.

Lemma loop_body_cash self st (bar : Timestamp * gmap string fval) p qc :
  (0 <= commission self)%Q → (commission self <= 1)%Q →
  bar.2 !! "close"%string = Some (Fin p) → (0 < p)%Q →
  cash st = Fin qc → (0 <= qc)%Q → (0 <= holdings st)%Z →
  ∃ st' qc' s,
    loop_body self st bar = Ok st' ∧
    cash st' = Fin qc' ∧ (0 <= qc')%Q ∧ (0 <= holdings st')%Z ∧
    equity_curve st' = equity_curve st ++ [s] ∧
    snap_cash s = Fin qc'.
Proof.
  intros Hc0 Hc1 Hp Hpos Hcash Hqc Hh. destruct bar as [date row]. simpl in Hp.
  unfold loop_body, row_getitem. rewrite Hp. simpl.
  unfold execute_signal. rewrite Hcash.
  destruct (feqb _ (of_Z 1) && _) eqn:Hbuy.
  - simpl. rewrite Qeq_bool_false_pos by nra. simpl.
    destruct (bool_decide (_ > 0)%Z) eqn:Hn; simpl;
      [apply bool_decide_eq_true in Hn|].
    + eexists _, _, _. split; [reflexivity|]. simpl.
      split; [reflexivity|]. split; [|split; [lia|done]].
      pose proof (buy_cost_le qc p (commission self) _ Hqc Hpos Hc0 eq_refl Hn).
      lra.
    + eexists _, _, _. split; [reflexivity|]. simpl. auto.
  - destruct (feqb _ (of_Z (-1)) && _) eqn:Hsell; simpl.
    + eexists _, _, _. split; [reflexivity|]. simpl.
      split; [reflexivity|]. split; [|done].
      assert (0 <= inject_Z (holdings st))%Q.
      { unfold Qle, inject_Z. simpl. lia. }
      assert (0 <= inject_Z (holdings st) * p)%Q
        by (apply Qmult_le_0_compat; lra).
      assert (0 <= inject_Z (holdings st) * p * (1 - commission self))%Q
        by (apply Qmult_le_0_compat; lra).
      lra.
    + eexists _, _, _. split; [reflexivity|]. simpl. auto.
Qed.

Lemma foldlM_cash self bars : ∀ st qc,
  (0 <= commission self)%Q → (commission self <= 1)%Q →
  Forall (λ bar : Timestamp * gmap string fval,
            ∃ p, bar.2 !! "close"%string = Some (Fin p) ∧ (0 < p)%Q) bars →
  cash st = Fin qc → (0 <= qc)%Q → (0 <= holdings st)%Z →
  ∃ st' new,
    foldlM (loop_body self) st bars = Ok st' ∧
    equity_curve st' = equity_curve st ++ new ∧
    length new = length bars ∧
    Forall (λ s, ∃ q, snap_cash s = Fin q ∧ (0 <= q)%Q) new.
Proof.
  induction bars as [|bar bars IH]; intros st qc Hc0 Hc1 Hbars Hcash Hqc Hh.
  - exists st, []. by rewrite app_nil_r.
  - inversion Hbars as [|? ? (p & Hp & Hpos) Hrest]; subst.
    destruct (loop_body_cash self st bar p qc Hc0 Hc1 Hp Hpos Hcash Hqc Hh)
      as (st1 & qc1 & s & Hstep & Hcash1 & Hqc1 & Hh1 & He1 & Hs).
    destruct (IH st1 qc1 Hc0 Hc1 Hrest Hcash1 Hqc1 Hh1)
      as (st' & new & Hrun & He & Hlen & Hall).
    exists st', (s :: new). simpl. rewrite Hstep. simpl. rewrite Hrun.
    split; [done|]. split; [by rewrite He, He1, <- app_assoc|].
    split; [by rewrite Hlen|]. constructor; eauto.
Qed.

(** C2 (amended): with strictly positive closes, a non-negative initial
    capital and a commission rate between 0 and 1, the loop of
    [run_backtest] completes and the cash balance recorded after each bar
    is non-negative. *)
Theorem cash_never_negative {S : Type} `{BaseStrategy S}
    (self : BacktestEngine) (data : DataFrame) (strategy : S)
    (signal_data : DataFrame) :
  generate_signals strategy data = Ok signal_data →
  (0 <= initial_capital self)%Q →
  (0 <= commission self)%Q → (commission self <= 1)%Q →
  Forall (λ bar : Timestamp * gmap string fval,
            ∃ p, bar.2 !! "close"%string = Some (Fin p) ∧ (0 < p)%Q)
         (iterrows signal_data) →
  ∃ st,
    simulate self (iterrows signal_data) = Ok st ∧
    length (equity_curve st) = length (iterrows signal_data) ∧
    Forall (λ s, ∃ q, snap_cash s = Fin q ∧ (0 <= q)%Q) (equity_curve st) ∧
    (iterrows signal_data ≠ [] →
     ∃ res, run_backtest self data strategy = Ok res ∧
            res_equity_curve res = equity_curve st).
Proof.
  intros Hgen Hic Hc0 Hc1 Hbars.
  destruct (foldlM_cash self _ (init_state self) (initial_capital self)
              Hc0 Hc1 Hbars eq_refl Hic ltac:(done))
    as (st & new & Hrun & He & Hlen & Hall).
  simpl in He. exists st. unfold simulate. rewrite He.
  split; [done|]. split; [done|]. split; [done|].
  intros Hne. unfold run_backtest. rewrite Hgen. simpl. unfold simulate.
  rewrite Hrun. simpl. rewrite He.
  destruct new as [|s new]; [destruct (iterrows signal_data); done|]. simpl.
  destruct (current_portfolio_value st) as [v|] eqn:Hv.
  - eexists. split; reflexivity.
  - exfalso. clear - Hrun Hne Hv.
    revert Hrun. generalize (init_state self).
    induction (iterrows signal_data) as [|bar bars IH]; [done|].
    intros st0. simpl.
    destruct (loop_body self st0 bar) as [st1|] eqn:Hstep; [|done]. simpl.
    destruct bars as [|bar' bars].
    + simpl. intros [= <-]. unfold loop_body in Hstep.
      destruct bar as [date row].
      destruct (row_getitem row "close") as [price|]; [|done]. simpl in Hstep.
      destruct (execute_signal self st0 date price _) as [[[c h] t]|]; [|done].
      simpl in Hstep. injection Hstep as <-. done.
    + apply IH. done.
Qed.

Lemma cash_never_negative_witness :
  ∃ st,
    simulate (engine 10000 0.001)
      (iterrows (annotated [bar 1 100 1; bar 2 110 (-1)])) = Ok st ∧
    length (equity_curve st) = 2%nat ∧
    Forall (λ s, ∃ q, snap_cash s = Fin q ∧ (0 <= q)%Q) (equity_curve st) ∧
    (iterrows (annotated [bar 1 100 1; bar 2 110 (-1)]) ≠ [] →
     ∃ res, run_backtest (engine 10000 0.001)
              (annotated [bar 1 100 1; bar 2 110 (-1)]) precomputed = Ok res ∧
            res_equity_curve res = equity_curve st).
Proof.
  apply (cash_never_negative (engine 10000 0.001)
           (annotated [bar 1 100 1; bar 2 110 (-1)]) precomputed
           (annotated [bar 1 100 1; bar 2 110 (-1)])).
  - reflexivity.
  - simpl. lra.
  - simpl. lra.
  - simpl. lra.
  - repeat constructor; simpl; eexists; (split; [reflexivity | lra]).
Defined.

(** C2, as stated, fails for a commission rate above 1: the proceeds of the
    SELL are negative and the cash balance after the second bar is -24. *)
Lemma cash_negative_when_commission_exceeds_one :
  (0 <= 100)%Q ∧ (0 <= 2)%Q ∧
  Forall (λ bar : Timestamp * gmap string fval,
            ∃ p, bar.2 !! "close"%string = Some (Fin p) ∧ (0 < p)%Q)
         (iterrows (annotated [bar 1 1 1; bar 2 1 (-1)])) ∧
  ∃ res s,
    run_backtest (engine 100 2) (annotated [bar 1 1 1; bar 2 1 (-1)])
      precomputed = Ok res ∧
    res_equity_curve res !! 1%nat = Some s ∧
    sameb (snap_cash s) (Fin (-24)) = true ∧
    fltb (snap_cash s) (of_Z 0) = true.
Proof.
  split; [lra|]. split; [lra|]. split.
  - repeat constructor; simpl; eexists; (split; [reflexivity | lra]).
  - eexists _, _. split; [vm_compute; reflexivity|].
    split; [reflexivity|]. split; reflexivity.
Qed.

(** ** The ledger invariant and the round trip *)

Lemma ledger_snoc_buy c d0 h0 ts d h date p q :
  ledger c d0 h0 ts d h → h = 0%Z → (q > 0)%Z →
  ledger c d0 h0
    (ts ++ [ {| trade_date := date; trade_action := BUY; trade_price := Fin p;
                trade_quantity := q;
                trade_value := Fin (inject_Z q * p * (1 + c));
                trade_commission := Fin (inject_Z q * p * (1 + c) * c);
                trade_pnl := None |} ])
    (d - inject_Z q * p * (1 + c)) q.
Proof.
  induction 1 as [d h|d date' p' q' ts d' h' Hq' _ IH|d h date' p' ts d' h' Hh _ IH];
    intros -> Hq; simpl.
  - apply ledger_buy; [done|]. apply ledger_nil.
  - apply ledger_buy; [done|]. by apply IH.
  - apply ledger_sell; [done|]. by apply IH.
Qed.

Lemma ledger_snoc_sell c d0 h0 ts d h date p :
  ledger c d0 h0 ts d h → (h > 0)%Z →
  ledger c d0 h0
    (ts ++ [ {| trade_date := date; trade_action := SELL; trade_price := Fin p;
                trade_quantity := h;
                trade_value := Fin (inject_Z h * p * (1 - c));
                trade_commission := Fin (inject_Z h * p * (1 - c) * c);
                trade_pnl := None |} ])
    (d + inject_Z h * p * (1 - c)) 0.
Proof.
  induction 1 as [d h|d date' p' q' ts d' h' Hq' _ IH|d h date' p' ts d' h' Hh _ IH];
    intros Hpos; simpl.
  - apply ledger_sell; [done|]. apply ledger_nil.
  - apply ledger_buy; [done|]. by apply IH.
  - apply ledger_sell; [done|]. by apply IH.
Qed.

Lemma loop_body_books self st (bar : Timestamp * gmap string fval) st' :
  (∃ p, bar.2 !! "close"%string = Some (Fin p)) →
  books_balance self st →
  loop_body self st bar = Ok st' →
  books_balance self st' ∧ is_Some (current_portfolio_value st').
Proof.
  intros [p Hp] (qc & d & Hcash & Hqc & Hled & _). destruct bar as [date row].
  simpl in Hp. unfold loop_body, row_getitem. rewrite Hp. simpl.
  unfold execute_signal. rewrite Hcash.
  destruct (feqb _ (of_Z 1) && _) eqn:Hbuy.
  - apply andb_true_iff in Hbuy as [_ Hh0]. apply bool_decide_eq_true in Hh0.
    simpl. destruct (Qeq_bool (p * (1 + commission self)) 0).
    { destruct (qc * 0.95 ?= 0)%Q; simpl; discriminate. }
    simpl. destruct (bool_decide (_ > 0)%Z) eqn:Hn; simpl.
    + apply bool_decide_eq_true in Hn. intros [= <-]. simpl.
      split; [|eauto]. rewrite Hh0 in *. simpl.
      eexists _, (d - _)%Q. split; [reflexivity|]. split; cycle 1.
      { split; [eapply ledger_snoc_buy; eauto | simpl; eauto]. }
      simpl. rewrite Z.add_0_l. lra.
    + intros [= <-]. simpl. split; [|eauto].
      exists qc, d. simpl. split; [done|]. split; [done|]. split; [done|].
      eexists; reflexivity.
  - destruct (feqb _ (of_Z (-1)) && _) eqn:Hsell; simpl.
    + apply andb_true_iff in Hsell as [_ Hh]. apply bool_decide_eq_true in Hh.
      intros [= <-]. simpl. split; [|eauto].
      eexists _, (d + _)%Q. split; [reflexivity|]. split; cycle 1.
      { split; [eapply ledger_snoc_sell; eauto | simpl; eauto]. }
      simpl. lra.
    + intros [= <-]. simpl. split; [|eauto].
      exists qc, d. simpl. split; [done|]. split; [done|]. split; [done|].
      eexists; reflexivity.
Qed.

Lemma foldlM_books self bars : ∀ st st',
  Forall (λ bar : Timestamp * gmap string fval,
            ∃ p, bar.2 !! "close"%string = Some (Fin p)) bars →
  books_balance self st →
  foldlM (loop_body self) st bars = Ok st' →
  books_balance self st'.
Proof.
  induction bars as [|bar bars IH]; intros st st' Hbars Hinv; simpl.
  - by intros [= <-].
  - inversion Hbars as [|? ? Hp Hrest]; subst.
    destruct (loop_body self st bar) as [st1|] eqn:Hstep; [|done]. simpl.
    apply IH; [done|]. by eapply loop_body_books.
Qed.

Lemma books_balance_init self : books_balance self (init_state self).
Proof.
  exists (initial_capital self), 0%Q. simpl.
  split; [done|]. split; [ring|]. split; [constructor|done].
Qed.

Lemma calculate_pnl_pair l tb ts :
  calculate_pnl l = [tb; ts] →
  ∃ ts0, l = [tb; ts0] ∧
         trade_action ts = trade_action ts0 ∧
         trade_price ts = trade_price ts0 ∧
         trade_quantity ts = trade_quantity ts0 ∧
         trade_commission ts = trade_commission ts0.
Proof.
  destruct l as [|a [|b [|c l]]]; simpl; try discriminate.
  intros [= <- <-]. exists b. split; [done|].
  destruct (bool_decide _ && bool_decide _); done.
Qed.

(** In exact arithmetic the loss of a round trip at one price is the sum of
    the two recorded commissions, and both are [2 * q * p * commission]. *)
Lemma round_trip_loss_in_exact_arithmetic {S : Type} `{BaseStrategy S}
    (self : BacktestEngine) (data : DataFrame) (strategy : S)
    (signal_data : DataFrame) (res : BacktestResult) (tb ts : Trade) (p : Q) :
  generate_signals strategy data = Ok signal_data →
  Forall (λ bar : Timestamp * gmap string fval,
            ∃ p, bar.2 !! "close"%string = Some (Fin p))
         (iterrows signal_data) →
  run_backtest self data strategy = Ok res →
  res_trades res = [tb; ts] →
  trade_price tb = Fin p →
  same (trade_price ts) (Fin p) →
  trade_action tb = BUY ∧ trade_action ts = SELL ∧
  trade_quantity ts = trade_quantity tb ∧
  same (fsub (Fin (initial_capital self)) (final_portfolio_value res))
       (fadd (trade_commission tb) (trade_commission ts)) ∧
  same (fadd (trade_commission tb) (trade_commission ts))
       (Fin (2 * inject_Z (trade_quantity tb) * p * commission self)).
Proof.
  intros Hgen Hbars Hrun Htrades Hpb Hps.
  unfold run_backtest in Hrun. rewrite Hgen in Hrun. simpl in Hrun.
  unfold simulate in Hrun.
  destruct (foldlM _ _ _) as [st|] eqn:Hloop; [|done]. simpl in Hrun.
  destruct (set_index_date _) as [ec|]; [|done]. simpl in Hrun.
  destruct (current_portfolio_value st) as [v|] eqn:Hv; [|done].
  injection Hrun as <-. simpl in *.
  apply calculate_pnl_pair in Htrades as (ts0 & Hst & Ha & Hpr & Hq & Hcm).
  pose proof (foldlM_books self _ _ _ Hbars (books_balance_init self) Hloop)
    as (qc & d & Hcash & Hqc & Hled & Hcur).
  rewrite Hv in Hcur. destruct Hcur as [plast ->].
  rewrite Hst in Hled. rewrite Ha, Hq, Hcm. rewrite Hpr in Hps. clear Ha Hq Hcm Hpr.
  inversion Hled as [|? ? pb q ? ? ? Hqpos Hled1|? ? ? ? ? ? ? Hneg]; subst;
    [|lia].
  simpl in Hpb. injection Hpb as ->.
  inversion Hled1 as [| |? ? ? ps ? ? ? _ Hled2]; subst; [lia|].
  inversion Hled2; subst. simpl in *.
  repeat split; try lra.
  - rewrite Hqc, Hps. ring.
  - rewrite Hps. ring.
Qed.

(** C4 (amended): when the trade log of a run over bars with finite closes
    is one trade followed by another at the same price [p], the first is a
    BUY of some quantity [q] and the second a SELL of the same [q]; the BUY
    is booked at a value of [q * p * (1 + commission)] and the SELL at
    [q * p * (1 - commission)], each with its value times the commission
    rate as recorded commission; the final portfolio value is the initial
    capital minus the value of the BUY plus the value of the SELL, and the
    PnL recorded for the SELL is 0. *)
Theorem round_trip_costs_two_commissions {S : Type} `{BaseStrategy S}
    (self : BacktestEngine) (data : DataFrame) (strategy : S)
    (signal_data : DataFrame) (res : BacktestResult) (tb ts : Trade) (p : Q) :
  generate_signals strategy data = Ok signal_data →
  Forall (λ bar : Timestamp * gmap string fval,
            ∃ p, bar.2 !! "close"%string = Some (Fin p))
         (iterrows signal_data) →
  run_backtest self data strategy = Ok res →
  res_trades res = [tb; ts] →
  trade_price tb = Fin p →
  same (trade_price ts) (Fin p) →
  trade_action tb = BUY ∧ trade_action ts = SELL ∧
  trade_quantity ts = trade_quantity tb ∧
  trade_value tb
  = fmul (fmul (of_Z (trade_quantity tb)) (Fin p))
         (Fin (1 + commission self)) ∧
  same (trade_value ts)
       (fmul (fmul (of_Z (trade_quantity tb)) (Fin p))
             (Fin (1 - commission self))) ∧
  trade_commission tb = fmul (trade_value tb) (Fin (commission self)) ∧
  trade_commission ts = fmul (trade_value ts) (Fin (commission self)) ∧
  same (final_portfolio_value res)
       (fadd (fsub (Fin (initial_capital self)) (trade_value tb))
             (trade_value ts)) ∧
  ∃ pnl, trade_pnl ts = Some pnl ∧ same pnl (Fin 0).
Proof.
  intros Hgen Hbars Hrun Htrades Hpb Hps.
  unfold run_backtest in Hrun. rewrite Hgen in Hrun. simpl in Hrun.
  unfold simulate in Hrun.
  destruct (foldlM _ _ _) as [st|] eqn:Hloop; [|done]. simpl in Hrun.
  destruct (set_index_date _) as [ec|]; [|done]. simpl in Hrun.
  destruct (current_portfolio_value st) as [v|] eqn:Hv; [|done].
  injection Hrun as <-. simpl in *.
  pose proof Htrades as Hpair.
  apply calculate_pnl_pair in Hpair as (ts0 & Hst & _).
  pose proof (foldlM_books self _ _ _ Hbars (books_balance_init self) Hloop)
    as (qc & d & Hcash & Hqc & Hled & Hcur).
  rewrite Hv in Hcur. destruct Hcur as [plast ->].
  rewrite Hst in Hled, Htrades.
  inversion Hled as [|? ? pb q ? ? ? Hqpos Hled1|? ? ? ? ? ? ? Hneg]; subst;
    [|lia].
  inversion Hled1 as [| |? ? ? ps ? ? ? _ Hled2]; subst; [lia|].
  inversion Hled2; subst.
  cbn in Htrades. rewrite !bool_decide_eq_true_2 in Htrades by done.
  cbn in Htrades. injection Htrades as <-. cbn in *.
  injection Hpb as ->.
  change (inject_Z 0) with 0%Q.
  repeat split; try done.
  - rewrite Hps. ring.
  - rewrite Hqc. ring.
  - eexists. split; [reflexivity|]. simpl. rewrite Hps. ring.
Qed.

Lemma round_trip_costs_two_commissions_witness :
  ∃ res tb ts,
    run_backtest (engine 10000 0.001)
      (annotated [bar 1 100 0; bar 2 50 1; bar 3 50 (-1); bar 4 60 0])
      precomputed = Ok res ∧
    res_trades res = [tb; ts] ∧
    trade_quantity tb = 189%Z ∧
    (trade_action tb = BUY ∧ trade_action ts = SELL ∧
     trade_quantity ts = trade_quantity tb ∧
     trade_value tb
     = fmul (fmul (of_Z (trade_quantity tb)) (Fin 50)) (Fin (1 + 0.001)) ∧
     same (trade_value ts)
          (fmul (fmul (of_Z (trade_quantity tb)) (Fin 50)) (Fin (1 - 0.001))) ∧
     trade_commission tb = fmul (trade_value tb) (Fin 0.001) ∧
     trade_commission ts = fmul (trade_value ts) (Fin 0.001) ∧
     same (final_portfolio_value res)
          (fadd (fsub (Fin 10000) (trade_value tb)) (trade_value ts)) ∧
     ∃ pnl, trade_pnl ts = Some pnl ∧ same pnl (Fin 0)).
Proof.
  eexists _, _, _. split; [vm_compute; reflexivity|].
  split; [reflexivity|]. split; [reflexivity|].
  apply (round_trip_costs_two_commissions (engine 10000 0.001)
           (annotated [bar 1 100 0; bar 2 50 1; bar 3 50 (-1); bar 4 60 0])
           precomputed
           (annotated [bar 1 100 0; bar 2 50 1; bar 3 50 (-1); bar 4 60 0])).
  - reflexivity.
  - repeat constructor; simpl; eauto.
  - vm_compute. reflexivity.
  - reflexivity.
  - reflexivity.
  - simpl. reflexivity.
Defined.

(** C4, as stated, fails in the engine's own arithmetic: on the same four
    bars (a BUY of 189 shares at 50, then a SELL at 50, commission 0.001)
    the binary64 run loses 18.899999999999636, records commissions that add
    up to 18.9, and [2 * q * p * commission] is 18.900000000000002: three
    different numbers. The final value is still the initial capital minus
    the value of the BUY plus the value of the SELL. *)
Lemma round_trip_loss_is_not_exact_in_binary64 :
  ∃ st tb ts final,
    simulate64 (engine 10000 0.001)
      (iterrows (annotated [bar 1 100 0; bar 2 50 1; bar 3 50 (-1); bar 4 60 0]))
    = Ok st ∧
    trades64 st = [tb; ts] ∧ value64 st = Some final ∧
    t64_action tb = BUY ∧ t64_action ts = SELL ∧
    t64_quantity tb = 189%Z ∧ t64_quantity ts = 189%Z ∧
    t64_price tb = Z2b64 50 ∧ t64_price ts = Z2b64 50 ∧
    PrimFloat.eqb final
      (PrimFloat.add (PrimFloat.sub (Q2b64 10000) (t64_value tb))
                     (t64_value ts)) = true ∧
    let loss := PrimFloat.sub (Q2b64 10000) final in
    let charges := PrimFloat.add (t64_commission tb) (t64_commission ts) in
    let two_q_p_c :=
      PrimFloat.mul (PrimFloat.mul (PrimFloat.mul (Z2b64 2) (Z2b64 189))
                       (Z2b64 50))
                    (Q2b64 0.001) in
    PrimFloat.eqb loss charges = false ∧
    PrimFloat.eqb charges two_q_p_c = false ∧
    PrimFloat.eqb loss two_q_p_c = false ∧
    PrimFloat.ltb loss charges = true ∧
    PrimFloat.ltb charges two_q_p_c = true.
Proof.
  eexists _, _, _, _. split; [vm_compute; reflexivity|].
  repeat split; vm_compute; reflexivity.
Qed.

(** ** Stop-loss and take-profit checks *)

Lemma py_div_pos (a b : Q) : (0 < b)%Q → py_div a b = Ok (a / b)%Q.
Proof. intros Hb. unfold py_div. by rewrite Qeq_bool_false_pos. Qed.

(** C8: for a positive entry price and any position type other than the
    string ["long"], [check_stop_loss] does not raise and tells whether
    (current - entry) / entry has reached [stop_loss_pct]; this is the test
    the ["long"] branch makes with the two prices swapped in the numerator.
    [check_take_profit] likewise uses (entry - current) / entry. *)
Theorem non_long_position_is_short (self : BacktestEngine)
    (entry_price current_price : Q) (position_type : string) :
  (0 < entry_price)%Q →
  position_type ≠ "long"%string →
  (∃ b, check_stop_loss self entry_price current_price position_type = Ok b ∧
        (b = true ↔
         (stop_loss_pct self <= (current_price - entry_price) / entry_price)%Q)) ∧
  (∃ b, check_stop_loss self entry_price current_price "long" = Ok b ∧
        (b = true ↔
         (stop_loss_pct self <= (entry_price - current_price) / entry_price)%Q)) ∧
  (∃ b, check_take_profit self entry_price current_price position_type = Ok b ∧
        (b = true ↔
         (take_profit_pct self <= (entry_price - current_price) / entry_price)%Q)).
Proof.
  intros Hpos Hne. unfold check_stop_loss, check_take_profit.
  rewrite (bool_decide_eq_false_2 _ Hne), !py_div_pos by done. simpl.
  repeat split; eexists; (split; [reflexivity | apply Qle_bool_iff]).
Qed.

Lemma non_long_position_is_short_witness :
  (∃ b, check_stop_loss (engine 10000 0.001) 100 106 "LONG" = Ok b ∧
        (b = true ↔ (0.05 <= (106 - 100) / 100)%Q)) ∧
  (∃ b, check_stop_loss (engine 10000 0.001) 100 106 "long" = Ok b ∧
        (b = true ↔ (0.05 <= (100 - 106) / 100)%Q)) ∧
  (∃ b, check_take_profit (engine 10000 0.001) 100 106 "LONG" = Ok b ∧
        (b = true ↔ (0.15 <= (100 - 106) / 100)%Q)).
Proof.
  apply (non_long_position_is_short (engine 10000 0.001) 100 106 "LONG").
  - reflexivity.
  - discriminate.
Defined.

(** ** Column check of [prepare_data] *)

Lemma lowercase_columns_lack_Open (cols : list string) :
  Forall (λ c, lower c = c) cols → "Open"%string ∉ cols.
Proof.
  intros Hall Hin. rewrite Forall_forall in Hall.
  specialize (Hall _ Hin). discriminate.
Qed.

(** C10: on a frame whose column labels are all lowercase, [prepare_data]
    raises ValueError for the missing column ['Open']; it returns a frame
    exactly when the five capitalized labels are among the columns. *)
Theorem prepare_data_needs_capitalized_columns (data : DataFrame) :
  (Forall (λ c, lower c = c) (columns data) →
   Forall (λ c, c ∈ columns data)
          ["open"; "high"; "low"; "close"; "volume"]%string →
   prepare_data data = Raise (ValueError "Missing required column: Open")) ∧
  ((∃ out, prepare_data data = Ok out) ↔
   Forall (λ c, c ∈ columns data) ["Open"; "High"; "Low"; "Close"; "Volume"]%string).
Proof.
  split.
  - intros Hlow _. apply lowercase_columns_lack_Open in Hlow.
    unfold prepare_data. simpl. by rewrite (bool_decide_eq_false_2 _ Hlow).
  - unfold prepare_data. simpl. split.
    + intros [out Hout]. repeat case_bool_decide; try discriminate.
      repeat constructor; done.
    + intros Hall. repeat (apply Forall_cons in Hall as [? Hall]).
      repeat (rewrite bool_decide_eq_true_2 by done; simpl). eauto.
Qed.

Lemma prepare_data_needs_capitalized_columns_witness :
  prepare_data
    {| columns := ["open"; "high"; "low"; "close"; "volume"]%string;
       rows := [(jan 1, {[ "open"%string := Fin 1; "high"%string := Fin 2;
                          "low"%string := Fin 1; "close"%string := Fin 2;
                          "volume"%string := Fin 10 ]})] |}
  = Raise (ValueError "Missing required column: Open").
Proof.
  apply (proj1 (prepare_data_needs_capitalized_columns _)).
  - repeat constructor.
  - simpl. repeat constructor; set_solver.
Defined.

(** ** Monthly returns *)

Lemma elem_of_unique (l : list (Z * Z)) (m : Z * Z) : m ∈ unique l ↔ m ∈ l.
Proof.
  induction l as [|x l IH]; simpl; [done|].
  rewrite !elem_of_cons, list_elem_of_filter, IH.
  destruct (decide (m = x)); tauto.
Qed.

Lemma foldl_ext_all {A B : Type} (f g : B → A → B) (l : list A) :
  (∀ b a, f b a = g b a) → ∀ b, foldl f b l = foldl g b l.
Proof.
  intros Hfg. induction l as [|a l IH]; intros b; simpl; [done|].
  by rewrite Hfg, IH.
Qed.

Lemma foldl_insert_lookup {V : Type} (g : Z * Z → option V)
    (keys : list (Z * Z)) : ∀ (acc : gmap (Z * Z) V) (m : Z * Z),
  foldl (λ acc k, match g k with Some v => <[k := v]> acc | None => acc end)
        acc keys !! m
  = match (if decide (m ∈ keys) then g m else None) with
    | Some v => Some v
    | None => acc !! m
    end.
Proof.
  induction keys as [|k keys IH]; intros acc m; simpl.
  - destruct (decide (m ∈ [])) as [Hin|]; [by apply elem_of_nil in Hin|done].
  - rewrite IH.
    destruct (decide (m ∈ keys)) as [Hin|Hnin].
    + rewrite decide_True by (by right).
      destruct (g m) as [v|] eqn:Hg; [done|].
      destruct (decide (k = m)) as [->|Hne]; [by rewrite Hg|].
      destruct (g k); [by rewrite lookup_insert_ne|done].
    + destruct (decide (k = m)) as [->|Hne].
      * rewrite decide_True by (by left).
        destruct (g m); [by rewrite lookup_insert_eq|done].
      * rewrite decide_False by (by intros [->|?]%elem_of_cons).
        destruct (g k); [by rewrite lookup_insert_ne|done].
Qed.

(** C7: the entry of [calculate_monthly_returns] for a calendar month is
    ((last - first) / first) * 100 over the portfolio values of the month's
    first and last snapshots when the month has at least two snapshots, and
    there is no entry for a month with fewer than two. *)
Theorem monthly_returns_first_to_last (self : BacktestResult) (m : Z * Z) :
  calculate_monthly_returns self !! m
  = match filter (λ s, to_period_M (snap_date s) = m) (res_equity_curve self) with
    | first :: rest =>
        match last rest with
        | Some final =>
            Some (fmul (fdiv (fsub (snap_portfolio_value final)
                                   (snap_portfolio_value first))
                             (snap_portfolio_value first))
                       (of_Z 100))
        | None => None
        end
    | [] => None
    end.
Proof.
  unfold calculate_monthly_returns.
  set (ec := res_equity_curve self).
  set (g := λ month : Z * Z,
         let month_data := filter (λ s, to_period_M (snap_date s) = month) ec in
         if bool_decide (1 < length month_data)
         then monthly_return_of month_data else None).
  transitivity
    (foldl (λ acc k, match g k with Some v => <[k := v]> acc | None => acc end)
           (∅ : gmap (Z * Z) fval)
           (unique (map (λ s, to_period_M (snap_date s)) ec)) !! m).
  { f_equal. apply foldl_ext_all. intros acc k. unfold g. simpl.
    by destruct (bool_decide _). }
  rewrite foldl_insert_lookup, lookup_empty.
  assert (Hg : g m = match filter (λ s, to_period_M (snap_date s) = m) ec with
                     | first :: rest =>
                         match last rest with
                         | Some final =>
                             Some (fmul (fdiv (fsub (snap_portfolio_value final)
                                                    (snap_portfolio_value first))
                                              (snap_portfolio_value first))
                                        (of_Z 100))
                         | None => None
                         end
                     | [] => None
                     end).
  { unfold g. simpl. by destruct (filter _ ec) as [|first [|second rest]]. }
  destruct (decide (m ∈ unique _)) as [Hin|Hnin].
  - rewrite Hg. by destruct (filter _ ec) as [|? ?]; [|destruct (last _)].
  - rewrite elem_of_unique in Hnin.
    destruct (filter _ ec) as [|first rest] eqn:Hf; [done|].
    exfalso. apply Hnin.
    assert (Hin : first ∈ filter (λ s, to_period_M (snap_date s) = m) ec)
      by (rewrite Hf; left).
    apply list_elem_of_filter in Hin as [<- Hin].
    by apply (list_elem_of_fmap_2 (λ s, to_period_M (snap_date s))).
Qed.

(** January has two snapshots, 10000 then 11000: 10 percent. February has
    one snapshot: no entry. *)
Example monthly_returns_two_months :
  let result := curve [snapshot 2024 1 2 10000; snapshot 2024 1 31 11000;
                       snapshot 2024 2 1 9900] in
  (sameb (Fin 10) <$> calculate_monthly_returns result !! (2024, 1)%Z) = Some true ∧
  calculate_monthly_returns result !! (2024, 2)%Z = None.
Proof. split; vm_compute; reflexivity. Qed.

(** ** Degenerate statistics *)

Lemma fdiv_nan_r x : fdiv x NaN = NaN.
Proof. by destruct x. Qed.

Lemma fmul_nan_l x : fmul NaN x = NaN.
Proof. by destruct x. Qed.

Lemma std_single sqrtQ r : std sqrtQ [r] = NaN.
Proof. reflexivity. Qed.

Lemma sharpe_single_observation sqrtQ (self : BacktestResult) rf r :
  dropna_series (returns_of self) = [r] →
  calculate_sharpe_ratio sqrtQ self rf = NaN.
Proof.
  intros Hr. unfold calculate_sharpe_ratio. rewrite Hr, std_single. simpl.
  by rewrite fdiv_nan_r, fmul_nan_l.
Qed.

Lemma sortino_single_negative sqrtQ (self : BacktestResult) rf r :
  List.filter (λ x, fltb x (of_Z 0)) (dropna_series (returns_of self)) = [r] →
  calculate_sortino_ratio sqrtQ self rf = NaN.
Proof.
  intros Hr. unfold calculate_sortino_ratio.
  destruct (dropna_series (returns_of self)) as [|x l] eqn:Hl; [done|].
  rewrite Hr, std_single, fmul_nan_l. simpl. apply fdiv_nan_r.
Qed.

(** C3 fails on the code: after a one-bar backtest the return series has a
    single observation, its sample standard deviation is NaN, the guard
    [returns.std() == 0] does not catch it and the Sharpe ratio is NaN;
    after a backtest whose only negative return is the BUY bar's, the
    Sortino ratio is NaN in the same way. *)
Theorem sharpe_and_sortino_return_nan :
  (∃ res,
     run_backtest (engine 10000 0.001) (annotated [bar 1 100 0]) precomputed
     = Ok res ∧
     length (dropna_series (returns_of res)) = 1%nat ∧
     ∀ sqrtQ rf, calculate_sharpe_ratio sqrtQ res rf = NaN) ∧
  (∃ res,
     run_backtest (engine 10000 0.001)
       (annotated [bar 1 100 1; bar 2 100 0; bar 3 100 0]) precomputed
     = Ok res ∧
     length (List.filter (λ x, fltb x (of_Z 0))
               (dropna_series (returns_of res))) = 1%nat ∧
     ∀ sqrtQ rf, calculate_sortino_ratio sqrtQ res rf = NaN).
Proof.
  split.
  - eexists. split; [vm_compute; reflexivity|]. split; [reflexivity|].
    intros sqrtQ rf. eapply sharpe_single_observation. reflexivity.
  - eexists. split; [vm_compute; reflexivity|]. split; [reflexivity|].
    intros sqrtQ rf. eapply sortino_single_negative. reflexivity.
Qed.

(** ** Frames: columns and rows after an assignment *)

#[local] Arguments fltb : simpl never.
#[local] Arguments fleb : simpl never.
#[local] Arguments fgtb : simpl never.
#[local] Arguments fgeb : simpl never.

Lemma length_column df k : length (column df k) = length (rows df).
Proof. unfold column. by rewrite length_map. Qed.

Lemma length_rolling w agg s : length (rolling w agg s) = length s.
Proof. unfold rolling. by rewrite length_imap. Qed.

Lemma length_shift1 s : length (shift1 s) = length s.
Proof.
  destruct s as [|x s]; [done|]. unfold shift1. simpl length.
  rewrite length_take. simpl. lia.
Qed.

Lemma length_ewm_from alpha s : ∀ weighted old_wt,
  length (ewm_from alpha weighted old_wt s) = length s.
Proof.
  induction s as [|x s IH]; intros w o; [done|]. cbn [ewm_from].
  destruct (if negb (is_nan w) then _ else _) as [w' o']. simpl.
  by rewrite IH.
Qed.

Lemma length_ewm span s : length (ewm span s) = length s.
Proof. destruct s; [done|]. simpl. by rewrite length_ewm_from. Qed.

Lemma length_rows_setitem df k s :
  length (rows (df_setitem df k s)) = min (length (rows df)) (length s).
Proof. simpl. by rewrite length_zip_with. Qed.

Lemma length_rows_setitem_scalar df k v :
  length (rows (df_setitem_scalar df k v)) = length (rows df).
Proof. simpl. by rewrite length_map. Qed.

Lemma length_rows_loc_set df mask k v :
  length (rows (df_loc_set df mask k v)) = min (length (rows df)) (length mask).
Proof. simpl. by rewrite length_zip_with. Qed.

Lemma lookup_shift1 (s : Series) (i : nat) :
  i < length s →
  shift1 s !! i = Some (before s i).
Proof.
  intros Hi. destruct s as [|x s]; [simpl in Hi; lia|].
  unfold shift1, before. destruct i as [|j]; [done|].
  change ((NaN :: take (length (x :: s) - 1) (x :: s)) !! S j)
    with (take (length (x :: s) - 1) (x :: s) !! j).
  simpl in Hi. rewrite lookup_take_lt by (simpl; lia).
  destruct (lookup_lt_is_Some_2 (x :: s) j ltac:(simpl; lia)) as [y ->]. done.
Qed.

Lemma lookup_rolling w agg s i :
  i < length s → rolling w agg s !! i = Some (rolling_at w agg s i).
Proof.
  intros Hi. unfold rolling. rewrite list_lookup_imap.
  destruct (lookup_lt_is_Some_2 s i Hi) as [x ->]. done.
Qed.


(** ** RSI, bar by bar *)

Lemma lookup_diff (prices : Series) (j : nat) :
  j < length prices →
  diff prices !! j
  = Some (fsub (default NaN (prices !! j)) (before prices j)).
Proof.
  intros Hj. unfold diff, series_sub.
  rewrite lookup_zip_with, lookup_shift1 by done.
  destruct (lookup_lt_is_Some_2 prices j Hj) as [p ->]. done.
Qed.

Lemma gains_as_up_moves (prices : Series) :
  where_ (diff prices) (map (λ d, fgtb d (of_Z 0)) (diff prices)) (of_Z 0)
  = map (up_move prices) (seq 0 (length prices)).
Proof.
  apply list_eq. intros j. unfold where_.
  rewrite lookup_zip_with, !list_lookup_fmap.
  destruct (decide (j < length prices)) as [Hj|Hj].
  - rewrite lookup_diff, lookup_seq_lt by done. done.
  - rewrite (proj2 (lookup_ge_None (diff prices) j)),
      (proj2 (lookup_ge_None (seq 0 (length prices)) j)); [done| |].
    + rewrite length_seq. lia.
    + unfold diff, series_sub. rewrite length_zip_with, length_shift1. lia.
Qed.

Lemma losses_as_down_moves (prices : Series) :
  series_neg
    (where_ (diff prices) (map (λ d, fltb d (of_Z 0)) (diff prices)) (of_Z 0))
  = map (down_move prices) (seq 0 (length prices)).
Proof.
  apply list_eq. intros j. unfold series_neg, where_.
  rewrite !list_lookup_fmap, lookup_zip_with, !list_lookup_fmap.
  destruct (decide (j < length prices)) as [Hj|Hj].
  - rewrite lookup_diff, lookup_seq_lt by done. done.
  - rewrite (proj2 (lookup_ge_None (diff prices) j)),
      (proj2 (lookup_ge_None (seq 0 (length prices)) j)); [done| |].
    + rewrite length_seq. lia.
    + unfold diff, series_sub. rewrite length_zip_with, length_shift1. lia.
Qed.

Lemma window_map_seq (f : nat → fval) (n w i : nat) :
  w ≤ i + 1 → i < n →
  window w i (map f (seq 0 n)) = map f (seq (i + 1 - w) w).
Proof.
  intros Hw Hi. unfold window.
  rewrite <- !fmap_drop, <- !fmap_take. f_equal.
  apply list_eq. intros j.
  destruct (decide (j < w)) as [Hj|Hj].
  - rewrite lookup_take_lt, lookup_drop, !lookup_seq_lt by lia. done.
  - rewrite (proj2 (lookup_ge_None (take _ _) j)),
      (proj2 (lookup_ge_None (seq _ _) j)); [done| |].
    + rewrite length_seq. lia.
    + rewrite length_take. lia.
Qed.

Lemma calculate_rsi_at (prices : Series) (period i : nat) :
  i < length prices →
  calculate_rsi prices period !! i = Some (rsi_at prices period i).
Proof.
  intros Hi. unfold calculate_rsi. cbv zeta.
  rewrite gains_as_up_moves, losses_as_down_moves.
  unfold series_div, rolling_mean.
  rewrite list_lookup_fmap, lookup_zip_with,
    !lookup_rolling by (rewrite length_map, length_seq; lia).
  simpl. unfold rsi_at, rolling_at.
  case_bool_decide as Hw; [|done].
  by rewrite !window_map_seq by done.
Qed.

Lemma length_calculate_rsi (prices : Series) (period : nat) :
  length (calculate_rsi prices period) = length prices.
Proof.
  unfold calculate_rsi. cbv zeta. unfold series_div, rolling_mean.
  rewrite length_map, length_zip_with, !length_rolling.
  unfold series_neg, where_, diff, series_sub.
  rewrite ?length_map, ?length_zip_with, ?length_map, ?length_zip_with,
    ?length_shift1. lia.
Qed.

Ltac len :=
  unfold rolling_mean, rolling_std, diff, where_,
    series_add, series_sub, series_div, series_scale, series_neg;
  repeat first
    [ rewrite length_column | rewrite length_rolling | rewrite length_shift1
    | rewrite length_ewm | rewrite length_calculate_rsi
    | rewrite length_rows_setitem
    | rewrite length_rows_setitem_scalar | rewrite length_rows_loc_set
    | rewrite length_zip_with | rewrite length_map | rewrite length_imap ];
  lia.

Lemma df_getitem_in df k : k ∈ columns df → df_getitem df k = Ok (column df k).
Proof. intros Hin. unfold df_getitem. by rewrite bool_decide_eq_true_2. Qed.

Lemma columns_setitem df k k' s :
  k' = k ∨ k' ∈ columns df → k' ∈ columns (df_setitem df k s).
Proof.
  simpl. case_bool_decide as Hin; intros [->|Hk]; try done.
  - apply elem_of_app. right. by left.
  - apply elem_of_app. by left.
Qed.

Lemma columns_setitem_scalar df k k' v :
  k' = k ∨ k' ∈ columns df → k' ∈ columns (df_setitem_scalar df k v).
Proof.
  simpl. case_bool_decide as Hin; intros [->|Hk]; try done.
  - apply elem_of_app. right. by left.
  - apply elem_of_app. by left.
Qed.

Lemma column_setitem_eq df k s :
  length s = length (rows df) → column (df_setitem df k s) k = s.
Proof.
  intros Hlen. apply list_eq. intros i. unfold column. simpl.
  rewrite list_lookup_fmap, lookup_zip_with.
  destruct (rows df !! i) as [r|] eqn:Hr; simpl.
  - destruct (s !! i) as [v|] eqn:Hs; simpl.
    + by rewrite lookup_insert_eq.
    + apply lookup_lt_Some in Hr. apply lookup_ge_None in Hs. lia.
  - symmetry. apply lookup_ge_None. apply lookup_ge_None in Hr. lia.
Qed.

Lemma column_setitem_ne df k k' s :
  k ≠ k' → length s = length (rows df) →
  column (df_setitem df k s) k' = column df k'.
Proof.
  intros Hne Hlen. apply list_eq. intros i. unfold column. simpl.
  rewrite !list_lookup_fmap, lookup_zip_with.
  destruct (rows df !! i) as [r|] eqn:Hr; simpl; [|done].
  destruct (s !! i) as [v|] eqn:Hs; simpl.
  - by rewrite lookup_insert_ne.
  - apply lookup_lt_Some in Hr. apply lookup_ge_None in Hs. lia.
Qed.

Lemma column_setitem_scalar_ne df k k' v :
  k ≠ k' → column (df_setitem_scalar df k v) k' = column df k'.
Proof.
  intros Hne. unfold column. simpl. rewrite map_map. apply map_ext.
  intros r. simpl. by rewrite lookup_insert_ne.
Qed.

Lemma column_loc_set_ne df mask k k' v :
  k ≠ k' → length mask = length (rows df) →
  column (df_loc_set df mask k v) k' = column df k'.
Proof.
  intros Hne Hlen. apply list_eq. intros i. unfold column. simpl.
  rewrite !list_lookup_fmap, lookup_zip_with.
  destruct (rows df !! i) as [r|] eqn:Hr; simpl; [|done].
  destruct (mask !! i) as [[|]|] eqn:Hm; simpl.
  - by rewrite lookup_insert_ne.
  - done.
  - apply lookup_lt_Some in Hr. apply lookup_ge_None in Hm. lia.
Qed.

Lemma rows_setitem df k s :
  length s = length (rows df) →
  rows (df_setitem df k s)
  = imap (λ i r, (r.1, <[k := default NaN (s !! i)]> r.2)) (rows df).
Proof.
  intros Hlen. apply list_eq. intros i. simpl.
  rewrite lookup_zip_with, list_lookup_imap.
  destruct (rows df !! i) as [r|] eqn:Hr; simpl; [|done].
  destruct (s !! i) as [v|] eqn:Hs; simpl; [done|].
  apply lookup_lt_Some in Hr. apply lookup_ge_None in Hs. lia.
Qed.

Lemma rows_loc_set df mask k v :
  length mask = length (rows df) →
  rows (df_loc_set df mask k v)
  = imap (λ i r, if default false (mask !! i) then (r.1, <[k := v]> r.2) else r)
         (rows df).
Proof.
  intros Hlen. apply list_eq. intros i. simpl.
  rewrite lookup_zip_with, list_lookup_imap.
  destruct (rows df !! i) as [r|] eqn:Hr; simpl; [|done].
  destruct (mask !! i) as [m|] eqn:Hm; simpl; [done|].
  apply lookup_lt_Some in Hr. apply lookup_ge_None in Hm. lia.
Qed.

Lemma imap_imap {A B C : Type} (f : nat → B → C) (g : nat → A → B) (l : list A) :
  imap f (imap g l) = imap (λ i x, f i (g i x)) l.
Proof.
  apply list_eq. intros i. rewrite !list_lookup_imap.
  by destruct (l !! i).
Qed.

Lemma imap_map {A B C : Type} (f : nat → B → C) (g : A → B) (l : list A) :
  imap f (map g l) = imap (λ i x, f i (g x)) l.
Proof.
  apply list_eq. intros i. rewrite !list_lookup_imap, list_lookup_fmap.
  by destruct (l !! i).
Qed.

Lemma imap_ext_lookup {A B : Type} (f g : nat → A → B) (l : list A) :
  (∀ i x, l !! i = Some x → f i x = g i x) → imap f l = imap g l.
Proof.
  intros Hfg. apply list_eq. intros i. rewrite !list_lookup_imap.
  destruct (l !! i) as [x|] eqn:Hx; simpl; [|done]. by rewrite (Hfg i x).
Qed.

Lemma lookup_column df k i r :
  rows df !! i = Some r → column df k !! i = Some (default NaN (r.2 !! k)).
Proof. intros Hr. unfold column. by rewrite list_lookup_fmap, Hr. Qed.

(** ** Row-wise form of the vectorised strategies *)

Lemma columns_loc_set df mask k k' v :
  k' ∈ columns df → k' ∈ columns (df_loc_set df mask k v).
Proof. done. Qed.

Lemma insert_signal_twice (m : gmap string fval) (a b : fval) :
  <["signal"%string := a]> (<["signal"%string := b]> m) = <["signal"%string := a]> m.
Proof. apply insert_insert_eq. Qed.

Ltac solve_in :=
  repeat first
    [ assumption
    | apply columns_loc_set
    | apply columns_setitem; first [left; reflexivity | right]
    | apply columns_setitem_scalar; first [left; reflexivity | right] ].

(** Replaces every column read by the series it yields. *)
Ltac read_columns :=
  repeat first
    [ rewrite df_getitem_in by solve_in; cbn [mbind result_bind]
    | rewrite column_loc_set_ne by (done || len)
    | rewrite column_setitem_scalar_ne by done
    | rewrite column_setitem_eq by len
    | rewrite column_setitem_ne by (done || len) ].

(** Replaces the rows of an updated frame by a map over the rows of the
    frame it was built from. *)
Ltac rows_as_imap :=
  repeat first
    [ rewrite rows_loc_set by len
    | rewrite rows_setitem by len
    | progress cbn [rows df_setitem_scalar] ];
  rewrite ?imap_imap, ?imap_map, ?imap_imap.

Lemma mac_generate_signals_rows (self : MovingAverageCrossover) (data : DataFrame) :
  "close"%string ∈ columns data →
  ∃ out,
    mac_generate_signals self data = Ok out ∧
    rows out = filter row_complete (imap (mac_bar self data) (rows data)).
Proof.
  intros Hclose. unfold mac_generate_signals. cbv zeta. read_columns.
  eexists. split; [reflexivity|]. unfold dropna. cbn [rows]. f_equal.
  rows_as_imap.
  apply imap_ext_lookup. intros i r Hr. unfold mac_bar. cbv beta zeta.
  assert (Hi : i < length (column data "close")).
  { rewrite length_column. by eapply lookup_lt_Some. }
  rewrite !lookup_zip_with.
  unfold rolling_mean. rewrite !lookup_rolling by done. simpl.
  destruct (fltb _ _), (fgtb _ _); simpl; by rewrite ?insert_signal_twice.
Qed.

(** Fast 2, slow 3 over closes 10, 10, 10, 12, 14, 16, 8, 8, 8: the first
    two bars are dropped, then HOLD, BUY on the three rising bars, SELL on
    the two bars after the fall, HOLD once both averages are 8. *)
Example crossover_scenario :
  (λ out, column out "signal") <$>
    match mac_generate_signals {| mac_fast_period := 2; mac_slow_period := 3 |}
            (closes [10; 10; 10; 12; 14; 16; 8; 8; 8]%Q) with
    | Ok out => Some out
    | Raise _ => None
    end
  = Some (of_Z <$> [0; 1; 1; 1; -1; -1; 0]%Z).
Proof. vm_compute. reflexivity. Qed.

Lemma bb_generate_signals_rows sqrtQ (self : BollingerBandStrategy)
    (data : DataFrame) :
  "close"%string ∈ columns data →
  ∃ out,
    bb_generate_signals sqrtQ self data = Ok out ∧
    rows out = filter row_complete (imap (bb_bar sqrtQ self data) (rows data)).
Proof.
  intros Hclose. unfold bb_generate_signals. cbv zeta. read_columns.
  eexists. split; [reflexivity|]. unfold dropna. cbn [rows]. f_equal.
  rows_as_imap.
  apply imap_ext_lookup. intros i r Hr. unfold bb_bar. cbv beta zeta.
  assert (Hi : i < length (column data "close")).
  { rewrite length_column. by eapply lookup_lt_Some. }
  unfold series_add, series_sub, series_scale.
  rewrite !lookup_zip_with, !list_lookup_fmap.
  unfold rolling_mean, rolling_std. rewrite !lookup_rolling by done.
  rewrite (lookup_column _ _ _ _ Hr). simpl.
  destruct (fgeb _ _), (fleb _ _); simpl; by rewrite ?insert_signal_twice.
Qed.

Lemma macd_generate_signals_rows (self : MACDStrategy) (data : DataFrame) :
  "close"%string ∈ columns data →
  1 ≤ macd_fast_period self → 1 ≤ macd_slow_period self →
  1 ≤ macd_signal_period self →
  ∃ out,
    macd_generate_signals self data = Ok out ∧
    rows out = imap (macd_bar self data) (rows data).
Proof.
  intros Hclose Hfast Hslow Hsignal.
  unfold macd_generate_signals, ewm_mean. cbv zeta.
  rewrite !bool_decide_eq_false_2 by lia. read_columns. cbn [mbind result_bind].
  eexists. split; [reflexivity|].
  set (close := column data "close").
  set (macd_line := series_sub _ _).
  set (signal_line := ewm _ macd_line).
  assert (Hlm : length macd_line = length (rows data))
    by (subst macd_line close; len).
  assert (Hls : length signal_line = length (rows data))
    by (subst signal_line; rewrite length_ewm; lia).
  rewrite rows_loc_set
    by (rewrite length_rows_loc_set, !length_rows_setitem_scalar,
          !length_rows_setitem, !length_zip_with, !length_shift1;
        unfold series_sub; rewrite ?length_zip_with; lia).
  rewrite rows_loc_set
    by (rewrite !length_rows_setitem_scalar,
          !length_rows_setitem, !length_zip_with, !length_shift1;
        unfold series_sub; rewrite ?length_zip_with; lia).
  cbn [rows df_setitem_scalar].
  rewrite !rows_setitem
    by (rewrite ?length_rows_setitem; unfold series_sub;
        rewrite ?length_zip_with; lia).
  rewrite ?imap_imap, ?imap_map, ?imap_imap.
  apply imap_ext_lookup. intros i r Hr. unfold macd_bar, before. cbv beta zeta.
  fold close macd_line signal_line.
  assert (Hi : i < length (rows data)) by (by eapply lookup_lt_Some).
  destruct (lookup_lt_is_Some_2 macd_line i ltac:(lia)) as [m Hm].
  destruct (lookup_lt_is_Some_2 signal_line i ltac:(lia)) as [s Hs].
  assert (Hh : series_sub macd_line signal_line !! i = Some (fsub m s))
    by (unfold series_sub; by rewrite lookup_zip_with, Hm, Hs).
  rewrite !lookup_zip_with, !lookup_shift1 by lia. rewrite Hm, Hs, Hh. simpl.
  destruct (fltb m s && _), (fgtb m s && _); simpl;
    by rewrite ?insert_signal_twice.
Qed.

Lemma macd_generate_signals_raises (self : MACDStrategy) (data : DataFrame) :
  "close"%string ∈ columns data →
  macd_fast_period self < 1 ∨ macd_slow_period self < 1
  ∨ macd_signal_period self < 1 →
  macd_generate_signals self data
  = Raise (ValueError "span must satisfy: span >= 1").
Proof.
  intros Hclose Hbad. unfold macd_generate_signals, ewm_mean. cbv zeta.
  rewrite !df_getitem_in by done. cbn [mbind result_bind].
  destruct (decide (macd_fast_period self < 1)) as [Hf|Hf].
  { by rewrite (bool_decide_eq_true_2 _ Hf). }
  rewrite (bool_decide_eq_false_2 _ Hf). cbn [mbind result_bind].
  destruct (decide (macd_slow_period self < 1)) as [Hs|Hs].
  { by rewrite (bool_decide_eq_true_2 _ Hs). }
  rewrite (bool_decide_eq_false_2 _ Hs). cbn [mbind result_bind].
  rewrite bool_decide_eq_true_2 by lia. done.
Qed.

Lemma rsi_generate_signals_rows (self : RSIMeanReversion) (data : DataFrame) :
  "close"%string ∈ columns data →
  ∃ out,
    rsi_generate_signals self data = Ok out ∧
    rows out = filter row_complete (imap (rsi_bar self data) (rows data)).
Proof.
  intros Hclose. unfold rsi_generate_signals. cbv zeta. read_columns.
  eexists. split; [reflexivity|]. unfold dropna. cbn [rows]. f_equal.
  rows_as_imap.
  apply imap_ext_lookup. intros i r Hr. unfold rsi_bar. cbv beta zeta.
  set (rsi := calculate_rsi (column data "close") (rsi_period self)).
  destruct (lookup_lt_is_Some_2 rsi i) as [x Hx].
  { subst rsi. rewrite length_calculate_rsi, length_column.
    by eapply lookup_lt_Some. }
  assert (x = rsi_at (column data "close") (rsi_period self) i) as <-.
  { subst rsi. rewrite calculate_rsi_at in Hx; [congruence|].
    rewrite length_column. by eapply lookup_lt_Some. }
  rewrite !list_lookup_fmap, Hx. simpl.
  destruct (fgtb x _), (fltb x _); simpl; by rewrite ?insert_signal_twice.
Qed.

(** ** The decision rules of the strategies *)

(** C5 (amended): on a frame with a ['close'] column the three strategies
    return, and bar by bar their output is: for the crossover, signal -1
    where the fast moving average is below the slow one, +1 where it is
    above, else 0; for the band breakout, -1 where close is at or above the
    upper band, else +1 where close is at or below the lower band, else 0
    (on a bar that touches both bands SELL wins); both then drop the bars
    with an undefined cell. For convergence/divergence, -1 where the MACD
    line is below the signal line and was at or above it one bar before, +1
    where it is above and was at or below one bar before, else 0; the first
    bar has no bar before it and gets 0. The convergence/divergence
    strategy returns when its three periods are at least 1; with a period
    below 1 it raises the ValueError of pandas' [ewm]. *)
Theorem signals_level_or_edge (sqrtQ : Q → Q) (mac : MovingAverageCrossover)
    (bb : BollingerBandStrategy) (macd : MACDStrategy) (data : DataFrame) :
  "close"%string ∈ columns data →
  (∃ out, mac_generate_signals mac data = Ok out ∧
          rows out = filter row_complete (imap (mac_bar mac data) (rows data))) ∧
  (∃ out, bb_generate_signals sqrtQ bb data = Ok out ∧
          rows out
          = filter row_complete (imap (bb_bar sqrtQ bb data) (rows data))) ∧
  (1 ≤ macd_fast_period macd → 1 ≤ macd_slow_period macd →
   1 ≤ macd_signal_period macd →
   ∃ out, macd_generate_signals macd data = Ok out ∧
          rows out = imap (macd_bar macd data) (rows data)) ∧
  (macd_fast_period macd < 1 ∨ macd_slow_period macd < 1
   ∨ macd_signal_period macd < 1 →
   macd_generate_signals macd data
   = Raise (ValueError "span must satisfy: span >= 1")).
Proof.
  intros Hclose. split; [|split; [|split]].
  - by apply mac_generate_signals_rows.
  - by apply bb_generate_signals_rows.
  - by apply macd_generate_signals_rows.
  - by apply macd_generate_signals_raises.
Qed.

Lemma signals_level_or_edge_witness :
  let data := closes [10; 10; 10; 12; 14; 16; 8; 8; 8]%Q in
  let mac := {| mac_fast_period := 2; mac_slow_period := 3 |} in
  let bb := {| bb_period := 2; bb_std_dev := 2 |} in
  let macd := {| macd_fast_period := 2; macd_slow_period := 3;
                 macd_signal_period := 2 |} in
  (∃ out, mac_generate_signals mac data = Ok out ∧
          rows out = filter row_complete (imap (mac_bar mac data) (rows data))) ∧
  (∃ out, bb_generate_signals sqrt_floor bb data = Ok out ∧
          rows out
          = filter row_complete (imap (bb_bar sqrt_floor bb data) (rows data))) ∧
  (∃ out, macd_generate_signals macd data = Ok out ∧
          rows out = imap (macd_bar macd data) (rows data)) ∧
  macd_generate_signals
    {| macd_fast_period := 0; macd_slow_period := 3; macd_signal_period := 2 |}
    data
  = Raise (ValueError "span must satisfy: span >= 1").
Proof.
  intros data mac bb macd.
  destruct (signals_level_or_edge sqrt_floor mac bb macd data)
    as (Hmac & Hbb & Hmacd & _); [simpl; left|].
  split; [exact Hmac|]. split; [exact Hbb|].
  split; [apply Hmacd; simpl; lia|].
  apply (signals_level_or_edge sqrt_floor mac bb
           {| macd_fast_period := 0; macd_slow_period := 3;
              macd_signal_period := 2 |} data); [simpl; left|].
  simpl. lia.
Defined.

(** C5, as stated, fails for the band breakout: over closes 10, 10 with
    period 2 both bands are 10 on the second bar, so close is at or below
    the lower band, and the signal is -1, not +1. *)
Lemma band_touching_both_sides_sells :
  ∃ out bar,
    bb_generate_signals sqrt_floor {| bb_period := 2; bb_std_dev := 2 |}
      (closes [10; 10]%Q) = Ok out ∧
    rows out = [bar] ∧
    cell_is bar.2 "close" (Fin 10) = true ∧
    cell_is bar.2 "lower_band" (Fin 10) = true ∧
    (c ← bar.2 !! "close"%string; l ← bar.2 !! "lower_band"%string;
     Some (fleb c l)) = Some true ∧
    cell_is bar.2 "signal" (of_Z (-1)) = true ∧
    cell_is bar.2 "signal" (of_Z 1) = false.
Proof.
  eexists _, _. split; [vm_compute; reflexivity|]. split; [reflexivity|].
  repeat split; vm_compute; reflexivity.
Qed.

(** C6 (amended): the RSI of a bar is 100 - 100 / (1 + RS) with RS the
    ratio of the plain mean of the last [period] gains to the plain mean of
    the last [period] losses (bar 0 counting as gain 0 and loss 0), and is
    undefined before bar [period - 1]; the strategy gives a bar -1 where
    this RSI is strictly above the overbought threshold, else +1 where it
    is strictly below the oversold threshold, else 0, and drops the bars
    with an undefined cell. *)
Theorem rsi_plain_means_and_thresholds (self : RSIMeanReversion)
    (data : DataFrame) :
  "close"%string ∈ columns data →
  (∀ i, i < length (rows data) →
        calculate_rsi (column data "close") (rsi_period self) !! i
        = Some (rsi_at (column data "close") (rsi_period self) i)) ∧
  (∃ out, rsi_generate_signals self data = Ok out ∧
          rows out = filter row_complete (imap (rsi_bar self data) (rows data))).
Proof.
  intros Hclose. split.
  - intros i Hi. apply calculate_rsi_at. by rewrite length_column.
  - by apply rsi_generate_signals_rows.
Qed.

Lemma rsi_plain_means_and_thresholds_witness :
  let data := closes [1; 2; 1; 2]%Q in
  let self := {| rsi_period := 2; rsi_oversold := 30; rsi_overbought := 70 |} in
  (∀ i, i < length (rows data) →
        calculate_rsi (column data "close") (rsi_period self) !! i
        = Some (rsi_at (column data "close") (rsi_period self) i)) ∧
  (∃ out, rsi_generate_signals self data = Ok out ∧
          rows out = filter row_complete (imap (rsi_bar self data) (rows data))).
Proof.
  intros data self. apply (rsi_plain_means_and_thresholds self data).
  simpl. left.
Defined.

(** C6, as stated, fails: over closes 1, 2, 1, 2 with period 2 the
    strategy's RSI on the fourth bar is 50 (mean gain 1/2, mean loss 1/2),
    while Wilder's smoothing gives mean gain 3/4, mean loss 1/4 and RSI 75. *)
Lemma rsi_is_not_wilder_smoothed :
  ∃ out bar v w,
    rsi_generate_signals
      {| rsi_period := 2; rsi_oversold := 30; rsi_overbought := 70 |}
      (closes [1; 2; 1; 2]%Q) = Ok out ∧
    rows out !! 2%nat = Some bar ∧ bar.1 = jan 4 ∧
    calculate_rsi [Fin 1; Fin 2; Fin 1; Fin 2] 2 !! 3%nat = Some v ∧
    cell_is bar.2 "rsi" v = true ∧
    sameb v (Fin 50) = true ∧
    wilder_rsi_spec [Fin 1; Fin 2; Fin 1; Fin 2] 2 !! 3%nat = Some w ∧
    sameb w (Fin 75) = true ∧
    sameb v w = false.
Proof.
  eexists _, _, _, _. split; [vm_compute; reflexivity|].
  split; [reflexivity|]. split; [reflexivity|].
  split; [vm_compute; reflexivity|].
  split; [vm_compute; reflexivity|]. split; [vm_compute; reflexivity|].
  split; [vm_compute; reflexivity|]. split; vm_compute; reflexivity.
Qed.

(** * Further properties of the engine *)

(** ** The equity curve *)

Lemma loop_body_snapshot self st (bar : Timestamp * gmap string fval) st1 :
  loop_body self st bar = Ok st1 →
  ∃ s,
    equity_curve st1 = equity_curve st ++ [s] ∧
    snap_date s = bar.1 ∧
    snap_returns s
    = fdiv (fsub (snap_portfolio_value s) (prev_portfolio_value st))
           (prev_portfolio_value st) ∧
    snap_portfolio_value s = fadd (snap_cash s) (snap_holdings_value s) ∧
    prev_portfolio_value st1 = snap_portfolio_value s ∧
    current_portfolio_value st1 = Some (snap_portfolio_value s) ∧
    cash st1 = snap_cash s.
Proof.
  destruct bar as [date row]. unfold loop_body.
  destruct (row_getitem row "close") as [price|]; [|done]. cbn [mbind result_bind].
  destruct (execute_signal self st date price _) as [[[c h] t]|]; [|done].
  cbn [mbind result_bind]. intros [= <-]. eexists. cbn. repeat split.
Qed.

Lemma foldlM_curve self bars : ∀ st st',
  foldlM (loop_body self) st bars = Ok st' →
  ∃ new,
    equity_curve st' = equity_curve st ++ new ∧
    map snap_date new = map fst bars ∧
    returns_chain (prev_portfolio_value st) new ∧
    Forall (λ s, snap_portfolio_value s
                 = fadd (snap_cash s) (snap_holdings_value s)) new ∧
    match last new with
    | Some s => current_portfolio_value st' = Some (snap_portfolio_value s) ∧
                cash st' = snap_cash s
    | None => st' = st
    end.
Proof.
  induction bars as [|bar bars IH]; intros st st'; simpl.
  - intros [= <-]. exists []. by rewrite app_nil_r.
  - destruct (loop_body self st bar) as [st1|] eqn:Hstep; [|done].
    cbn [mbind result_bind]. intros Hrun.
    apply loop_body_snapshot in Hstep
      as (s & He1 & Hd & Hr & Hpv & Hprev & Hcur & Hcash).
    destruct (IH _ _ Hrun) as (new & He & Hdates & Hchain & Hall & Hlast).
    exists (s :: new). rewrite He, He1, <- app_assoc. simpl.
    rewrite Hprev in Hchain. rewrite Hd, Hdates. repeat split; auto.
    destruct new as [|s' new]; [simpl in Hlast; subst st'; simpl; auto|].
    change (last (s :: s' :: new)) with (last (s' :: new)).
    destruct (last (s' :: new)) eqn:Hl; [exact Hlast|].
    by apply last_None in Hl.
Qed.

(** X1: when [run_backtest] returns, the equity curve has one snapshot per bar
    of the strategy's frame, dated as the bars are and in their order; the
    final portfolio value is the portfolio value of the last snapshot, and
    the result carries the engine's initial capital. *)
Theorem equity_curve_follows_bars {Strat : Type} `{BaseStrategy Strat}
    (self : BacktestEngine) (data : DataFrame) (strategy : Strat)
    (signal_data : DataFrame) (res : BacktestResult) :
  generate_signals strategy data = Ok signal_data →
  run_backtest self data strategy = Ok res →
  map snap_date (res_equity_curve res) = map fst (iterrows signal_data) ∧
  (∃ s, last (res_equity_curve res) = Some s ∧
        final_portfolio_value res = snap_portfolio_value s) ∧
  res_initial_capital res = initial_capital self.
Proof.
  intros Hgen Hrun. unfold run_backtest in Hrun. rewrite Hgen in Hrun.
  cbn [mbind result_bind] in Hrun. unfold simulate in Hrun.
  destruct (foldlM _ _ _) as [st|] eqn:Hloop; [|done].
  cbn [mbind result_bind] in Hrun.
  apply foldlM_curve in Hloop as (new & He & Hdates & _ & _ & Hlast).
  simpl in He. rewrite He in Hrun.
  destruct new as [|s0 new]; [done|]. cbn in Hrun.
  destruct (last (s0 :: new)) as [s|] eqn:Hs; [|by subst].
  destruct Hlast as [Hcur _]. rewrite Hcur in Hrun. injection Hrun as <-.
  simpl. eauto.
Qed.

Lemma run_backtest_returns_chain {Strat : Type} `{BaseStrategy Strat}
    (self : BacktestEngine) (data : DataFrame) (strategy : Strat)
    (res : BacktestResult) :
  run_backtest self data strategy = Ok res →
  returns_chain (Fin (initial_capital self)) (res_equity_curve res) ∧
  Forall (λ s, snap_portfolio_value s
               = fadd (snap_cash s) (snap_holdings_value s))
         (res_equity_curve res).
Proof.
  intros Hrun. unfold run_backtest in Hrun.
  destruct (generate_signals strategy data) as [signal_data|]; [|done].
  cbn [mbind result_bind] in Hrun. unfold simulate in Hrun.
  destruct (foldlM _ _ _) as [st|] eqn:Hloop; [|done].
  cbn [mbind result_bind] in Hrun.
  apply foldlM_curve in Hloop as (new & He & _ & Hchain & Hall & _).
  simpl in He. rewrite He in Hrun.
  destruct new as [|s0 new]; [done|]. cbn in Hrun.
  destruct (current_portfolio_value st); [|done]. injection Hrun as <-.
  simpl. auto.
Qed.

(** X2: in the equity curve of a returned back-test the return of every
    snapshot is (value - previous value) / previous value, where the value
    before the first bar is the initial capital, and the portfolio value of
    every snapshot is its cash plus its holdings value. *)
Theorem equity_curve_returns_chain {Strat : Type} `{BaseStrategy Strat}
    (self : BacktestEngine) (data : DataFrame) (strategy : Strat)
    (res : BacktestResult) :
  run_backtest self data strategy = Ok res →
  returns_chain (Fin (initial_capital self)) (res_equity_curve res) ∧
  Forall (λ s, snap_portfolio_value s
               = fadd (snap_cash s) (snap_holdings_value s))
         (res_equity_curve res).
Proof. apply run_backtest_returns_chain. Qed.

(** ** The trade log *)

Lemma with_pnl_fields prev t :
  trade_action (with_pnl prev t) = trade_action t ∧
  trade_price (with_pnl prev t) = trade_price t ∧
  trade_quantity (with_pnl prev t) = trade_quantity t ∧
  trade_value (with_pnl prev t) = trade_value t ∧
  trade_commission (with_pnl prev t) = trade_commission t ∧
  trade_date (with_pnl prev t) = trade_date t.
Proof. unfold with_pnl. by destruct (_ && _). Qed.

Lemma with_pnl_ext prev prev' t :
  trade_action prev = trade_action prev' →
  trade_price prev = trade_price prev' →
  with_pnl prev t = with_pnl prev' t.
Proof. intros Ha Hp. unfold with_pnl. by rewrite Ha, Hp. Qed.

Lemma lookup_assign_pnl ts : ∀ prev prev0 i,
  trade_action prev = trade_action prev0 →
  trade_price prev = trade_price prev0 →
  assign_pnl prev ts !! i
  = (t ← ts !! i;
     Some (with_pnl (match i with O => prev0 | S j => default t (ts !! j) end) t)).
Proof.
  induction ts as [|t rest IH]; intros prev prev0 i Ha Hp; [done|].
  change (assign_pnl prev (t :: rest))
    with (with_pnl prev t :: assign_pnl (with_pnl prev t) rest).
  destruct i as [|j]; simpl.
  - f_equal. by apply with_pnl_ext.
  - rewrite (IH _ t) by apply with_pnl_fields.
    destruct (rest !! j) as [u|]; simpl; [|done]. by destruct j.
Qed.

Lemma lookup_calculate_pnl ts i :
  calculate_pnl ts !! i
  = (t ← ts !! i;
     Some (match i with O => t | S j => with_pnl (default t (ts !! j)) t end)).
Proof.
  destruct ts as [|t0 rest]; [done|]. unfold calculate_pnl.
  destruct i as [|j]; [done|].
  change ((t0 :: assign_pnl t0 rest) !! S j) with (assign_pnl t0 rest !! j).
  rewrite (lookup_assign_pnl rest t0 t0) by done.
  change ((t0 :: rest) !! S j) with (rest !! j).
  destruct (rest !! j) as [u|]; simpl; [|done]. by destruct j.
Qed.

Lemma cash_flow_calculate_pnl ts :
  map cash_flow (calculate_pnl ts) = map cash_flow ts.
Proof.
  apply list_eq. intros i. rewrite !list_lookup_fmap, lookup_calculate_pnl.
  destruct (ts !! i) as [t|]; simpl; [|done]. f_equal.
  destruct i as [|j]; [done|]. unfold cash_flow.
  destruct (with_pnl_fields (default t (ts !! j)) t) as (-> & _ & _ & -> & _).
  done.
Qed.

(** A ledger that starts flat is a sequence of BUY-SELL pairs, possibly
    followed by one open BUY. *)
Lemma ledger_flat_lookup c ts : ∀ d d' h' i t,
  ledger c d 0 ts d' h' → ts !! i = Some t →
  trade_pnl t = None ∧ (trade_quantity t > 0)%Z ∧
  (∃ p, trade_price t = Fin p) ∧
  if Nat.even i then trade_action t = BUY
  else trade_action t = SELL ∧
       ∃ b, ts !! (i - 1) = Some b ∧ trade_action b = BUY ∧
            trade_quantity t = trade_quantity b.
Proof.
  induction ts as [ts IH] using (induction_ltof1 _ (@length Trade)).
  unfold ltof in IH. intros d d' h' i t Hled Hi.
  inversion Hled as [|? ? pb q ts1 ? ? Hq Hled1|? ? ? ? ? ? ? Hneg]; subst;
    [done| |lia].
  destruct i as [|i]; [injection Hi as <-; simpl; eauto|].
  inversion Hled1 as [| |? ? ? ps ts2 ? ? _ Hled2]; subst; [done|lia|].
  destruct i as [|i]; [injection Hi as <-; simpl; eauto 10|].
  change (ts2 !! i = Some t) in Hi.
  destruct (IH ts2 ltac:(simpl; lia) _ _ _ i t Hled2 Hi)
    as (Hpnl & Hqt & Hpr & Hact).
  split; [done|]. split; [done|]. split; [done|].
  change (Nat.even (S (S i))) with (Nat.even i).
  destruct (Nat.even i) eqn:Hev; [done|].
  destruct Hact as (Hs & b & Hb & Hba & Hqb). split; [done|].
  exists b. split; [|done].
  destruct i as [|i]; [done|]. simpl in *. by rewrite Nat.sub_0_r in *.
Qed.

Lemma ledger_flow c ts : ∀ d h d' h' a,
  ledger c d h ts d' h' →
  ∃ a', foldl fadd (Fin a) (map cash_flow ts) = Fin a' ∧
        (a' == a + (d' - d))%Q.
Proof.
  induction ts as [|t ts IH]; intros d h d' h' a Hled.
  - inversion Hled; subst. exists a. split; [done|]. ring.
  - inversion Hled as [|? ? p q ? ? ? _ Hled1|? ? ? p ? ? ? _ Hled1]; subst;
      simpl.
    + destruct (IH _ _ _ _ (a + - (inject_Z q * p * (1 + c)))%Q Hled1)
        as (a' & -> & Ha'). exists a'. split; [done|]. rewrite Ha'. ring.
    + destruct (IH _ _ _ _ (a + inject_Z h * p * (1 - c))%Q Hled1)
        as (a' & -> & Ha'). exists a'. split; [done|]. rewrite Ha'. ring.
Qed.

Lemma run_backtest_books {Strat : Type} `{BaseStrategy Strat}
    (self : BacktestEngine) (data : DataFrame) (strategy : Strat)
    (signal_data : DataFrame) (res : BacktestResult) :
  generate_signals strategy data = Ok signal_data →
  Forall (λ bar : Timestamp * gmap string fval,
            ∃ p, bar.2 !! "close"%string = Some (Fin p))
         (iterrows signal_data) →
  run_backtest self data strategy = Ok res →
  ∃ st s,
    books_balance self st ∧
    res_trades res = calculate_pnl (trades st) ∧
    last (res_equity_curve res) = Some s ∧
    cash st = snap_cash s.
Proof.
  intros Hgen Hbars Hrun. unfold run_backtest in Hrun. rewrite Hgen in Hrun.
  cbn [mbind result_bind] in Hrun. unfold simulate in Hrun.
  destruct (foldlM _ _ _) as [st|] eqn:Hloop; [|done].
  cbn [mbind result_bind] in Hrun.
  pose proof (foldlM_books self _ _ _ Hbars (books_balance_init self) Hloop)
    as Hbooks.
  apply foldlM_curve in Hloop as (new & He & _ & _ & _ & Hlast).
  simpl in He. rewrite He in Hrun.
  destruct new as [|s0 new]; [done|]. cbn in Hrun.
  destruct (last (s0 :: new)) as [s|] eqn:Hs; [|by subst].
  destruct Hlast as [Hcur Hcash]. rewrite Hcur in Hrun. injection Hrun as <-.
  exists st, s. simpl. auto.
Qed.

(** X3: on bars with finite closes the trade log of a returned back-test
    alternates BUY, SELL, BUY, ... and starts with a BUY; every trade has a
    positive quantity, and every SELL sells exactly the quantity of the BUY
    before it. *)
Theorem trades_alternate {Strat : Type} `{BaseStrategy Strat}
    (self : BacktestEngine) (data : DataFrame) (strategy : Strat)
    (signal_data : DataFrame) (res : BacktestResult) :
  generate_signals strategy data = Ok signal_data →
  Forall (λ bar : Timestamp * gmap string fval,
            ∃ p, bar.2 !! "close"%string = Some (Fin p))
         (iterrows signal_data) →
  run_backtest self data strategy = Ok res →
  ∀ i t, res_trades res !! i = Some t →
    (trade_quantity t > 0)%Z ∧
    if Nat.even i then trade_action t = BUY
    else trade_action t = SELL ∧
         ∃ b, res_trades res !! (i - 1) = Some b ∧ trade_action b = BUY ∧
              trade_quantity t = trade_quantity b.
Proof.
  intros Hgen Hbars Hrun i t Hi.
  destruct (run_backtest_books self data strategy signal_data res Hgen Hbars Hrun)
    as (st & s & (qc & d & _ & _ & Hled & _) & Ht & _).
  rewrite Ht in *. rewrite lookup_calculate_pnl in Hi.
  destruct (trades st !! i) as [t0|] eqn:Ht0; [|done]. simpl in Hi.
  destruct (ledger_flat_lookup _ _ _ _ _ _ _ Hled Ht0) as (_ & Hq & _ & Hact).
  assert (Hf : trade_action t = trade_action t0 ∧
               trade_quantity t = trade_quantity t0).
  { injection Hi as <-. destruct i; [done|].
    destruct (with_pnl_fields (default t0 (trades st !! i)) t0)
      as (-> & _ & -> & _). done. }
  destruct Hf as [-> ->]. split; [done|].
  destruct (Nat.even i); [done|].
  destruct Hact as (Hs & b & Hb & Hba & Hqb). split; [done|].
  rewrite lookup_calculate_pnl, Hb. simpl. eexists. split; [done|].
  destruct (i - 1) as [|j]; [done|].
  destruct (with_pnl_fields (default b (trades st !! j)) b)
    as (-> & _ & -> & _). done.
Qed.

(** X4: on bars with finite closes, after the second pass of [run_backtest]
    no BUY carries a ['pnl'] and every SELL carries (its price - the price
    of the BUY before it) * its quantity; commissions are not part of it. *)
Theorem sells_carry_pnl {Strat : Type} `{BaseStrategy Strat}
    (self : BacktestEngine) (data : DataFrame) (strategy : Strat)
    (signal_data : DataFrame) (res : BacktestResult) :
  generate_signals strategy data = Ok signal_data →
  Forall (λ bar : Timestamp * gmap string fval,
            ∃ p, bar.2 !! "close"%string = Some (Fin p))
         (iterrows signal_data) →
  run_backtest self data strategy = Ok res →
  ∀ i t, res_trades res !! i = Some t →
    if Nat.even i then trade_pnl t = None
    else ∃ b, res_trades res !! (i - 1) = Some b ∧
              trade_pnl t
              = Some (fmul (fsub (trade_price t) (trade_price b))
                           (of_Z (trade_quantity t))).
Proof.
  intros Hgen Hbars Hrun i t Hi.
  destruct (run_backtest_books self data strategy signal_data res Hgen Hbars Hrun)
    as (st & s & (qc & d & _ & _ & Hled & _) & Ht & _).
  rewrite Ht in *. rewrite lookup_calculate_pnl in Hi.
  destruct (trades st !! i) as [t0|] eqn:Ht0; [|done]. simpl in Hi.
  destruct (ledger_flat_lookup _ _ _ _ _ _ _ Hled Ht0) as (Hpnl & _ & _ & Hact).
  destruct i as [|i]; [by injection Hi as <-|].
  destruct (Nat.even (S i)) eqn:Hev.
  - injection Hi as <-. unfold with_pnl. rewrite Hact. done.
  - destruct Hact as (Hs & b & Hb & Hba & Hqb).
    simpl in Hb. rewrite Nat.sub_0_r in Hb. rewrite Hb in Hi. simpl in Hi.
    injection Hi as <-. simpl. rewrite Nat.sub_0_r.
    rewrite lookup_calculate_pnl, Hb. simpl. eexists. split; [done|].
    unfold with_pnl at 1. rewrite Hs, Hba.
    rewrite !bool_decide_eq_true_2 by done. simpl.
    destruct (with_pnl_fields b t0) as (_ & -> & -> & _).
    destruct i as [|j]; [done|].
    destruct (with_pnl_fields (default b (trades st !! j)) b)
      as (_ & -> & _). done.
Qed.

(** X5: on bars with finite closes the cash of the last snapshot is the
    initial capital, minus the value of every BUY of the trade log, plus the
    value of every SELL (both values include the commission). *)
Theorem cash_is_capital_plus_flows {Strat : Type} `{BaseStrategy Strat}
    (self : BacktestEngine) (data : DataFrame) (strategy : Strat)
    (signal_data : DataFrame) (res : BacktestResult) :
  generate_signals strategy data = Ok signal_data →
  Forall (λ bar : Timestamp * gmap string fval,
            ∃ p, bar.2 !! "close"%string = Some (Fin p))
         (iterrows signal_data) →
  run_backtest self data strategy = Ok res →
  ∃ s, last (res_equity_curve res) = Some s ∧
       same (snap_cash s)
            (foldl fadd (Fin (initial_capital self))
                   (map cash_flow (res_trades res))).
Proof.
  intros Hgen Hbars Hrun.
  destruct (run_backtest_books self data strategy signal_data res Hgen Hbars Hrun)
    as (st & s & (qc & d & Hcash & Hqc & Hled & _) & Ht & Hlast & Hs).
  exists s. split; [done|]. rewrite Ht, cash_flow_calculate_pnl, <- Hs, Hcash.
  destruct (ledger_flow _ _ _ _ _ _ (initial_capital self) Hled)
    as (a' & -> & Ha'). simpl. rewrite Hqc, Ha'. ring.
Qed.

Lemma round_trip_frame_closes :
  Forall (λ bar : Timestamp * gmap string fval,
            ∃ p, bar.2 !! "close"%string = Some (Fin p))
         (iterrows round_trip_frame).
Proof. repeat constructor; simpl; eauto. Qed.

Lemma equity_curve_follows_bars_witness :
  ∃ res,
    run_backtest (engine 10000 0.001) round_trip_frame precomputed = Ok res ∧
    map snap_date (res_equity_curve res) = map fst (iterrows round_trip_frame) ∧
    (∃ s, last (res_equity_curve res) = Some s ∧
          final_portfolio_value res = snap_portfolio_value s) ∧
    res_initial_capital res = initial_capital (engine 10000 0.001).
Proof.
  eexists. split; [vm_compute; reflexivity|].
  apply (equity_curve_follows_bars (engine 10000 0.001) round_trip_frame
           precomputed round_trip_frame).
  - reflexivity.
  - vm_compute. reflexivity.
Defined.

Lemma equity_curve_returns_chain_witness :
  ∃ res,
    run_backtest (engine 10000 0.001) round_trip_frame precomputed = Ok res ∧
    returns_chain (Fin (initial_capital (engine 10000 0.001)))
                  (res_equity_curve res) ∧
    Forall (λ s, snap_portfolio_value s
                 = fadd (snap_cash s) (snap_holdings_value s))
           (res_equity_curve res).
Proof.
  eexists. split; [vm_compute; reflexivity|].
  apply (equity_curve_returns_chain (engine 10000 0.001) round_trip_frame
           precomputed).
  vm_compute. reflexivity.
Defined.

Lemma trades_alternate_witness :
  ∃ res,
    run_backtest (engine 10000 0.001) round_trip_frame precomputed = Ok res ∧
    ∀ i t, res_trades res !! i = Some t →
      (trade_quantity t > 0)%Z ∧
      if Nat.even i then trade_action t = BUY
      else trade_action t = SELL ∧
           ∃ b, res_trades res !! (i - 1) = Some b ∧ trade_action b = BUY ∧
                trade_quantity t = trade_quantity b.
Proof.
  eexists. split; [vm_compute; reflexivity|].
  apply (trades_alternate (engine 10000 0.001) round_trip_frame
           precomputed round_trip_frame).
  - reflexivity.
  - exact round_trip_frame_closes.
  - vm_compute. reflexivity.
Defined.

Lemma sells_carry_pnl_witness :
  ∃ res,
    run_backtest (engine 10000 0.001) round_trip_frame precomputed = Ok res ∧
    ∀ i t, res_trades res !! i = Some t →
      if Nat.even i then trade_pnl t = None
      else ∃ b, res_trades res !! (i - 1) = Some b ∧
                trade_pnl t
                = Some (fmul (fsub (trade_price t) (trade_price b))
                             (of_Z (trade_quantity t))).
Proof.
  eexists. split; [vm_compute; reflexivity|].
  apply (sells_carry_pnl (engine 10000 0.001) round_trip_frame
           precomputed round_trip_frame).
  - reflexivity.
  - exact round_trip_frame_closes.
  - vm_compute. reflexivity.
Defined.

Lemma cash_is_capital_plus_flows_witness :
  ∃ res,
    run_backtest (engine 10000 0.001) round_trip_frame precomputed = Ok res ∧
    ∃ s, last (res_equity_curve res) = Some s ∧
         same (snap_cash s)
              (foldl fadd (Fin (initial_capital (engine 10000 0.001)))
                     (map cash_flow (res_trades res))).
Proof.
  eexists. split; [vm_compute; reflexivity|].
  apply (cash_is_capital_plus_flows (engine 10000 0.001) round_trip_frame
           precomputed round_trip_frame).
  - reflexivity.
  - exact round_trip_frame_closes.
  - vm_compute. reflexivity.
Defined.

(** ** Errors of the loop *)

(** X6: if the first bar of the strategy's frame has no ['close'] cell,
    [run_backtest] raises KeyError('close'). *)
Theorem missing_close_raises {Strat : Type} `{BaseStrategy Strat}
    (self : BacktestEngine) (data : DataFrame) (strategy : Strat)
    (signal_data : DataFrame) (bar : Timestamp * gmap string fval)
    (bars : list (Timestamp * gmap string fval)) :
  generate_signals strategy data = Ok signal_data →
  iterrows signal_data = bar :: bars →
  bar.2 !! "close"%string = None →
  run_backtest self data strategy = Raise (KeyError "close").
Proof.
  intros Hgen Hbars Hnone. unfold run_backtest. rewrite Hgen.
  cbn [mbind result_bind]. unfold simulate. rewrite Hbars.
  destruct bar as [date row]. simpl in *.
  unfold row_getitem. by rewrite Hnone.
Qed.

Lemma missing_close_raises_witness :
  run_backtest (engine 10000 0.001)
    {| columns := ["signal"%string];
       rows := [(jan 1, {[ "signal"%string := of_Z 1 ]})] |} precomputed
  = Raise (KeyError "close").
Proof.
  apply (missing_close_raises (engine 10000 0.001)
           {| columns := ["signal"%string];
              rows := [(jan 1, {[ "signal"%string := of_Z 1 ]})] |}
           precomputed
           {| columns := ["signal"%string];
              rows := [(jan 1, {[ "signal"%string := of_Z 1 ]})] |}
           (jan 1, {[ "signal"%string := of_Z 1 ]}) []).
  - reflexivity.
  - reflexivity.
  - reflexivity.
Defined.

(** X7: a BUY signal on a first bar whose close is 0 makes [run_backtest]
    raise OverflowError when the initial capital is not 0: the number of
    shares is [int] of an infinity. *)
Theorem buy_at_zero_close_raises {Strat : Type} `{BaseStrategy Strat}
    (self : BacktestEngine) (data : DataFrame) (strategy : Strat)
    (signal_data : DataFrame) (bar : Timestamp * gmap string fval)
    (bars : list (Timestamp * gmap string fval)) (v : fval) :
  generate_signals strategy data = Ok signal_data →
  iterrows signal_data = bar :: bars →
  bar.2 !! "close"%string = Some (Fin 0) →
  bar.2 !! "signal"%string = Some v → feqb v (of_Z 1) = true →
  ¬ (initial_capital self == 0)%Q →
  run_backtest self data strategy = Raise OverflowError.
Proof.
  intros Hgen Hbars Hclose Hsig Hv Hic. unfold run_backtest. rewrite Hgen.
  cbn [mbind result_bind]. unfold simulate. rewrite Hbars.
  destruct bar as [date row]. simpl in *.
  unfold row_getitem, row_get. rewrite Hclose, Hsig. simpl.
  unfold execute_signal. simpl. rewrite Hv. simpl.
  destruct (initial_capital self * 0.95 ?= 0)%Q eqn:Hcmp; [|done..].
  exfalso. apply Hic. apply Qeq_alt in Hcmp.
  assert (initial_capital self * 0.95 == 0 → initial_capital self == 0)%Q
    by (intros; lra). auto.
Qed.

Lemma buy_at_zero_close_raises_witness :
  run_backtest (engine 10000 0.001) (annotated [bar 1 0 1; bar 2 10 0])
    precomputed = Raise OverflowError.
Proof.
  apply (buy_at_zero_close_raises (engine 10000 0.001)
           (annotated [bar 1 0 1; bar 2 10 0]) precomputed
           (annotated [bar 1 0 1; bar 2 10 0]) (bar 1 0 1)
           [bar 2 10 0] (of_Z 1)).
  - reflexivity.
  - reflexivity.
  - reflexivity.
  - reflexivity.
  - reflexivity.
  - simpl. intros Heq. discriminate Heq.
Defined.

(** ** Sizing *)

Lemma Qlt_bool_true (a b : Q) : Qlt_bool a b = true ↔ (a < b)%Q.
Proof.
  unfold Qlt_bool. rewrite negb_true_iff, <- not_true_iff_false, Qle_bool_iff.
  split; [apply Qnot_le_lt | apply Qlt_not_le].
Qed.

Lemma Qlt_bool_false (a b : Q) : Qlt_bool a b = false ↔ (b <= a)%Q.
Proof.
  unfold Qlt_bool. rewrite negb_false_iff, Qle_bool_iff. done.
Qed.

Lemma Qtrunc_nonneg (x : Q) : (0 <= x)%Q → (0 <= Qtrunc x)%Z.
Proof.
  unfold Qtrunc, Qle. destruct x as [n d]. simpl. intros Hn.
  apply Z.quot_pos; lia.
Qed.

(** X9: at a positive price, with a non-negative portfolio value and
    position limit, [calculate_position_size] returns, with or without a
    volatility; the number of shares it returns is never negative and never
    above the number it returns without a volatility. *)
Theorem position_size_is_capped (self : BacktestEngine)
    (current_portfolio_value price : Q) (volatility : option fval) :
  (0 < price)%Q → (0 <= current_portfolio_value)%Q →
  (0 <= max_position_size self)%Q →
  ∃ n basic,
    calculate_position_size self (Fin current_portfolio_value) (Fin price)
      volatility = Ok n ∧
    calculate_position_size self (Fin current_portfolio_value) (Fin price)
      None = Ok basic ∧
    (0 <= n <= basic)%Z.
Proof.
  intros Hp Hv Hm. unfold calculate_position_size, py_truediv. cbv zeta.
  cbn [fmul feqb of_Z]. change (inject_Z 0) with 0%Q.
  rewrite (Qeq_bool_false_pos price) by done. cbn [mbind result_bind fdiv].
  rewrite (Qeq_bool_false_pos price) by done. cbn [py_int mbind result_bind].
  set (basic := Qtrunc _).
  assert (Hb : (0 <= basic)%Z).
  { apply Qtrunc_nonneg, Qle_shift_div_l; [done|].
    assert (0 <= current_portfolio_value * max_position_size self)%Q
      by (by apply Qmult_le_0_compat).
    lra. }
  destruct volatility as [v|]; cycle 1.
  { exists (Z.max 0 basic), (Z.max 0 basic). repeat split; lia. }
  destruct (py_bool v && _); cycle 1.
  { exists (Z.max 0 basic), (Z.max 0 basic). repeat split; lia. }
  unfold fgtb, fltb, of_Z. change (inject_Z 0) with 0%Q.
  destruct (Qlt_bool 0 (price * stop_loss_pct self)) eqn:Hr.
  - apply Qlt_bool_true in Hr. rewrite !Qeq_bool_false_pos by done.
    cbn [py_int mbind result_bind].
    eexists _, (Z.max 0 basic). split; [reflexivity|]. split; [done|]. lia.
  - cbn [mbind result_bind].
    eexists _, (Z.max 0 basic). split; [reflexivity|]. split; [done|]. lia.
Qed.

Lemma position_size_is_capped_witness :
  ∃ n basic,
    calculate_position_size (engine 10000 0.001) (Fin 10000) (Fin 50)
      (Some (Fin 0.2)) = Ok n ∧
    calculate_position_size (engine 10000 0.001) (Fin 10000) (Fin 50)
      None = Ok basic ∧
    (0 <= n <= basic)%Z.
Proof.
  apply (position_size_is_capped (engine 10000 0.001) 10000 50
           (Some (Fin 0.2))); simpl; lra.
Defined.

(** X11: the error paths of [calculate_position_size]: a price of 0 raises
    ZeroDivisionError whatever the portfolio value is; an undefined price,
    or an undefined portfolio value at a price other than 0, raises the
    ValueError of [int]; an infinite portfolio value at a finite price
    other than 0, with a position limit other than 0, raises OverflowError;
    and whenever a number of shares is returned it is not negative. *)
Theorem position_size_errors (self : BacktestEngine)
    (current_portfolio_value : fval) (price : Q) (volatility : option fval) :
  ((price == 0)%Q →
   calculate_position_size self current_portfolio_value (Fin price) volatility
   = Raise ZeroDivisionError) ∧
  calculate_position_size self current_portfolio_value NaN volatility
  = Raise (ValueError "cannot convert float NaN to integer") ∧
  (¬ (price == 0)%Q →
   calculate_position_size self NaN (Fin price) volatility
   = Raise (ValueError "cannot convert float NaN to integer")) ∧
  (¬ (price == 0)%Q → ¬ (max_position_size self == 0)%Q →
   current_portfolio_value = PInf ∨ current_portfolio_value = NInf →
   calculate_position_size self current_portfolio_value (Fin price) volatility
   = Raise OverflowError) ∧
  (∀ n, calculate_position_size self current_portfolio_value (Fin price)
          volatility = Ok n → (0 <= n)%Z).
Proof.
  unfold calculate_position_size, py_truediv. cbv zeta.
  split; [|split; [|split; [|split]]].
  - intros H0. cbn [feqb of_Z]. change (inject_Z 0) with 0%Q.
    by rewrite (proj2 (Qeq_bool_iff price 0) H0).
  - cbn [feqb mbind result_bind]. rewrite !fdiv_nan_r. reflexivity.
  - intros H0. cbn [fmul feqb of_Z]. change (inject_Z 0) with 0%Q.
    destruct (Qeq_bool price 0) eqn:He; [by apply Qeq_bool_iff in He|]. done.
  - intros H0 Hm Hinf. cbn [feqb of_Z]. change (inject_Z 0) with 0%Q.
    destruct (Qeq_bool price 0) eqn:He; [by apply Qeq_bool_iff in He|].
    cbn [mbind result_bind].
    assert (Hx : ∃ x, (x = PInf ∨ x = NInf) ∧
                      fmul current_portfolio_value (Fin (max_position_size self))
                      = x).
    { destruct Hinf as [-> | ->]; simpl;
        destruct (max_position_size self ?= 0)%Q eqn:Hc;
        try (apply Qeq_alt in Hc; by destruct Hm); eauto. }
    destruct Hx as (x & Hx & ->).
    destruct Hx as [-> | ->]; simpl; by destruct (Qle_bool 0 price).
  - intros n. destruct (feqb (Fin price) (of_Z 0)); [done|].
    cbn [mbind result_bind].
    destruct (py_int (fdiv _ (Fin price))) as [basic_shares|]; [|done].
    cbn [mbind result_bind].
    match goal with
    | |- (?m ≫= _) = _ → _ => destruct m as [shares|]; [|done]
    end.
    cbn [mbind result_bind]. intros [= <-]. lia.
Qed.

Lemma position_size_errors_witness :
  calculate_position_size (engine 10000 0.001) (Fin 10000) (Fin 0) None
  = Raise ZeroDivisionError ∧
  calculate_position_size (engine 10000 0.001) NaN (Fin 50) None
  = Raise (ValueError "cannot convert float NaN to integer") ∧
  calculate_position_size (engine 10000 0.001) PInf (Fin 50) None
  = Raise OverflowError.
Proof.
  destruct (position_size_errors (engine 10000 0.001) (Fin 10000) 0 None)
    as (Hzero & _).
  destruct (position_size_errors (engine 10000 0.001) PInf 50 None)
    as (_ & _ & Hnan & Hinf & _).
  split; [apply Hzero; reflexivity|].
  split; [apply Hnan; discriminate|].
  apply Hinf; [discriminate | discriminate | by left].
Defined.

(** ** Exit checks *)

(** X12: for a long position entered at a positive price both exit checks
    return; with a positive stop-loss fraction [check_stop_loss] holds only
    below the entry price, with a positive take-profit fraction
    [check_take_profit] holds only above it, and so with positive fractions
    the two never hold together. *)
Theorem long_exits_exclude_each_other (self : BacktestEngine)
    (entry_price current_price : Q) :
  (0 < entry_price)%Q →
  ∃ stop profit,
    check_stop_loss self entry_price current_price "long" = Ok stop ∧
    check_take_profit self entry_price current_price "long" = Ok profit ∧
    ((0 < stop_loss_pct self)%Q → stop = true →
     (current_price < entry_price)%Q) ∧
    ((0 < take_profit_pct self)%Q → profit = true →
     (entry_price < current_price)%Q) ∧
    ((0 < stop_loss_pct self)%Q → (0 < take_profit_pct self)%Q →
     ¬ (stop = true ∧ profit = true)).
Proof.
  intros He. unfold check_stop_loss, check_take_profit. simpl.
  rewrite !py_div_pos by done. cbn [mbind result_bind].
  eexists _, _. split; [reflexivity|]. split; [reflexivity|].
  assert (Hs : (0 < stop_loss_pct self)%Q →
               Qle_bool (stop_loss_pct self)
                 ((entry_price - current_price) / entry_price) = true →
               (current_price < entry_price)%Q).
  { intros Hpos Hle. apply Qle_bool_iff in Hle.
    destruct (Qlt_le_dec current_price entry_price) as [|Hge]; [done|].
    assert ((entry_price - current_price) / entry_price <= 0)%Q
      by (apply Qle_shift_div_r; lra).
    lra. }
  assert (Hp : (0 < take_profit_pct self)%Q →
               Qle_bool (take_profit_pct self)
                 ((current_price - entry_price) / entry_price) = true →
               (entry_price < current_price)%Q).
  { intros Hpos Hle. apply Qle_bool_iff in Hle.
    destruct (Qlt_le_dec entry_price current_price) as [|Hge]; [done|].
    assert ((current_price - entry_price) / entry_price <= 0)%Q
      by (apply Qle_shift_div_r; lra).
    lra. }
  split; [done|]. split; [done|].
  intros Hsl Htp [H1 H2]. specialize (Hs Hsl H1). specialize (Hp Htp H2). lra.
Qed.

Lemma long_exits_exclude_each_other_witness :
  ∃ stop profit,
    check_stop_loss (engine 10000 0.001) 100 94 "long" = Ok stop ∧
    check_take_profit (engine 10000 0.001) 100 94 "long" = Ok profit ∧
    ((0 < stop_loss_pct (engine 10000 0.001))%Q → stop = true →
     (94 < 100)%Q) ∧
    ((0 < take_profit_pct (engine 10000 0.001))%Q → profit = true →
     (100 < 94)%Q) ∧
    ((0 < stop_loss_pct (engine 10000 0.001))%Q →
     (0 < take_profit_pct (engine 10000 0.001))%Q →
     ¬ (stop = true ∧ profit = true)).
Proof.
  apply (long_exits_exclude_each_other (engine 10000 0.001) 100 94).
  reflexivity.
Defined.

(** * Further properties of the metrics *)

(** ** Win rate and profit factor *)

Lemma filter_length_le {A : Type} (P Q : A → bool) (l : list A) :
  (∀ x, P x = true → Q x = true) →
  length (List.filter P l) ≤ length (List.filter Q l).
Proof.
  intros HPQ. induction l as [|x l IH]; simpl; [done|].
  destruct (P x) eqn:HP.
  - rewrite (HPQ x HP). simpl. lia.
  - destruct (Q x); simpl; lia.
Qed.

(** X13: [calculate_win_rate] is a finite number between 0 and 100, and is 0
    when no trade carries a ['pnl']. *)
Theorem win_rate_is_a_percentage (self : BacktestResult) :
  ∃ w, calculate_win_rate self = Fin w ∧ (0 <= w)%Q ∧ (w <= 100)%Q ∧
       (total_trades self = 0%nat → (w == 0)%Q).
Proof.
  unfold calculate_win_rate. case_bool_decide as Hz.
  - exists 0%Q. repeat split; try done; lra.
  - eexists. split; [reflexivity|].
    set (k := length (List.filter _ _)).
    assert (Hk : k ≤ total_trades self).
    { apply filter_length_le. intros t Ht. apply bool_decide_eq_true.
      unfold pnl_or_zero in Ht. by destruct (trade_pnl t). }
    set (n := total_trades self) in *.
    assert (Hn : (0 < inject_Z (Z.of_nat n))%Q)
      by (unfold Qlt, inject_Z; simpl; lia).
    assert (Hk0 : (0 <= inject_Z (Z.of_nat k))%Q)
      by (unfold Qle, inject_Z; simpl; lia).
    assert (Hkn : (inject_Z (Z.of_nat k) <= inject_Z (Z.of_nat n))%Q)
      by (unfold Qle, inject_Z; simpl; lia).
    assert (Hd0 : (0 <= inject_Z (Z.of_nat k) / inject_Z (Z.of_nat n))%Q)
      by (apply Qle_shift_div_l; lra).
    assert (Hd1 : (inject_Z (Z.of_nat k) / inject_Z (Z.of_nat n) <= 1)%Q)
      by (apply Qle_shift_div_r; lra).
    repeat split; try lra. done.
Qed.

Lemma series_sum_positive (l : Series) : ∀ a,
  Forall (λ x, ∃ q, x = Fin q ∧ (0 < q)%Q) l →
  ∃ s, foldl fadd (Fin a) l = Fin s ∧ (a <= s)%Q ∧ (l ≠ [] → (a < s)%Q).
Proof.
  induction l as [|x l IH]; intros a Hall; simpl.
  - exists a. repeat split; [lra|done].
  - inversion Hall as [|? ? (q & -> & Hq) Hrest]; subst.
    destruct (IH (a + q)%Q Hrest) as (s & -> & Hs & _).
    exists s. repeat split; [lra|]. intros _. lra.
Qed.

(** X14: when every recorded ['pnl'] is finite, [calculate_profit_factor] is
    either positive infinity or a finite non-negative number; it is never
    NaN and never negative. *)
Theorem profit_factor_is_never_nan (self : BacktestResult) :
  Forall (λ t, ∀ v, trade_pnl t = Some v → ∃ q, v = Fin q) (res_trades self) →
  calculate_profit_factor self = PInf ∨
  ∃ f, calculate_profit_factor self = Fin f ∧ (0 <= f)%Q.
Proof.
  intros Hfin. unfold calculate_profit_factor.
  set (profits := map pnl_or_zero _). set (losses := map _ _).
  assert (Hp : Forall (λ x, ∃ q, x = Fin q ∧ (0 < q)%Q) profits).
  { subst profits. apply Forall_fmap, Forall_forall. intros t Ht.
    apply list_elem_of_In, filter_In in Ht as [Hin Hgt].
    apply list_elem_of_In in Hin. rewrite Forall_forall in Hfin.
    specialize (Hfin t Hin). unfold pnl_or_zero in *. simpl.
    destruct (trade_pnl t) as [v|]; [|done].
    destruct (Hfin v eq_refl) as [q ->]. exists q. split; [done|].
    unfold fgtb, fltb, Qlt_bool in Hgt.
    apply negb_true_iff, not_true_iff_false in Hgt.
    rewrite Qle_bool_iff in Hgt. change (inject_Z 0) with 0%Q in Hgt. lra. }
  assert (Hl : Forall (λ x, ∃ q, x = Fin q ∧ (0 < q)%Q) losses).
  { subst losses. apply Forall_fmap, Forall_forall. intros t Ht.
    apply list_elem_of_In, filter_In in Ht as [Hin Hlt].
    apply list_elem_of_In in Hin. rewrite Forall_forall in Hfin.
    specialize (Hfin t Hin). unfold pnl_or_zero in *. simpl.
    destruct (trade_pnl t) as [v|]; [|done].
    destruct (Hfin v eq_refl) as [q ->]. exists (Qabs q). split; [done|].
    unfold fltb, Qlt_bool in Hlt.
    apply negb_true_iff, not_true_iff_false in Hlt.
    rewrite Qle_bool_iff in Hlt. change (inject_Z 0) with 0%Q in Hlt.
    rewrite Qabs_neg by lra. lra. }
  destruct (series_sum_positive profits 0 Hp) as (gp & Hgp & Hgp0 & Hgp1).
  destruct (series_sum_positive losses 0 Hl) as (gl & Hgl & Hgl0 & Hgl1).
  unfold series_sum.
  assert (Hgross_p : ∃ g, match profits with [] => of_Z 0 | _ :: _ => foldl fadd (Fin 0) profits end = Fin g ∧ (0 <= g)%Q).
  { destruct profits; [exists 0%Q; split; [done|lra]|]. rewrite Hgp. eauto. }
  destruct Hgross_p as (g & -> & Hg).
  destruct losses as [|l0 losses'] eqn:Hlosses.
  - simpl. destruct (fgtb (Fin g) (of_Z 0)); [by left|]. right. exists 0%Q.
    split; [done|lra].
  - rewrite Hgl. specialize (Hgl1 ltac:(done)). simpl.
    change (inject_Z 0) with 0%Q.
    rewrite Qeq_bool_false_pos by done. right. eexists. split; [done|].
    apply Qle_shift_div_l; lra.
Qed.

Lemma profit_factor_is_never_nan_witness :
  ∃ res,
    run_backtest (engine 10000 0.001) round_trip_frame precomputed = Ok res ∧
    (calculate_profit_factor res = PInf ∨
     ∃ f, calculate_profit_factor res = Fin f ∧ (0 <= f)%Q).
Proof.
  eexists. split; [vm_compute; reflexivity|].
  apply profit_factor_is_never_nan.
  repeat constructor; intros v [= <-]; eexists; reflexivity.
Defined.

(** ** Drawdown *)

Lemma dropna_series_finite (l : Series) :
  Forall (λ x, ∃ q, x = Fin q) l → dropna_series l = l.
Proof.
  induction 1 as [|x l [q ->] _ IH]; [done|].
  unfold dropna_series in *. simpl. f_equal. exact IH.
Qed.

Lemma foldl_min_finite (l : Series) : ∀ a,
  Forall (λ x, ∃ q, x = Fin q) l →
  ∃ m, foldl (λ m y, if fltb y m then y else m) (Fin a) l = Fin m ∧
       (m <= a)%Q ∧ (m = a ∨ Fin m ∈ l) ∧
       ∀ q, Fin q ∈ l → (m <= q)%Q.
Proof.
  induction l as [|x l IH]; intros a Hall; simpl.
  - exists a. split; [done|]. split; [lra|]. split; [by left|].
    intros q Hq. by apply elem_of_nil in Hq.
  - inversion Hall as [|? ? [q ->] Hrest]; subst.
    unfold fltb at 2. destruct (Qlt_bool q a) eqn:Hqa.
    + apply Qlt_bool_true in Hqa.
      destruct (IH q Hrest) as (m & -> & Hm & Hin & Hmin).
      exists m. split; [done|]. split; [lra|]. split.
      * right. destruct Hin as [->|Hin]; [by left|by right].
      * intros q' [[= ->]|Hq']%elem_of_cons; [done|by apply Hmin].
    + apply Qlt_bool_false in Hqa.
      destruct (IH a Hrest) as (m & -> & Hm & Hin & Hmin).
      exists m. split; [done|]. split; [done|]. split.
      * destruct Hin as [->|Hin]; [by left|right; by right].
      * intros q' [[= ->]|Hq']%elem_of_cons; [lra|by apply Hmin].
Qed.

Lemma series_min_finite (l : Series) :
  l ≠ [] → Forall (λ x, ∃ q, x = Fin q) l →
  ∃ m, series_min l = Fin m ∧ Fin m ∈ l ∧ ∀ q, Fin q ∈ l → (m <= q)%Q.
Proof.
  intros Hne Hall. unfold series_min. rewrite dropna_series_finite by done.
  destruct l as [|x l]; [done|].
  inversion Hall as [|? ? [a ->] Hrest]; subst.
  destruct (foldl_min_finite l a Hrest) as (m & -> & Hm & Hin & Hmin).
  exists m. split; [done|]. split.
  - destruct Hin as [->|Hin]; [by left|by right].
  - intros q [[= ->]|Hq]%elem_of_cons; [done|by apply Hmin].
Qed.

(** The running peak is at least every value so far, and is one of them. *)
Lemma expanding_max_lookup (qs : list Q) : ∀ best j v,
  (∀ b, best = Some b → ∃ q, b = Fin q) →
  qs !! j = Some v →
  ∃ pk,
    expanding_max_from best (map Fin qs) !! j = Some (Fin pk) ∧
    (∀ i u, i ≤ j → qs !! i = Some u → (u <= pk)%Q) ∧
    (∀ q, best = Some (Fin q) → (q <= pk)%Q) ∧
    ((∃ i, i ≤ j ∧ qs !! i = Some pk) ∨ best = Some (Fin pk)).
Proof.
  induction qs as [|x qs IH]; intros best j v Hbest Hj; [done|].
  simpl.
  set (best' := match best with
                | Some b => Some (if fltb b (Fin x) then Fin x else b)
                | None => Some (Fin x)
                end).
  assert (Hb' : ∃ pk0, best' = Some (Fin pk0) ∧ (x <= pk0)%Q ∧
                       (∀ q, best = Some (Fin q) → (q <= pk0)%Q) ∧
                       (pk0 = x ∨ best = Some (Fin pk0))).
  { subst best'. destruct best as [b|].
    - destruct (Hbest b eq_refl) as [q ->]. unfold fltb.
      destruct (Qlt_bool q x) eqn:Hqx.
      + apply Qlt_bool_true in Hqx. exists x. split; [done|]. split; [lra|].
        split; [|by left]. intros ? [= <-]. lra.
      + apply Qlt_bool_false in Hqx. exists q. split; [done|]. split; [done|].
        split; [|by right]. intros ? [= <-]. lra.
    - exists x. split; [done|]. split; [lra|]. split; [done|by left]. }
  destruct Hb' as (pk0 & Heq & Hx & Hq & Hor). rewrite Heq.
  destruct j as [|j].
  - exists pk0. split; [done|]. split; [|split; [done|]].
    + intros i u Hi Hu. assert (i = 0) as -> by lia. by injection Hu as <-.
    + destruct Hor as [->|?]; [left; exists 0; by split|by right].
  - simpl in Hj.
    destruct (IH (Some (Fin pk0)) j v) as (pk & Hpk & Hall & Hbest' & Hor');
      [intros ? [= <-]; eauto|done|].
    exists pk. split; [done|].
    assert (Hpk0 : (pk0 <= pk)%Q) by (by apply Hbest').
    split; [|split].
    + intros [|i] u Hi Hu; [injection Hu as <-; lra|].
      simpl in Hu. apply (Hall i); [lia|done].
    + intros q Hqb. specialize (Hq q Hqb). lra.
    + destruct Hor' as [(i & Hi & Hpki)|[= <-]].
      * left. exists (S i). split; [lia|done].
      * destruct Hor as [->|?]; [left; exists 0; split; [lia|done]|by right].
Qed.

Lemma drawdown_lookup (qs : list Q) (j : nat) (v : Q) :
  Forall (λ q, 0 < q)%Q qs → qs !! j = Some v →
  ∃ pk,
    series_div (series_sub (map Fin qs) (expanding_max (map Fin qs)))
               (expanding_max (map Fin qs)) !! j
    = Some (Fin ((v - pk) / pk)) ∧
    (0 < pk)%Q ∧ (v <= pk)%Q ∧
    (∀ i u, i ≤ j → qs !! i = Some u → (u <= pk)%Q) ∧
    (∃ i, i ≤ j ∧ qs !! i = Some pk).
Proof.
  intros Hpos Hj.
  destruct (expanding_max_lookup qs None j v ltac:(done) Hj)
    as (pk & Hpk & Hall & _ & Hor).
  destruct Hor as [Hex|?]; [|done].
  assert (Hv : (0 < v)%Q).
  { rewrite Forall_forall in Hpos. apply Hpos. by eapply list_elem_of_lookup_2. }
  assert (Hvpk : (v <= pk)%Q) by (by apply (Hall j)).
  exists pk. unfold series_div, series_sub, expanding_max.
  rewrite !lookup_zip_with, Hpk, list_lookup_fmap, Hj. simpl.
  rewrite Qeq_bool_false_pos by lra.
  repeat split; try done. lra.
Qed.

Lemma max_drawdown_finite (self : BacktestResult) (qs : list Q) :
  map snap_portfolio_value (res_equity_curve self) = map Fin qs →
  qs ≠ [] → Forall (λ q, 0 < q)%Q qs →
  ∃ m,
    calculate_max_drawdown self = Fin m ∧ (0 <= m)%Q ∧ (m < 100)%Q ∧
    (∀ i j u v, i ≤ j → qs !! i = Some u → qs !! j = Some v →
                ((u - v) / u * 100 <= m)%Q) ∧
    (∃ i j u v, i ≤ j ∧ qs !! i = Some u ∧ qs !! j = Some v ∧
                (m == (u - v) / u * 100)%Q).
Proof.
  intros Hpv Hne Hpos. unfold calculate_max_drawdown. rewrite Hpv.
  set (dd := series_div _ _).
  assert (Hlen : length dd = length qs).
  { subst dd. unfold series_div, series_sub, expanding_max.
    rewrite !length_zip_with, length_map.
    assert (∀ best (s : Series), length (expanding_max_from best s) = length s)
      as Hl by (intros best s; revert best; induction s; intros; simpl; auto).
    rewrite Hl, length_map. lia. }
  assert (Hdd : ∀ j x, dd !! j = Some x →
            ∃ v pk, qs !! j = Some v ∧ x = Fin ((v - pk) / pk) ∧
                    (0 < pk)%Q ∧ (v <= pk)%Q ∧ (0 < v)%Q ∧
                    (∀ i u, i ≤ j → qs !! i = Some u → (u <= pk)%Q) ∧
                    (∃ i, i ≤ j ∧ qs !! i = Some pk)).
  { intros j x Hx.
    destruct (lookup_lt_is_Some_2 qs j) as [v Hv];
      [rewrite <- Hlen; by eapply lookup_lt_Some|].
    destruct (drawdown_lookup qs j v Hpos Hv) as (pk & Hl & Hpk & Hvpk & Hall & Hex).
    fold dd in Hl. rewrite Hl in Hx. injection Hx as <-.
    exists v, pk. repeat split; try done.
    rewrite Forall_forall in Hpos. apply Hpos. by eapply list_elem_of_lookup_2. }
  assert (Hfin : Forall (λ x, ∃ q, x = Fin q) dd).
  { apply Forall_lookup. intros j x Hx.
    destruct (Hdd j x Hx) as (v & pk & _ & -> & _). eauto. }
  assert (Hdne : dd ≠ []).
  { intros Hnil. rewrite Hnil in Hlen. destruct qs; simpl in Hlen; done. }
  destruct (series_min_finite dd Hdne Hfin) as (m & -> & Hin & Hmin).
  apply list_elem_of_lookup in Hin as [jm Hjm].
  destruct (Hdd jm _ Hjm)
    as (vm & pkm & Hvm & Hmeq & Hpkm & Hvpkm & Hvm0 & _ & (im & Him & Hpkm_at)).
  injection Hmeq as Hmeq.
  assert (Hm0 : (m <= 0)%Q).
  { rewrite Hmeq. apply Qle_shift_div_r; lra. }
  assert (Hm1 : (-1 < m)%Q).
  { rewrite Hmeq. apply Qlt_shift_div_l; lra. }
  exists (Qabs m * inject_Z 100)%Q. split; [done|].
  pose proof (Qabs_neg m Hm0) as Habs. revert Habs.
  generalize (Qabs m). intros am Habs. change (inject_Z 100) with 100%Q.
  split; [lra|]. split; [lra|]. split.
  - intros i j u v Hij Hu Hv.
    destruct (lookup_lt_is_Some_2 dd j) as [x Hx];
      [rewrite Hlen; by eapply lookup_lt_Some|].
    destruct (Hdd j x Hx) as (v' & pk & Hv' & -> & Hpk & Hvpk & Hv0 & Hall & _).
    rewrite Hv in Hv'. injection Hv' as <-.
    assert (Hupk : (u <= pk)%Q) by (by apply (Hall i)).
    assert (Hu0 : (0 < u)%Q).
    { rewrite Forall_forall in Hpos. apply Hpos.
      by eapply list_elem_of_lookup_2. }
    assert (Hmj : (m <= (v - pk) / pk)%Q).
    { apply Hmin. by eapply list_elem_of_lookup_2. }
    assert (Hcmp : ((v - pk) / pk <= (v - u) / u)%Q).
    { apply Qle_shift_div_l; [done|].
      assert ((v - pk) / pk * u == (v - pk) * u / pk)%Q as ->
        by (field; lra).
      apply Qle_shift_div_r; [done|]. nra. }
    assert (Heq : ((u - v) / u == - ((v - u) / u))%Q) by (field; lra).
    rewrite Heq. revert Hmj Hcmp.
    generalize ((v - pk) / pk)%Q ((v - u) / u)%Q. intros a b Ha Hb. lra.
  - exists im, jm, pkm, vm. repeat split; try done.
    rewrite Habs, Hmeq. field. lra.
Qed.



(** X16: on a non-empty equity curve with positive portfolio values that never
    fall, the maximum drawdown is 0, and [calculate_calmar_ratio] is 0. *)
Theorem rising_curve_has_no_drawdown (self : BacktestResult) (qs : list Q) :
  map snap_portfolio_value (res_equity_curve self) = map Fin qs →
  qs ≠ [] → Forall (λ q, 0 < q)%Q qs →
  (∀ i j u v, i ≤ j → qs !! i = Some u → qs !! j = Some v → (u <= v)%Q) →
  same (calculate_max_drawdown self) (Fin 0) ∧
  calculate_calmar_ratio self = of_Z 0.
Proof.
  intros Hpv Hne Hpos Hmono.
  destruct (max_drawdown_finite self qs Hpv Hne Hpos)
    as (m & Hm & Hm0 & _ & _ & (i & j & u & v & Hij & Hu & Hv & Heq)).
  assert (Huv : (u <= v)%Q) by (by apply (Hmono i j)).
  assert (Hu0 : (0 < u)%Q).
  { rewrite Forall_forall in Hpos. apply Hpos. by eapply list_elem_of_lookup_2. }
  assert (Hz : (m == 0)%Q).
  { assert ((u - v) / u <= 0)%Q by (apply Qle_shift_div_r; lra).
    revert Heq H. generalize ((u - v) / u)%Q. intros a Ha Ha0. lra. }
  unfold calculate_calmar_ratio. rewrite Hm. split; [done|].
  unfold fneb. simpl. change (inject_Z 0) with 0%Q.
  apply Qeq_bool_iff in Hz. by rewrite Hz.
Qed.

Lemma rising_curve_has_no_drawdown_witness :
  same (calculate_max_drawdown
          (curve [snapshot 2024 1 1 10000; snapshot 2024 1 2 10000;
                  snapshot 2024 1 3 10500])) (Fin 0) ∧
  calculate_calmar_ratio
    (curve [snapshot 2024 1 1 10000; snapshot 2024 1 2 10000;
            snapshot 2024 1 3 10500]) = of_Z 0.
Proof.
  apply (rising_curve_has_no_drawdown _ [10000; 10000; 10500]%Q).
  - reflexivity.
  - discriminate.
  - repeat constructor.
  - intros i j u v Hij Hu Hv.
    destruct i as [|[|[|i]]]; destruct j as [|[|[|j]]];
      simpl in Hu, Hv; try discriminate; try lia;
      injection Hu as <-; injection Hv as <-; discriminate.
Defined.

(** ** Value at risk *)

Lemma lerp_between (a b t lo hi : Q) :
  (0 <= t)%Q → (t < 1)%Q →
  (lo <= a <= hi)%Q → (lo <= b <= hi)%Q →
  ∃ c, lerp (Fin a) (Fin b) t = Fin c ∧ (lo <= c <= hi)%Q.
Proof.
  intros Ht0 Ht1 [Ha0 Ha1] [Hb0 Hb1]. unfold lerp.
  assert (H1 : (0 <= (1 - t) * (a - lo))%Q) by (apply Qmult_le_0_compat; lra).
  assert (H2 : (0 <= t * (b - lo))%Q) by (apply Qmult_le_0_compat; lra).
  assert (H3 : (0 <= (1 - t) * (hi - a))%Q) by (apply Qmult_le_0_compat; lra).
  assert (H4 : (0 <= t * (hi - b))%Q) by (apply Qmult_le_0_compat; lra).
  assert (E1 : (b + - ((b + - a) * (1 - t))
                == lo + ((1 - t) * (a - lo) + t * (b - lo)))%Q) by ring.
  assert (E2 : (b + - ((b + - a) * (1 - t))
                == hi - ((1 - t) * (hi - a) + t * (hi - b)))%Q) by ring.
  assert (E3 : (a + (b + - a) * t
                == lo + ((1 - t) * (a - lo) + t * (b - lo)))%Q) by ring.
  assert (E4 : (a + (b + - a) * t
                == hi - ((1 - t) * (hi - a) + t * (hi - b)))%Q) by ring.
  revert H1 H2 H3 H4 E1 E2 E3 E4.
  generalize ((1 - t) * (a - lo))%Q (t * (b - lo))%Q
             ((1 - t) * (hi - a))%Q (t * (hi - b))%Q.
  intros x1 x2 x3 x4 H1 H2 H3 H4 E1 E2 E3 E4.
  destruct (Qle_bool 0.5 t); simpl; eexists; (split; [reflexivity|]).
  - rewrite E1 at 1. rewrite E2. lra.
  - rewrite E3 at 1. rewrite E4. lra.
Qed.

Lemma series_sum_between (l : list Q) lo hi : ∀ a,
  Forall (λ q, lo <= q <= hi)%Q l →
  ∃ s, foldl fadd (Fin a) (map Fin l) = Fin s ∧
       (a + inject_Z (Z.of_nat (length l)) * lo <= s)%Q ∧
       (s <= a + inject_Z (Z.of_nat (length l)) * hi)%Q.
Proof.
  induction l as [|x l IH]; intros a Hall.
  - exists a. simpl. change (inject_Z (Z.of_nat 0)) with 0%Q. split; [done|]. split; lra.
  - inversion Hall as [|? ? [Hx0 Hx1] Hrest]; subst. simpl foldl.
    destruct (IH (a + x)%Q Hrest) as (s & -> & Hs0 & Hs1).
    exists s. split; [done|].
    assert (Hn : (inject_Z (Z.of_nat (length (x :: l)))
                  == inject_Z (Z.of_nat (length l)) + 1)%Q).
    { simpl length. rewrite Nat2Z.inj_succ, <- Z.add_1_r, inject_Z_plus. done. }
    rewrite Hn. split; nra.
Qed.

Lemma mean_between (l : list Q) lo hi :
  l ≠ [] → Forall (λ q, lo <= q <= hi)%Q l →
  ∃ m, mean (map Fin l) = Fin m ∧ (lo <= m <= hi)%Q.
Proof.
  intros Hne Hall. unfold mean, series_sum.
  destruct (series_sum_between l lo hi 0 Hall) as (s & -> & Hs0 & Hs1).
  rewrite length_map.
  assert (Hn : (0 < inject_Z (Z.of_nat (length l)))%Q).
  { destruct l; [done|]. unfold Qlt, inject_Z. simpl. lia. }
  unfold of_Z. simpl. rewrite Qeq_bool_false_pos by done.
  eexists. split; [reflexivity|]. split.
  - apply Qle_shift_div_l; [done|]. lra.
  - apply Qle_shift_div_r; [done|]. lra.
Qed.

Lemma finite_filter (l : list Q) (P : fval → bool) :
  List.filter P (map Fin l) = map Fin (List.filter (λ q, P (Fin q)) l).
Proof.
  induction l as [|x l IH]; simpl; [done|]. destruct (P (Fin x)); simpl; by rewrite IH.
Qed.

Lemma percentile_between (rs : list Q) (q lo hi : Q) :
  rs ≠ [] → (0 <= q)%Q → (q <= 100)%Q →
  Forall (λ r, lo <= r <= hi)%Q rs →
  ∃ v, percentile (map Fin rs) q = Ok (Fin v) ∧ (lo <= v <= hi)%Q.
Proof.
  intros Hne Hq0 Hq1 Hall. unfold percentile.
  rewrite (proj2 (Qle_bool_iff 0 q) Hq0), (proj2 (Qle_bool_iff q 100) Hq1).
  cbn [negb andb]. rewrite length_map.
  set (n := length rs). set (sorted := merge_sort sort_le (map Fin rs)).
  set (vi := (inject_Z (Z.of_nat n - 1) * (q / 100))%Q).
  assert (Hn : 0 < n) by (subst n; destruct rs; [done|simpl; lia]).
  assert (Hperm : sorted ≡ₚ map Fin rs) by apply merge_sort_Permutation.
  assert (Hlen : length sorted = n)
    by (rewrite Hperm; apply length_map).
  assert (Hsorted : ∀ k, k < n →
            ∃ r, sorted !! k = Some (Fin r) ∧ (lo <= r <= hi)%Q).
  { intros k Hk. destruct (lookup_lt_is_Some_2 sorted k) as [x Hx]; [lia|].
    assert (Hin : x ∈ map Fin rs)
      by (rewrite <- Hperm; by eapply list_elem_of_lookup_2).
    apply list_elem_of_fmap in Hin as (r & -> & Hr).
    exists r. split; [done|]. rewrite Forall_forall in Hall. by apply Hall. }
  assert (Hn1 : (0 <= inject_Z (Z.of_nat n - 1))%Q)
    by (unfold Qle, inject_Z; simpl; lia).
  assert (Hq100 : (0 <= q / 100)%Q) by (apply Qle_shift_div_l; lra).
  assert (Hq1' : (q / 100 <= 1)%Q) by (apply Qle_shift_div_r; lra).
  assert (Hvi0 : (0 <= vi)%Q) by (subst vi; nra).
  assert (Hvi1 : (vi <= inject_Z (Z.of_nat n - 1))%Q) by (subst vi; nra).
  pose proof (Qfloor_le vi) as Hfl.
  pose proof (Qlt_floor vi) as Hfu.
  assert (Hf0 : (0 <= Qfloor vi)%Z).
  { change 0%Z with (Qfloor 0). by apply Qfloor_resp_le. }
  assert (Hf1 : (Qfloor vi <= Z.of_nat n - 1)%Z).
  { rewrite <- (Qfloor_Z (Z.of_nat n - 1)). by apply Qfloor_resp_le. }
  destruct (Hsorted (Z.to_nat (Qfloor vi)) ltac:(lia)) as (a & -> & Ha).
  destruct (Hsorted (Nat.min (Z.to_nat (Qfloor vi) + 1) (n - 1)) ltac:(lia))
    as (b & -> & Hb).
  simpl default.
  destruct (lerp_between a b (vi - inject_Z (Qfloor vi)) lo hi)
    as (c & -> & Hc); try done.
  - lra.
  - rewrite inject_Z_plus in Hfu. change (inject_Z 1) with 1%Q in Hfu. lra.
  - eauto.
Qed.

(** X17: with at least one defined return, all finite, and a confidence level
    between 0 and 1, [calculate_var] returns a finite value between any
    lower and upper bound of the observed returns; at least one return is
    at or below it, and [calculate_cvar] returns the mean of the returns at
    or below it, a finite value, never the fallback 0 of an empty tail. *)
Theorem var_within_returns_and_cvar_of_tail (self : BacktestResult)
    (confidence_level : Q) (rs : list Q) (lo hi : Q) :
  dropna_series (map snap_returns (res_equity_curve self)) = map Fin rs →
  rs ≠ [] →
  (0 <= confidence_level)%Q → (confidence_level <= 1)%Q →
  Forall (λ r, lo <= r <= hi)%Q rs →
  ∃ var cvar,
    calculate_var self confidence_level = Ok (Fin var) ∧
    (lo <= var)%Q ∧ (var <= hi)%Q ∧
    List.filter (λ r, Qle_bool r var) rs ≠ [] ∧
    calculate_cvar self confidence_level = Ok (Fin cvar) ∧
    Fin cvar = mean (map Fin (List.filter (λ r, Qle_bool r var) rs)).
Proof.
  intros Hrs Hne Hc0 Hc1 Hall.
  assert (Hlen : length (map Fin rs) ≠ 0%nat)
    by (rewrite length_map; destruct rs; done).
  (* the smallest return is the lower end of the VaR *)
  destruct (series_min_finite (map Fin rs)) as (mn & _ & Hmn_in & Hmn_le).
  { destruct rs; done. }
  { apply Forall_fmap, Forall_forall. simpl. eauto. }
  apply list_elem_of_fmap in Hmn_in as (mn' & [= <-] & Hmn_in).
  assert (Hall' : Forall (λ r, mn <= r <= hi)%Q rs).
  { apply Forall_forall. intros r Hr. split.
    - apply Hmn_le. by apply list_elem_of_fmap_2.
    - rewrite Forall_forall in Hall. by apply Hall. }
  assert (Hmn_lo : (lo <= mn)%Q)
    by (rewrite Forall_forall in Hall; by apply Hall).
  destruct (percentile_between rs (confidence_level * 100) mn hi)
    as (var & Hvar & Hv0 & Hv1); try done; try lra.
  assert (Hcv : calculate_var self confidence_level = Ok (Fin var)).
  { unfold calculate_var. rewrite Hrs, bool_decide_eq_false_2 by done. done. }
  exists var. unfold calculate_cvar.
  rewrite Hrs, bool_decide_eq_false_2, Hcv by done. cbn [mbind result_bind].
  rewrite finite_filter. cbn [fleb].
  set (tail := List.filter _ rs).
  assert (Htail : Forall (λ r, lo <= r <= var)%Q tail).
  { apply Forall_forall. intros r Hr.
    apply list_elem_of_In, filter_In in Hr as [Hin Hle].
    apply list_elem_of_In in Hin. apply Qle_bool_iff in Hle.
    split; [|done]. rewrite Forall_forall in Hall. by apply Hall. }
  assert (Htne : tail ≠ []).
  { intros Hnil. assert (Hin : mn ∈ tail).
    { apply list_elem_of_In, filter_In. split; [by apply list_elem_of_In|].
      by apply Qle_bool_iff. }
    rewrite Hnil in Hin. by apply elem_of_nil in Hin. }
  destruct (mean_between tail lo var Htne Htail) as (m & Hm & _).
  exists m. rewrite length_map, bool_decide_eq_true_2, Hm
    by (destruct tail; [done|simpl; lia]).
  split; [done|]. split; [lra|]. split; [done|]. split; [done|]. done.
Qed.

Lemma var_within_returns_and_cvar_of_tail_witness :
  ∃ res,
    run_backtest (engine 10000 0.001) round_trip_frame precomputed = Ok res ∧
    ∃ var cvar,
      calculate_var res 0.05 = Ok (Fin var) ∧
      (-1 <= var)%Q ∧ (var <= 0)%Q ∧
      List.filter (λ r, Qle_bool r var)
        [0 # 10000; -9450 # 10000000;
         -9450000000000 # 9990550000000000;
         0 # 9981100000000000000000]%Q ≠ [] ∧
      calculate_cvar res 0.05 = Ok (Fin cvar) ∧
      Fin cvar
      = mean (map Fin (List.filter (λ r, Qle_bool r var)
                         [0 # 10000; -9450 # 10000000;
                          -9450000000000 # 9990550000000000;
                          0 # 9981100000000000000000]%Q)).
Proof.
  eexists. split; [vm_compute; reflexivity|].
  apply (var_within_returns_and_cvar_of_tail _ 0.05
           [0 # 10000; -9450 # 10000000;
            -9450000000000 # 9990550000000000;
            0 # 9981100000000000000000]%Q (-1) 0).
  - vm_compute. reflexivity.
  - discriminate.
  - discriminate.
  - discriminate.
  - repeat constructor; discriminate.
Defined.

(** * Further properties of the strategies *)

(** ** No look-ahead *)

Lemma rolling_at_take (w : nat) (agg : Series → fval) (s : Series) (n i : nat) :
  i < n → rolling_at w agg (take n s) i = rolling_at w agg s i.
Proof.
  intros Hi. unfold rolling_at, window. case_bool_decide as Hw; [|done].
  f_equal. rewrite skipn_firstn_comm, take_take. f_equal. lia.
Qed.

Lemma column_take df df' k n :
  rows df = take n (rows df') → column df k = take n (column df' k).
Proof. intros Hrows. unfold column. by rewrite Hrows, fmap_take. Qed.

Lemma filter_take_prefix {A : Type} (P : A → Prop) `{∀ x, Decision (P x)}
    (l : list A) (n : nat) :
  filter P (take n l) `prefix_of` filter P l.
Proof.
  exists (filter P (drop n l)). by rewrite <- filter_app, take_drop.
Qed.

Lemma imap_take {A B : Type} (f : nat → A → B) (l : list A) : ∀ n,
  imap f (take n l) = take n (imap f l).
Proof.
  revert f. induction l as [|x l IH]; intros f [|n]; simpl; try done.
  by rewrite IH.
Qed.

Lemma bars_prefix (f g : nat → Timestamp * gmap string fval
                           → Timestamp * gmap string fval)
    (l : list (Timestamp * gmap string fval)) (n : nat) :
  (∀ i r, i < n → f i r = g i r) →
  filter row_complete (imap f (take n l))
    `prefix_of` filter row_complete (imap g l).
Proof.
  intros Hfg.
  replace (imap f (take n l)) with (take n (imap g l)).
  - apply filter_take_prefix.
  - rewrite <- imap_take. apply imap_ext_lookup. intros i r Hr.
    symmetry. apply Hfg. apply lookup_lt_Some in Hr.
    rewrite length_take in Hr. lia.
Qed.

Lemma before_take (s : Series) (n i : nat) :
  i < n → before (take n s) i = before s i.
Proof. intros Hi. destruct i; simpl; [done|]. by rewrite lookup_take_lt by lia. Qed.

Lemma rsi_at_take (prices : Series) (period n i : nat) :
  i < n → rsi_at (take n prices) period i = rsi_at prices period i.
Proof.
  intros Hi. unfold rsi_at. case_bool_decide as Hp; [|done]. cbv zeta.
  assert (Hup : map (up_move (take n prices)) (seq (i + 1 - period) period)
                = map (up_move prices) (seq (i + 1 - period) period)).
  { apply map_ext_in. intros j Hj. apply in_seq in Hj. unfold up_move.
    by rewrite lookup_take_lt, before_take by lia. }
  assert (Hdown : map (down_move (take n prices)) (seq (i + 1 - period) period)
                  = map (down_move prices) (seq (i + 1 - period) period)).
  { apply map_ext_in. intros j Hj. apply in_seq in Hj. unfold down_move.
    by rewrite lookup_take_lt, before_take by lia. }
  by rewrite Hup, Hdown.
Qed.

(** X18: the crossover, band and RSI strategies do not look ahead: on the
    first n bars of a frame each returns a prefix of what it returns on the
    whole frame, so later bars never change an earlier signal. *)
Theorem rolling_strategies_do_not_look_ahead (sqrtQ : Q → Q)
    (mac : MovingAverageCrossover) (bb : BollingerBandStrategy)
    (rsi : RSIMeanReversion) (history full : DataFrame) (n : nat) :
  "close"%string ∈ columns full →
  columns history = columns full →
  rows history = take n (rows full) →
  (∃ early late, mac_generate_signals mac history = Ok early ∧
                 mac_generate_signals mac full = Ok late ∧
                 rows early `prefix_of` rows late) ∧
  (∃ early late, bb_generate_signals sqrtQ bb history = Ok early ∧
                 bb_generate_signals sqrtQ bb full = Ok late ∧
                 rows early `prefix_of` rows late) ∧
  (∃ early late, rsi_generate_signals rsi history = Ok early ∧
                 rsi_generate_signals rsi full = Ok late ∧
                 rows early `prefix_of` rows late).
Proof.
  intros Hclose Hcols Hrows.
  assert (Hclose' : "close"%string ∈ columns history) by (by rewrite Hcols).
  assert (Hcol : column history "close" = take n (column full "close"))
    by (by apply column_take).
  split; [|split].
  - destruct (mac_generate_signals_rows mac history Hclose') as (early & He & Hre).
    destruct (mac_generate_signals_rows mac full Hclose) as (late & Hl & Hrl).
    exists early, late. split; [done|]. split; [done|].
    rewrite Hre, Hrl, Hrows. apply bars_prefix. intros i r Hi.
    unfold mac_bar. by rewrite Hcol, !rolling_at_take.
  - destruct (bb_generate_signals_rows sqrtQ bb history Hclose')
      as (early & He & Hre).
    destruct (bb_generate_signals_rows sqrtQ bb full Hclose) as (late & Hl & Hrl).
    exists early, late. split; [done|]. split; [done|].
    rewrite Hre, Hrl, Hrows. apply bars_prefix. intros i r Hi.
    unfold bb_bar. by rewrite Hcol, !rolling_at_take.
  - destruct (rsi_generate_signals_rows rsi history Hclose') as (early & He & Hre).
    destruct (rsi_generate_signals_rows rsi full Hclose) as (late & Hl & Hrl).
    exists early, late. split; [done|]. split; [done|].
    rewrite Hre, Hrl, Hrows. apply bars_prefix. intros i r Hi.
    unfold rsi_bar. by rewrite Hcol, rsi_at_take.
Qed.

Lemma ewm_from_take (alpha : Q) (s : Series) : ∀ n weighted old_wt,
  ewm_from alpha weighted old_wt (take n s)
  = take n (ewm_from alpha weighted old_wt s).
Proof.
  induction s as [|x s IH]; intros [|n] w o; try done. cbn [take ewm_from].
  destruct (if negb (is_nan w) then _ else _) as [w' o']. simpl.
  by rewrite IH.
Qed.

Lemma ewm_take (span : nat) (s : Series) (n : nat) :
  ewm span (take n s) = take n (ewm span s).
Proof. destruct s, n; try done. simpl. by rewrite ewm_from_take. Qed.

Lemma zip_with_take_both {A B C : Type} (f : A → B → C) (l : list A) :
  ∀ (k : list B) n,
  zip_with f (take n l) (take n k) = take n (zip_with f l k).
Proof.
  induction l as [|x l IH]; intros [|y k] [|n]; simpl; try done.
  by rewrite IH.
Qed.

(** X19: with periods of at least 1 the MACD strategy does not look ahead:
    on the first n bars of a frame it returns the first n bars of what it
    returns on the whole frame. *)
Theorem macd_does_not_look_ahead (self : MACDStrategy)
    (history full : DataFrame) (n : nat) :
  "close"%string ∈ columns full →
  1 ≤ macd_fast_period self → 1 ≤ macd_slow_period self →
  1 ≤ macd_signal_period self →
  columns history = columns full →
  rows history = take n (rows full) →
  ∃ early late,
    macd_generate_signals self history = Ok early ∧
    macd_generate_signals self full = Ok late ∧
    rows early = take n (rows late).
Proof.
  intros Hclose Hfast Hslow Hsignal Hcols Hrows.
  assert (Hclose' : "close"%string ∈ columns history) by (by rewrite Hcols).
  destruct (macd_generate_signals_rows self history Hclose' Hfast Hslow Hsignal)
    as (early & He & Hre).
  destruct (macd_generate_signals_rows self full Hclose Hfast Hslow Hsignal)
    as (late & Hl & Hrl).
  exists early, late. split; [done|]. split; [done|].
  rewrite Hre, Hrl, Hrows, <- imap_take. apply imap_ext_lookup. intros i r Hr.
  assert (Hi : i < n).
  { apply lookup_lt_Some in Hr. rewrite length_take in Hr. lia. }
  assert (Hline :
    series_sub (ewm (macd_fast_period self) (column history "close"))
               (ewm (macd_slow_period self) (column history "close"))
    = take n (series_sub (ewm (macd_fast_period self) (column full "close"))
                         (ewm (macd_slow_period self) (column full "close")))).
  { rewrite (column_take history full "close" n Hrows).
    unfold series_sub. rewrite !ewm_take.
    apply zip_with_take_both. }
  unfold macd_bar. cbv zeta. rewrite Hline.
  set (line := series_sub _ _).
  assert (Hsig : ewm (macd_signal_period self) (take n line)
                 = take n (ewm (macd_signal_period self) line))
    by apply ewm_take.
  rewrite Hsig, !before_take, !lookup_take_lt by done. done.
Qed.

Lemma rolling_strategies_do_not_look_ahead_witness :
  let full := closes [10; 10; 10; 12; 14; 16; 8; 8; 8]%Q in
  let history := closes [10; 10; 10; 12; 14]%Q in
  let mac := {| mac_fast_period := 2; mac_slow_period := 3 |} in
  let bb := {| bb_period := 2; bb_std_dev := 2 |} in
  let rsi := {| rsi_period := 2; rsi_oversold := 30; rsi_overbought := 70 |} in
  (∃ early late, mac_generate_signals mac history = Ok early ∧
                 mac_generate_signals mac full = Ok late ∧
                 rows early `prefix_of` rows late) ∧
  (∃ early late, bb_generate_signals sqrt_floor bb history = Ok early ∧
                 bb_generate_signals sqrt_floor bb full = Ok late ∧
                 rows early `prefix_of` rows late) ∧
  (∃ early late, rsi_generate_signals rsi history = Ok early ∧
                 rsi_generate_signals rsi full = Ok late ∧
                 rows early `prefix_of` rows late).
Proof.
  intros full history mac bb rsi.
  apply (rolling_strategies_do_not_look_ahead sqrt_floor mac bb rsi
           history full 5).
  - simpl. left.
  - reflexivity.
  - reflexivity.
Defined.

Lemma macd_does_not_look_ahead_witness :
  let full := closes [10; 10; 10; 12; 14; 16; 8; 8; 8]%Q in
  let history := closes [10; 10; 10; 12; 14]%Q in
  let self := {| macd_fast_period := 2; macd_slow_period := 3;
                 macd_signal_period := 2 |} in
  ∃ early late,
    macd_generate_signals self history = Ok early ∧
    macd_generate_signals self full = Ok late ∧
    rows early = take 5 (rows late).
Proof.
  intros full history self.
  apply (macd_does_not_look_ahead self history full 5).
  - simpl. left.
  - simpl. lia.
  - simpl. lia.
  - simpl. lia.
  - reflexivity.
  - reflexivity.
Defined.

(** ** Warm-up of the moving-average crossover *)

Lemma series_sum_finite (s : Series) : ∀ a,
  Forall (λ x, ∃ q, x = Fin q) s → ∃ t, foldl fadd (Fin a) s = Fin t.
Proof.
  induction s as [|x s IH]; intros a Hall; simpl; [eauto|].
  inversion Hall as [|? ? [q ->] Hrest]; subst. simpl. apply IH, Hrest.
Qed.

Lemma mean_finite (s : Series) :
  s ≠ [] → Forall (λ x, ∃ q, x = Fin q) s → ∃ m, mean s = Fin m.
Proof.
  intros Hne Hall. unfold mean, series_sum.
  destruct (series_sum_finite s 0 Hall) as [t ->].
  assert (Hn : (0 < inject_Z (Z.of_nat (length s)))%Q).
  { destruct s; [done|]. unfold Qlt, inject_Z. simpl. lia. }
  unfold of_Z. simpl. rewrite Qeq_bool_false_pos by done. eauto.
Qed.

Lemma window_finite (w i : nat) (s : Series) :
  0 < w → w ≤ i + 1 → i < length s →
  Forall (λ x, ∃ q, x = Fin q) s →
  window w i s ≠ [] ∧ Forall (λ x, ∃ q, x = Fin q) (window w i s).
Proof.
  intros Hw Hwi Hi Hall. unfold window. split.
  - intros Hnil. apply (f_equal length) in Hnil.
    rewrite length_take, length_drop in Hnil. simpl in Hnil. lia.
  - apply Forall_take, Forall_drop, Hall.
Qed.

Lemma rolling_mean_finite (w i : nat) (s : Series) :
  0 < w → w ≤ i + 1 → i < length s →
  Forall (λ x, ∃ q, x = Fin q) s →
  ∃ m, rolling_at w mean s i = Fin m.
Proof.
  intros Hw Hwi Hi Hall. unfold rolling_at.
  rewrite bool_decide_eq_true_2 by done.
  destruct (window_finite w i s Hw Hwi Hi Hall). by apply mean_finite.
Qed.

Lemma rolling_at_warm_up (w : nat) (agg : Series → fval) (s : Series) (i : nat) :
  i + 1 < w → rolling_at w agg s i = NaN.
Proof. intros Hi. unfold rolling_at. rewrite bool_decide_eq_false_2; [done|lia]. Qed.

Lemma filter_none {A : Type} (P : A → Prop) `{∀ x, Decision (P x)}
    (l : list A) : Forall (λ x, ¬ P x) l → filter P l = [].
Proof.
  induction 1 as [|x l Hx _ IH]; [done|]. by rewrite filter_cons_False.
Qed.

Lemma filter_all {A : Type} (P : A → Prop) `{∀ x, Decision (P x)}
    (l : list A) : Forall P l → filter P l = l.
Proof.
  induction 1 as [|x l Hx _ IH]; [done|]. by rewrite filter_cons_True, IH.
Qed.

Lemma filter_is_drop {A : Type} (P : A → Prop) `{∀ x, Decision (P x)}
    (l : list A) (k : nat) :
  (∀ i x, l !! i = Some x → i < k → ¬ P x) →
  (∀ i x, l !! i = Some x → k ≤ i → P x) →
  filter P l = drop k l.
Proof.
  intros Hlow Hhigh. rewrite <- (take_drop k l) at 1. rewrite filter_app.
  rewrite filter_none, filter_all; [done| |].
  - apply Forall_forall. intros x Hx.
    apply list_elem_of_lookup in Hx as [i Hi]. rewrite lookup_drop in Hi.
    apply (Hhigh _ _ Hi). lia.
  - apply Forall_forall. intros x Hx.
    apply list_elem_of_lookup in Hx as [i Hi].
    pose proof (lookup_lt_Some _ _ _ Hi) as Hlt. rewrite length_take in Hlt.
    rewrite lookup_take_lt in Hi by lia. apply (Hlow i x Hi). lia.
Qed.

Lemma row_with_nan_incomplete (d : Timestamp) (m : gmap string fval) (k : string) :
  m !! k = Some NaN → ¬ row_complete (d, m).
Proof. intros Hk Hc. by specialize (Hc k NaN Hk). Qed.

Lemma mac_bar_complete (self : MovingAverageCrossover) (data : DataFrame)
    (i : nat) (r : Timestamp * gmap string fval) :
  0 < mac_fast_period self → 0 < mac_slow_period self →
  Forall (λ r : Timestamp * gmap string fval,
            ∃ p, r.2 !! "close"%string = Some (Fin p)) (rows data) →
  rows data !! i = Some r → row_complete r →
  row_complete (mac_bar self data i r)
  ↔ Nat.max (mac_fast_period self) (mac_slow_period self) ≤ i + 1.
Proof.
  intros Hf Hs Hfin Hr Hc.
  assert (Hi : i < length (column data "close")).
  { rewrite length_column. by eapply lookup_lt_Some. }
  assert (Hcol : Forall (λ x, ∃ q, x = Fin q) (column data "close")).
  { unfold column. apply Forall_fmap. eapply Forall_impl; [exact Hfin|].
    intros r' [p Hp]. simpl. rewrite Hp. simpl. eauto. }
  unfold mac_bar. cbv zeta. split.
  - intros Hcomplete.
    destruct (decide (mac_fast_period self ≤ i + 1)) as [Hfi|Hfi];
      [destruct (decide (mac_slow_period self ≤ i + 1)) as [Hsi|Hsi]; [lia|]|];
      exfalso; revert Hcomplete.
    + apply (row_with_nan_incomplete _ _ "ma_slow").
      rewrite lookup_insert_ne by done. rewrite lookup_insert.
      by rewrite rolling_at_warm_up by lia.
    + apply (row_with_nan_incomplete _ _ "ma_fast").
      rewrite !lookup_insert_ne by done. rewrite lookup_insert.
      by rewrite rolling_at_warm_up by lia.
  - intros Hmax.
    destruct (rolling_mean_finite (mac_fast_period self) i _ Hf ltac:(lia) Hi Hcol)
      as [mf ->].
    destruct (rolling_mean_finite (mac_slow_period self) i _ Hs ltac:(lia) Hi Hcol)
      as [ms ->].
    unfold row_complete. cbn [snd].
    apply map_Forall_insert_2;
      [destruct (fltb _ _); [done|]; by destruct (fgtb _ _)|].
    apply map_Forall_insert_2; [done|].
    apply map_Forall_insert_2; [done|]. exact Hc.
Qed.

Lemma mac_rows_after_warm_up (self : MovingAverageCrossover) (data : DataFrame) :
  "close"%string ∈ columns data →
  0 < mac_fast_period self → 0 < mac_slow_period self →
  Forall (λ r : Timestamp * gmap string fval,
            row_complete r ∧ ∃ p, r.2 !! "close"%string = Some (Fin p))
         (rows data) →
  ∃ out,
    mac_generate_signals self data = Ok out ∧
    rows out
    = drop (Nat.max (mac_fast_period self) (mac_slow_period self) - 1)
           (imap (mac_bar self data) (rows data)).
Proof.
  intros Hclose Hf Hs Hclean.
  destruct (mac_generate_signals_rows self data Hclose) as (out & Hout & Hrows).
  exists out. split; [done|].
  assert (Hfin : Forall (λ r : Timestamp * gmap string fval,
                           ∃ p, r.2 !! "close"%string = Some (Fin p)) (rows data)).
  { eapply Forall_impl; [exact Hclean|]. by intros ? [_ ?]. }
  rewrite Forall_forall in Hclean.
  rewrite Hrows. apply filter_is_drop.
  - intros i x Hx Hi. apply list_lookup_imap_Some in Hx as (r & Hr & ->).
    rewrite mac_bar_complete; [lia|done..|].
    apply Hclean. by eapply list_elem_of_lookup_2.
  - intros i x Hx Hi. apply list_lookup_imap_Some in Hx as (r & Hr & ->).
    rewrite mac_bar_complete; [lia|done..|].
    apply Hclean. by eapply list_elem_of_lookup_2.
Qed.

(** X20: on bars without an undefined cell and with finite closes, and with
    positive periods, the crossover strategy drops exactly the first
    max(fast, slow) - 1 bars and keeps every later bar. *)
Theorem crossover_warm_up (self : MovingAverageCrossover) (data : DataFrame) :
  "close"%string ∈ columns data →
  0 < mac_fast_period self → 0 < mac_slow_period self →
  Forall (λ r : Timestamp * gmap string fval,
            row_complete r ∧ ∃ p, r.2 !! "close"%string = Some (Fin p))
         (rows data) →
  ∃ out,
    mac_generate_signals self data = Ok out ∧
    rows out
    = drop (Nat.max (mac_fast_period self) (mac_slow_period self) - 1)
           (imap (mac_bar self data) (rows data)) ∧
    length (rows out)
    = length (rows data)
      - (Nat.max (mac_fast_period self) (mac_slow_period self) - 1).
Proof.
  intros Hclose Hf Hs Hclean.
  destruct (mac_rows_after_warm_up self data Hclose Hf Hs Hclean)
    as (out & Hout & Hdrop).
  exists out. split; [done|]. split; [done|].
  by rewrite Hdrop, length_drop, length_imap.
Qed.

Lemma crossover_warm_up_witness :
  let self := {| mac_fast_period := 2; mac_slow_period := 3 |} in
  let data := closes [10; 10; 10; 12; 14; 16; 8; 8; 8]%Q in
  ∃ out,
    mac_generate_signals self data = Ok out ∧
    rows out = drop 2 (imap (mac_bar self data) (rows data)) ∧
    length (rows out) = 7.
Proof.
  intros self data. apply (crossover_warm_up self data).
  - simpl. left.
  - simpl. lia.
  - simpl. lia.
  - repeat constructor; try (simpl; eauto);
      apply map_Forall_singleton; reflexivity.
Defined.

(** X21: on a frame with fewer bars than the longer of the two periods the
    crossover strategy returns an empty frame, and [run_backtest] then
    raises the KeyError of [set_index('date')]. *)
Theorem crossover_short_history_raises (engine : BacktestEngine)
    (self : MovingAverageCrossover) (data : DataFrame) :
  "close"%string ∈ columns data →
  length (rows data) < Nat.max (mac_fast_period self) (mac_slow_period self) →
  (∃ out, mac_generate_signals self data = Ok out ∧ rows out = []) ∧
  run_backtest engine data self
  = Raise (KeyError "None of ['date'] are in the columns").
Proof.
  intros Hclose Hshort.
  destruct (mac_generate_signals_rows self data Hclose) as (out & Hout & Hrows).
  assert (Hnil : rows out = []).
  { rewrite Hrows. apply filter_none, Forall_forall. intros x Hx.
    apply list_elem_of_lookup in Hx as [i Hi].
    apply list_lookup_imap_Some in Hi as (r & Hr & ->).
    apply lookup_lt_Some in Hr. unfold mac_bar. cbv zeta.
    destruct (decide (i + 1 < mac_slow_period self)) as [Hsi|Hsi].
    - apply (row_with_nan_incomplete _ _ "ma_slow").
      rewrite lookup_insert_ne by done. rewrite lookup_insert.
      by rewrite rolling_at_warm_up by lia.
    - apply (row_with_nan_incomplete _ _ "ma_fast").
      rewrite !lookup_insert_ne by done. rewrite lookup_insert.
      by rewrite rolling_at_warm_up by lia. }
  split; [eauto|]. unfold run_backtest.
  change (generate_signals self data) with (mac_generate_signals self data).
  rewrite Hout. cbn [mbind result_bind]. unfold simulate, iterrows.
  rewrite Hnil. reflexivity.
Qed.

Lemma crossover_short_history_raises_witness :
  (∃ out, mac_generate_signals {| mac_fast_period := 2; mac_slow_period := 3 |}
            (closes [10; 11]%Q) = Ok out ∧ rows out = []) ∧
  run_backtest (engine 10000 0.001) (closes [10; 11]%Q)
    {| mac_fast_period := 2; mac_slow_period := 3 |}
  = Raise (KeyError "None of ['date'] are in the columns").
Proof.
  apply (crossover_short_history_raises (engine 10000 0.001)
           {| mac_fast_period := 2; mac_slow_period := 3 |} (closes [10; 11]%Q)).
  - simpl. left.
  - simpl. lia.
Defined.

(** ** From prices to an equity curve *)

Lemma run_backtest_on_positive_closes {Strat : Type} `{BaseStrategy Strat}
    (self : BacktestEngine) (data : DataFrame) (strategy : Strat)
    (signal_data : DataFrame) :
  generate_signals strategy data = Ok signal_data →
  iterrows signal_data ≠ [] →
  (0 <= initial_capital self)%Q →
  (0 <= commission self)%Q → (commission self <= 1)%Q →
  Forall (λ bar : Timestamp * gmap string fval,
            ∃ p, bar.2 !! "close"%string = Some (Fin p) ∧ (0 < p)%Q)
         (iterrows signal_data) →
  ∃ res,
    run_backtest self data strategy = Ok res ∧
    map snap_date (res_equity_curve res) = map fst (iterrows signal_data) ∧
    Forall (λ s, ∃ q, snap_cash s = Fin q ∧ (0 <= q)%Q) (res_equity_curve res).
Proof.
  intros Hgen Hne Hic Hc0 Hc1 Hbars.
  destruct (foldlM_cash self _ (init_state self) (initial_capital self)
              Hc0 Hc1 Hbars eq_refl Hic ltac:(done))
    as (st & new & Hrun & He & Hlen & Hall).
  destruct (foldlM_curve self _ _ _ Hrun) as (new' & He' & Hdates & _ & _ & Hlast).
  simpl in He, He'. assert (new' = new) as -> by congruence.
  unfold run_backtest. rewrite Hgen. cbn [mbind result_bind].
  unfold simulate. rewrite Hrun. cbn [mbind result_bind]. rewrite He.
  destruct new as [|s0 new]; [destruct (iterrows signal_data); done|].
  cbn [set_index_date mbind result_bind].
  destruct (last (s0 :: new)) as [s|] eqn:Hs; [|by apply last_None in Hs].
  destruct Hlast as [-> _]. eexists. split; [reflexivity|]. simpl. auto.
Qed.

Lemma mac_bar_close (self : MovingAverageCrossover) (data : DataFrame)
    (i : nat) (r : Timestamp * gmap string fval) :
  (mac_bar self data i r).1 = r.1 ∧
  (mac_bar self data i r).2 !! "close"%string = r.2 !! "close"%string.
Proof. unfold mac_bar. cbv zeta. simpl. by rewrite !lookup_insert_ne. Qed.

(** X22: on bars without an undefined cell and with positive closes, at least
    max(fast, slow) of them, with positive periods, a non-negative initial
    capital and a commission rate between 0 and 1, [run_backtest] with the
    crossover strategy returns; the equity curve is dated by the bars after
    the first max(fast, slow) - 1, and its cash is never negative. *)
Theorem crossover_backtest_completes (engine : BacktestEngine)
    (self : MovingAverageCrossover) (data : DataFrame) :
  "close"%string ∈ columns data →
  0 < mac_fast_period self → 0 < mac_slow_period self →
  Nat.max (mac_fast_period self) (mac_slow_period self) ≤ length (rows data) →
  (0 <= initial_capital engine)%Q →
  (0 <= commission engine)%Q → (commission engine <= 1)%Q →
  Forall (λ r : Timestamp * gmap string fval,
            row_complete r ∧
            ∃ p, r.2 !! "close"%string = Some (Fin p) ∧ (0 < p)%Q)
         (rows data) →
  ∃ res,
    run_backtest engine data self = Ok res ∧
    map snap_date (res_equity_curve res)
    = drop (Nat.max (mac_fast_period self) (mac_slow_period self) - 1)
           (map fst (rows data)) ∧
    Forall (λ s, ∃ q, snap_cash s = Fin q ∧ (0 <= q)%Q) (res_equity_curve res).
Proof.
  intros Hclose Hf Hs Hlen Hic Hc0 Hc1 Hclean.
  destruct (mac_rows_after_warm_up self data Hclose Hf Hs)
    as (out & Hout & Hdrop).
  { eapply Forall_impl; [exact Hclean|]. intros r (? & p & ? & ?). eauto. }
  set (k := Nat.max (mac_fast_period self) (mac_slow_period self) - 1) in *.
  destruct (run_backtest_on_positive_closes engine data self out)
    as (res & Hres & Hdates & Hcash); try done.
  - unfold iterrows. rewrite Hdrop. intros Hnil.
    apply (f_equal length) in Hnil.
    rewrite length_drop, length_imap in Hnil. simpl in Hnil. lia.
  - unfold iterrows. rewrite Hdrop. apply Forall_drop, Forall_forall.
    intros x Hx. apply list_elem_of_lookup in Hx as [i Hi].
    apply list_lookup_imap_Some in Hi as (r & Hr & ->).
    destruct (mac_bar_close self data i r) as [_ ->].
    rewrite Forall_forall in Hclean.
    destruct (Hclean r) as (_ & p & Hp & Hpos); [by eapply list_elem_of_lookup_2|].
    eauto.
  - exists res. split; [done|]. split; [|done].
    rewrite Hdates. unfold iterrows. rewrite Hdrop, fmap_drop. f_equal.
    apply list_eq. intros i. rewrite !list_lookup_fmap, list_lookup_imap.
    by destruct (rows data !! i) as [r|].
Qed.

Lemma crossover_backtest_completes_witness :
  let self := {| mac_fast_period := 2; mac_slow_period := 3 |} in
  let data := closes [10; 10; 10; 12; 14; 16; 8; 8; 8]%Q in
  ∃ res,
    run_backtest (engine 10000 0.001) data self = Ok res ∧
    map snap_date (res_equity_curve res) = drop 2 (map fst (rows data)) ∧
    Forall (λ s, ∃ q, snap_cash s = Fin q ∧ (0 <= q)%Q) (res_equity_curve res).
Proof.
  intros self data.
  apply (crossover_backtest_completes (engine 10000 0.001) self data).
  - simpl. left.
  - simpl. lia.
  - simpl. lia.
  - simpl. lia.
  - simpl. lra.
  - simpl. lra.
  - simpl. lra.
  - repeat constructor;
      try (simpl; eexists; split; [reflexivity|reflexivity]);
      apply map_Forall_singleton; reflexivity.
Defined.

(** ** The range of the RSI *)

Lemma series_sum_nonneg (s : Series) : ∀ a,
  Forall (λ x, ∃ q, x = Fin q ∧ (0 <= q)%Q) s →
  ∃ t, foldl fadd (Fin a) s = Fin t ∧ (a <= t)%Q.
Proof.
  induction s as [|x s IH]; intros a Hall; simpl.
  - exists a. split; [done|lra].
  - inversion Hall as [|? ? (q & -> & Hq) Hrest]; subst.
    destruct (IH (a + q)%Q Hrest) as (t & -> & Ht).
    exists t. split; [done|lra].
Qed.

Lemma mean_nonneg (s : Series) :
  s ≠ [] → Forall (λ x, ∃ q, x = Fin q ∧ (0 <= q)%Q) s →
  ∃ m, mean s = Fin m ∧ (0 <= m)%Q.
Proof.
  intros Hne Hall. unfold mean, series_sum.
  destruct (series_sum_nonneg s 0 Hall) as (t & -> & Ht).
  assert (Hn : (0 < inject_Z (Z.of_nat (length s)))%Q).
  { destruct s; [done|]. unfold Qlt, inject_Z. simpl. lia. }
  unfold of_Z. simpl. rewrite Qeq_bool_false_pos by done.
  eexists. split; [reflexivity|]. apply Qle_shift_div_l; [done|lra].
Qed.

Lemma up_move_nonneg (prices : Series) (j : nat) :
  Forall (λ x, ∃ q, x = Fin q) prices →
  ∃ q, up_move prices j = Fin q ∧ (0 <= q)%Q.
Proof.
  intros Hfin. unfold up_move. cbv zeta.
  destruct (fsub _ _) as [d| | |] eqn:Hd;
    try (exists 0%Q; split; [reflexivity|lra]).
  - unfold fgtb, fltb, of_Z. destruct (Qlt_bool (inject_Z 0) d) eqn:Hlt.
    + exists d. split; [done|]. apply Qlt_bool_true in Hlt.
      change (inject_Z 0) with 0%Q in Hlt. lra.
    + exists 0%Q. split; [reflexivity|lra].
  - exfalso. rewrite Forall_forall in Hfin.
    destruct (prices !! j) as [x|] eqn:Hx; [|done].
    destruct (Hfin x) as [q ->]; [by eapply list_elem_of_lookup_2|].
    destruct j as [|j]; [done|]. simpl in Hd.
    destruct (prices !! j) as [y|] eqn:Hy; [|done].
    destruct (Hfin y) as [q' ->]; [by eapply list_elem_of_lookup_2|]. done.
Qed.

Lemma down_move_nonneg (prices : Series) (j : nat) :
  Forall (λ x, ∃ q, x = Fin q) prices →
  ∃ q, down_move prices j = Fin q ∧ (0 <= q)%Q.
Proof.
  intros Hfin. unfold down_move. cbv zeta.
  destruct (fsub _ _) as [d| | |] eqn:Hd;
    try (exists (- 0)%Q; split; [reflexivity|lra]).
  - unfold fltb, of_Z. destruct (Qlt_bool d (inject_Z 0)) eqn:Hlt.
    + exists (- d)%Q. split; [done|]. apply Qlt_bool_true in Hlt.
      change (inject_Z 0) with 0%Q in Hlt. lra.
    + exists (- 0)%Q. split; [reflexivity|lra].
  - exfalso. rewrite Forall_forall in Hfin.
    destruct (prices !! j) as [x|] eqn:Hx; [|done].
    destruct (Hfin x) as [q ->]; [by eapply list_elem_of_lookup_2|].
    destruct j as [|j]; [done|]. simpl in Hd.
    destruct (prices !! j) as [y|] eqn:Hy; [|done].
    destruct (Hfin y) as [q' ->]; [by eapply list_elem_of_lookup_2|]. done.
Qed.

Lemma rsi_formula_range (g l : Q) :
  (0 <= g)%Q → (0 <= l)%Q →
  let v := fsub (of_Z 100)
             (fdiv (of_Z 100) (fadd (of_Z 1) (fdiv (Fin g) (Fin l)))) in
  (v = NaN ∧ (g == 0)%Q ∧ (l == 0)%Q) ∨
  ∃ r, v = Fin r ∧ (0 <= r)%Q ∧ (r <= 100)%Q ∧
       ((l == 0)%Q → (r == 100)%Q) ∧
       (¬ (l == 0)%Q → (r == 100 - 100 / (1 + g / l))%Q).
Proof.
  intros Hg Hl v. subst v. unfold of_Z.
  change (inject_Z 100) with 100%Q. change (inject_Z 1) with 1%Q.
  cbn [fdiv]. destruct (Qeq_bool l 0) eqn:Hl0.
  - apply Qeq_bool_iff in Hl0. destruct (g ?= 0)%Q eqn:Hg0.
    + left. apply Qeq_alt in Hg0. done.
    + apply Qlt_alt in Hg0. lra.
    + right. cbn. exists (100 + - 0)%Q. split; [done|].
      repeat split; first [lra | intros Hn; by destruct Hn].
  - right. apply Qeq_bool_neq in Hl0.
    assert (Hl1 : (0 < l)%Q) by lra.
    assert (Hq : (0 <= g / l)%Q) by (apply Qle_shift_div_l; lra).
    cbn [fadd fdiv]. rewrite Qeq_bool_false_pos by lra. cbn.
    eexists. split; [reflexivity|].
    assert (H0 : (0 <= 100 / (1 + g / l))%Q) by (apply Qle_shift_div_l; lra).
    assert (H1 : (100 / (1 + g / l) <= 100)%Q) by (apply Qle_shift_div_r; lra).
    repeat split; first [lra | intros Hz; by destruct Hl0 | intros _; reflexivity].
Qed.

(** X23: on finite prices every value of [calculate_rsi] is either undefined
    (NaN) or a finite number between 0 and 100. *)
Theorem rsi_is_undefined_or_within_0_100 (prices : list Q) (period i : nat)
    (v : fval) :
  calculate_rsi (map Fin prices) period !! i = Some v →
  v = NaN ∨ ∃ r, v = Fin r ∧ (0 <= r)%Q ∧ (r <= 100)%Q.
Proof.
  intros Hv.
  assert (Hi : i < length (map Fin prices)).
  { apply lookup_lt_Some in Hv. by rewrite length_calculate_rsi in Hv. }
  rewrite calculate_rsi_at in Hv by done. injection Hv as <-.
  unfold rsi_at. case_bool_decide as Hp; [|by left]. cbv zeta.
  assert (Hfin : Forall (λ x, ∃ q, x = Fin q) (map Fin prices)).
  { apply Forall_fmap, Forall_forall. simpl. eauto. }
  destruct period as [|period]; [by left|].
  set (js := seq _ _).
  assert (Hjs : js ≠ []) by done.
  destruct (mean_nonneg (map (up_move (map Fin prices)) js)) as (g & -> & Hg).
  { by destruct js. }
  { apply Forall_fmap, Forall_forall. intros j _. by apply up_move_nonneg. }
  destruct (mean_nonneg (map (down_move (map Fin prices)) js)) as (l & -> & Hl).
  { by destruct js. }
  { apply Forall_fmap, Forall_forall. intros j _. by apply down_move_nonneg. }
  destruct (rsi_formula_range g l Hg Hl) as [[-> _]|(r & -> & H0 & H1 & _)];
    [by left|right; eauto].
Qed.

Lemma rsi_is_undefined_or_within_0_100_witness :
  ∃ v, calculate_rsi (map Fin [1; 2; 1; 2]%Q) 2 !! 3%nat = Some v ∧
       (v = NaN ∨ ∃ r, v = Fin r ∧ (0 <= r)%Q ∧ (r <= 100)%Q).
Proof.
  eexists. split; [vm_compute; reflexivity|].
  apply (rsi_is_undefined_or_within_0_100 [1; 2; 1; 2]%Q 2 3).
  vm_compute. reflexivity.
Defined.

(** ** Volume momentum, bar by bar *)

Lemma length_ffill_from (s : Series) : ∀ last,
  length (ffill_from last s) = length s.
Proof. induction s as [|x s IH]; intros last; simpl; [done|]. by rewrite IH. Qed.

Lemma length_shift (n : nat) (s : Series) : length (shift n s) = length s.
Proof.
  unfold shift. rewrite length_take, length_app, length_replicate. lia.
Qed.

Lemma lookup_shift (n : nat) (s : Series) (i : nat) :
  i < length s → shift n s !! i = Some (ago s n i).
Proof.
  intros Hi. unfold shift, ago. rewrite lookup_take_lt by done.
  case_bool_decide as Hn.
  - rewrite lookup_app_r by (rewrite length_replicate; lia).
    rewrite length_replicate.
    destruct (lookup_lt_is_Some_2 s (i - n)) as [x ->]; [lia|done].
  - rewrite lookup_app_l by (rewrite length_replicate; lia).
    rewrite lookup_replicate_2 by lia. done.
Qed.

Lemma length_pct_change (n : nat) (s : Series) :
  length (pct_change n s) = length s.
Proof.
  unfold pct_change, series_div, ffill_series. cbv zeta.
  rewrite length_map, length_zip_with, length_shift, length_ffill_from. lia.
Qed.

Lemma lookup_pct_change (n : nat) (s : Series) (i : nat) :
  i < length s → pct_change n s !! i = Some (pct_at s n i).
Proof.
  intros Hi. unfold pct_change, pct_at, series_div. cbv zeta.
  assert (Hlen : i < length (ffill_series s))
    by (unfold ffill_series; by rewrite length_ffill_from).
  rewrite list_lookup_fmap, lookup_zip_with, lookup_shift by done.
  destruct (lookup_lt_is_Some_2 _ i Hlen) as [x ->]. done.
Qed.

Ltac len ::=
  unfold rolling_mean, rolling_std, diff, where_,
    series_add, series_sub, series_div, series_scale, series_neg;
  repeat first
    [ rewrite length_column | rewrite length_rolling | rewrite length_shift1
    | rewrite length_ewm | rewrite length_calculate_rsi
    | rewrite length_pct_change
    | rewrite length_rows_setitem
    | rewrite length_rows_setitem_scalar | rewrite length_rows_loc_set
    | rewrite length_zip_with | rewrite length_map | rewrite length_imap ];
  lia.

Lemma signal_over_price_ma (m : gmap string fval) (a b p : fval) :
  <["signal"%string := a]> (<["price_ma"%string := p]> (<["signal"%string := b]> m))
  = <["signal"%string := a]> (<["price_ma"%string := p]> m).
Proof.
  rewrite (insert_insert_ne _ "price_ma"%string "signal"%string) by done.
  apply insert_signal_twice.
Qed.

Lemma vm_generate_signals_rows (self : VolumeMomentumStrategy) (data : DataFrame) :
  "close"%string ∈ columns data → "volume"%string ∈ columns data →
  ∃ out,
    vm_generate_signals self data = Ok out ∧
    rows out = imap (vm_bar self data) (rows data).
Proof.
  intros Hclose Hvolume. unfold vm_generate_signals. cbv zeta. read_columns.
  eexists. split; [reflexivity|].
  rows_as_imap.
  apply imap_ext_lookup. intros i r Hr. unfold vm_bar. cbv beta zeta.
  assert (Hic : i < length (column data "close")).
  { rewrite length_column. by eapply lookup_lt_Some. }
  assert (Hiv : i < length (column data "volume")).
  { rewrite length_column. by eapply lookup_lt_Some. }
  unfold series_div, rolling_mean.
  rewrite !lookup_zip_with, !list_lookup_fmap, !lookup_zip_with.
  rewrite !lookup_rolling, !lookup_pct_change by done.
  rewrite !(lookup_column _ _ _ _ Hr). simpl.
  destruct (fltb _ _ && _ && _ && _); simpl;
    destruct (fgtb _ _ && _ && _ && _); simpl;
    rewrite ?insert_signal_twice, ?signal_over_price_ma; try done.
  by rewrite (insert_insert_ne _ "price_ma"%string "signal"%string).
Qed.

Lemma pct_at_warm_up (s : Series) (n i : nat) : i < n → pct_at s n i = NaN.
Proof.
  intros Hi. unfold pct_at, ago. cbv zeta.
  rewrite bool_decide_eq_false_2 by lia. by rewrite fdiv_nan_r.
Qed.

Lemma fltb_fgtb_exclusive (x y : fval) : fltb x y = true → fgtb x y = false.
Proof.
  unfold fgtb. destruct x as [a| | |], y as [b| | |]; simpl; try done.
  unfold Qlt_bool. intros Hlt. apply negb_true_iff in Hlt.
  apply negb_false_iff, Qle_bool_iff.
  destruct (Qlt_le_dec a b) as [Hab|Hab]; [lra|].
  apply Qle_bool_iff in Hab. congruence.
Qed.

(** X24: on a frame with ['close'] and ['volume'] columns the volume-momentum
    strategy returns and keeps every bar with its date; bar by bar its
    signal is -1 where momentum over the lookback is below minus the
    momentum threshold, momentum over 5 bars is negative, the ratio of
    volume to its average is above the volume threshold and close is below
    its average; else +1 where momentum is above the threshold, 5-bar
    momentum is positive, the volume ratio is above its threshold and close
    is above its average; else 0. *)
Theorem volume_momentum_bar_by_bar (self : VolumeMomentumStrategy)
    (data : DataFrame) :
  "close"%string ∈ columns data → "volume"%string ∈ columns data →
  ∃ out,
    vm_generate_signals self data = Ok out ∧
    rows out = imap (vm_bar self data) (rows data) ∧
    map fst (rows out) = map fst (rows data).
Proof.
  intros Hclose Hvolume.
  destruct (vm_generate_signals_rows self data Hclose Hvolume)
    as (out & Hout & Hrows).
  exists out. split; [done|]. split; [done|].
  rewrite Hrows. apply list_eq. intros i.
  rewrite !list_lookup_fmap, list_lookup_imap.
  by destruct (rows data !! i).
Qed.

Lemma volume_momentum_bar_by_bar_witness :
  let self := {| vm_lookback := 2; vm_volume_threshold := 1.5;
                 vm_momentum_threshold := 0.02 |} in
  let data := traded [(10, 100); (10, 100); (10, 100); (10, 100); (10, 100);
                      (11, 100); (12, 400); (11, 100); (9, 500)]%Q in
  ∃ out,
    vm_generate_signals self data = Ok out ∧
    rows out = imap (vm_bar self data) (rows data) ∧
    map fst (rows out) = map fst (rows data).
Proof.
  intros self data. apply (volume_momentum_bar_by_bar self data).
  - simpl. left.
  - simpl. right. left.
Defined.

(** X25: every bar that the volume-momentum strategy returns carries a
    signal -1, 0 or 1; the signal is 0 on the first max(lookback, 5) bars;
    a BUY has a positive 5-bar momentum and a SELL a negative one, so the
    two conditions never hold on the same bar. *)
Theorem volume_momentum_signals (self : VolumeMomentumStrategy)
    (data out : DataFrame) (i : nat) (bar : Timestamp * gmap string fval) :
  "close"%string ∈ columns data → "volume"%string ∈ columns data →
  vm_generate_signals self data = Ok out →
  rows out !! i = Some bar →
  ∃ s sm,
    bar.2 !! "signal"%string = Some s ∧
    bar.2 !! "short_momentum"%string = Some sm ∧
    (s = of_Z (-1) ∨ s = of_Z 0 ∨ s = of_Z 1) ∧
    (i < Nat.max (vm_lookback self) 5 → s = of_Z 0) ∧
    (s = of_Z 1 → fgtb sm (of_Z 0) = true) ∧
    (s = of_Z (-1) → fltb sm (of_Z 0) = true).
Proof.
  intros Hclose Hvolume Hout Hbar.
  destruct (vm_generate_signals_rows self data Hclose Hvolume)
    as (out' & Hout' & Hrows).
  assert (out' = out) as -> by congruence.
  rewrite Hrows in Hbar. apply list_lookup_imap_Some in Hbar as (r & Hr & ->).
  unfold vm_bar. cbv zeta. cbn [snd].
  eexists _, _. split; [apply lookup_insert_eq|].
  split; [by rewrite !lookup_insert_ne, lookup_insert_eq by done|].
  set (pm := pct_at _ (vm_lookback self) i).
  set (sm := pct_at _ 5 i).
  set (vr := fdiv _ _). set (c := default NaN _). set (ma := rolling_at _ _ _ _).
  assert (Hexcl : fltb sm (of_Z 0) = true → fgtb sm (of_Z 0) = false)
    by apply fltb_fgtb_exclusive.
  split; [|split; [|split]].
  - destruct (fltb pm _ && _ && _ && _); [auto|].
    destruct (fgtb pm _ && _ && _ && _); auto.
  - intros Hi.
    assert (Hnan : pm = NaN ∨ sm = NaN).
    { destruct (decide (i < vm_lookback self)).
      - left. by apply pct_at_warm_up.
      - right. apply pct_at_warm_up. lia. }
    destruct Hnan as [->| ->]; simpl.
    + done.
    + by rewrite !andb_false_r.
  - destruct (fltb pm _ && fltb sm _ && _ && _) eqn:Hsell; [done|].
    destruct (fgtb pm _ && fgtb sm _ && _ && _) eqn:Hbuy; [|done].
    intros _. by repeat (apply andb_prop in Hbuy as [Hbuy ?]).
  - destruct (fltb pm _ && fltb sm _ && _ && _) eqn:Hsell.
    + intros _. by repeat (apply andb_prop in Hsell as [Hsell ?]).
    + by destruct (fgtb pm _ && fgtb sm _ && _ && _).
Qed.

Lemma volume_momentum_signals_witness :
  let self := {| vm_lookback := 2; vm_volume_threshold := 1.5;
                 vm_momentum_threshold := 0.02 |} in
  let data := traded [(10, 100); (10, 100); (10, 100); (10, 100); (10, 100);
                      (11, 100); (12, 400); (11, 100); (9, 500)]%Q in
  ∃ out bar,
    vm_generate_signals self data = Ok out ∧
    rows out !! 6%nat = Some bar ∧
    ∃ s sm,
      bar.2 !! "signal"%string = Some s ∧
      bar.2 !! "short_momentum"%string = Some sm ∧
      (s = of_Z (-1) ∨ s = of_Z 0 ∨ s = of_Z 1) ∧
      (6 < Nat.max (vm_lookback self) 5 → s = of_Z 0) ∧
      (s = of_Z 1 → fgtb sm (of_Z 0) = true) ∧
      (s = of_Z (-1) → fltb sm (of_Z 0) = true).
Proof.
  intros self data. eexists _, _.
  split; [vm_compute; reflexivity|]. split; [reflexivity|].
  eapply (volume_momentum_signals self data _ 6).
  - simpl. left.
  - simpl. right. left.
  - vm_compute. reflexivity.
  - reflexivity.
Defined.

Lemma vm_bar_close (self : VolumeMomentumStrategy) (data : DataFrame)
    (i : nat) (r : Timestamp * gmap string fval) :
  (vm_bar self data i r).2 !! "close"%string = r.2 !! "close"%string.
Proof. unfold vm_bar. cbv zeta. simpl. by rewrite !lookup_insert_ne. Qed.

Lemma macd_bar_close (self : MACDStrategy) (data : DataFrame)
    (i : nat) (r : Timestamp * gmap string fval) :
  (macd_bar self data i r).2 !! "close"%string = r.2 !! "close"%string.
Proof. unfold macd_bar. cbv zeta. simpl. by rewrite !lookup_insert_ne. Qed.

Lemma imap_keeps_closes (f : nat → Timestamp * gmap string fval
                                 → Timestamp * gmap string fval)
    (l : list (Timestamp * gmap string fval)) :
  (∀ i r, (f i r).1 = r.1 ∧ (f i r).2 !! "close"%string = r.2 !! "close"%string) →
  Forall (λ r : Timestamp * gmap string fval,
            ∃ p, r.2 !! "close"%string = Some (Fin p) ∧ (0 < p)%Q) l →
  map fst (imap f l) = map fst l ∧
  Forall (λ r : Timestamp * gmap string fval,
            ∃ p, r.2 !! "close"%string = Some (Fin p) ∧ (0 < p)%Q) (imap f l).
Proof.
  intros Hf Hl. split.
  - apply list_eq. intros i. rewrite !list_lookup_fmap, list_lookup_imap.
    destruct (l !! i) as [r|]; simpl; [|done]. f_equal. apply Hf.
  - apply Forall_forall. intros x Hx. apply list_elem_of_lookup in Hx as [i Hi].
    apply list_lookup_imap_Some in Hi as (r & Hr & ->).
    destruct (Hf i r) as [_ ->]. rewrite Forall_forall in Hl.
    apply Hl. by eapply list_elem_of_lookup_2.
Qed.

(** X26: on a non-empty frame of bars with positive closes, with a
    non-negative initial capital and a commission rate between 0 and 1,
    [run_backtest] with the MACD strategy, its periods at least 1, returns
    an equity curve with one snapshot for every input bar; so does the
    volume-momentum strategy when the frame has a ['volume'] column. *)
Theorem backtest_without_warm_up_keeps_every_bar (engine : BacktestEngine)
    (macd : MACDStrategy) (vm : VolumeMomentumStrategy) (data : DataFrame) :
  "close"%string ∈ columns data →
  rows data ≠ [] →
  (0 <= initial_capital engine)%Q →
  (0 <= commission engine)%Q → (commission engine <= 1)%Q →
  Forall (λ r : Timestamp * gmap string fval,
            ∃ p, r.2 !! "close"%string = Some (Fin p) ∧ (0 < p)%Q)
         (rows data) →
  (1 ≤ macd_fast_period macd → 1 ≤ macd_slow_period macd →
   1 ≤ macd_signal_period macd →
   ∃ res,
     run_backtest engine data macd = Ok res ∧
     map snap_date (res_equity_curve res) = map fst (rows data)) ∧
  ("volume"%string ∈ columns data →
   ∃ res,
     run_backtest engine data vm = Ok res ∧
     map snap_date (res_equity_curve res) = map fst (rows data)).
Proof.
  intros Hclose Hne Hic Hc0 Hc1 Hpos. split.
  - intros Hfast Hslow Hsignal.
    destruct (macd_generate_signals_rows macd data Hclose Hfast Hslow Hsignal)
      as (out & Hout & Hrows).
    destruct (imap_keeps_closes (macd_bar macd data) (rows data)) as [Hd Hc];
      [intros i r; split; [done|apply macd_bar_close] | done |].
    destruct (run_backtest_on_positive_closes engine data macd out)
      as (res & Hres & Hdates & _); try done.
    + unfold iterrows. rewrite Hrows. intros Hnil.
      apply (f_equal length) in Hnil. rewrite length_imap in Hnil.
      by destruct (rows data).
    + unfold iterrows. by rewrite Hrows.
    + exists res. split; [done|]. rewrite Hdates. unfold iterrows.
      by rewrite Hrows.
  - intros Hvolume.
    destruct (vm_generate_signals_rows vm data Hclose Hvolume)
      as (out & Hout & Hrows).
    destruct (imap_keeps_closes (vm_bar vm data) (rows data)) as [Hd Hc];
      [intros i r; split; [done|apply vm_bar_close] | done |].
    destruct (run_backtest_on_positive_closes engine data vm out)
      as (res & Hres & Hdates & _); try done.
    + unfold iterrows. rewrite Hrows. intros Hnil.
      apply (f_equal length) in Hnil. rewrite length_imap in Hnil.
      by destruct (rows data).
    + unfold iterrows. by rewrite Hrows.
    + exists res. split; [done|]. rewrite Hdates. unfold iterrows.
      by rewrite Hrows.
Qed.

Lemma backtest_without_warm_up_keeps_every_bar_witness :
  let macd := {| macd_fast_period := 2; macd_slow_period := 3;
                 macd_signal_period := 2 |} in
  let vm := {| vm_lookback := 2; vm_volume_threshold := 1.5;
               vm_momentum_threshold := 0.02 |} in
  let data := traded [(10, 100); (10, 100); (10, 100); (10, 100); (10, 100);
                      (11, 100); (12, 400); (11, 100); (9, 500)]%Q in
  (∃ res,
     run_backtest (engine 10000 0.001) data macd = Ok res ∧
     map snap_date (res_equity_curve res) = map fst (rows data)) ∧
  (∃ res,
     run_backtest (engine 10000 0.001) data vm = Ok res ∧
     map snap_date (res_equity_curve res) = map fst (rows data)).
Proof.
  intros macd vm data.
  destruct (backtest_without_warm_up_keeps_every_bar (engine 10000 0.001)
              macd vm data) as [Hmacd Hvm].
  - simpl. left.
  - discriminate.
  - simpl. lra.
  - simpl. lra.
  - simpl. lra.
  - repeat constructor; simpl; eexists; (split; [reflexivity|reflexivity]).
  - split.
    + apply Hmacd; simpl; lia.
    + apply Hvm. simpl. right. left.
Defined.

(** * Further properties of [prepare_data] *)

Lemma ffill_from_valid (s : Series) : ∀ l,
  is_nan l = false → Forall (λ x, is_nan x = false) (ffill_from l s).
Proof.
  induction s as [|x s IH]; intros l Hl; simpl; [done|].
  destruct (is_nan x) eqn:Hx; constructor; auto.
Qed.

Lemma lookup_ffill_from_valid (s : Series) : ∀ l i x,
  s !! i = Some x → is_nan x = false → ffill_from l s !! i = Some x.
Proof.
  induction s as [|y s IH]; intros l [|i] x Hx Hv; simpl in *; try done.
  - injection Hx as ->. by rewrite Hv.
  - by apply IH.
Qed.

Lemma length_ffill_from' (s : Series) (l : fval) :
  length (ffill_from l s) = length s.
Proof. apply length_ffill_from. Qed.

Lemma last_ffill_from_valid (s : Series) : ∀ l,
  is_nan l = false ∨ Exists (λ x, is_nan x = false) s → s ≠ [] →
  ∃ x, last (ffill_from l s) = Some x ∧ is_nan x = false.
Proof.
  induction s as [|y s IH]; intros l Hl Hne; [done|]. simpl.
  set (y' := if is_nan y then l else y).
  assert (Hy' : is_nan y' = false ∨ Exists (λ x, is_nan x = false) s).
  { subst y'. destruct Hl as [Hl|Hex].
    - left. by destruct (is_nan y) eqn:Hy.
    - inversion Hex as [? ? Hy|]; subst; [left; by rewrite Hy|by right]. }
  destruct s as [|z s].
  - simpl. exists y'. split; [done|].
    destruct Hy' as [|Hex]; [done|inversion Hex].
  - destruct (IH y' Hy' ltac:(done)) as (x & Hx & Hv).
    exists x. split; [|done]. simpl in *. exact Hx.
Qed.

Lemma fill_both_ways_valid (s : Series) :
  Exists (λ x, is_nan x = false) s →
  Forall (λ x, is_nan x = false)
         (reverse (ffill_series (reverse (ffill_series s)))).
Proof.
  intros Hex. unfold ffill_series.
  assert (Hne : s ≠ []) by (intros ->; inversion Hex).
  destruct (last_ffill_from_valid s NaN (or_intror Hex) Hne) as (x & Hx & Hv).
  rewrite <- head_reverse in Hx. apply head_Some in Hx as [t Ht].
  rewrite Ht. simpl. rewrite Hv. apply Forall_reverse.
  constructor; [done|]. by apply ffill_from_valid.
Qed.

Lemma fill_both_ways_keeps_valid (s : Series) (i : nat) (x : fval) :
  s !! i = Some x → is_nan x = false →
  reverse (ffill_series (reverse (ffill_series s))) !! i = Some x.
Proof.
  intros Hx Hv. unfold ffill_series.
  pose proof (lookup_lt_Some _ _ _ Hx) as Hi.
  rewrite reverse_lookup by (rewrite length_ffill_from, length_reverse,
                               length_ffill_from; done).
  rewrite length_ffill_from, length_reverse, length_ffill_from.
  apply lookup_ffill_from_valid; [|done].
  rewrite reverse_lookup by (rewrite length_ffill_from; lia).
  rewrite length_ffill_from.
  replace (length s - S (length s - S i)) with i by lia.
  by apply lookup_ffill_from_valid.
Qed.

Lemma column_ffill_rows (k : string) :
  ∀ (rs : list (Timestamp * gmap string fval)) (last : gmap string fval),
  map_Forall (λ _ v, is_nan v = false) last →
  Forall (λ r : Timestamp * gmap string fval, is_Some (r.2 !! k)) rs →
  map (λ r : Timestamp * gmap string fval, default NaN (r.2 !! k))
      (ffill_rows last rs)
  = ffill_from (default NaN (last !! k))
      (map (λ r : Timestamp * gmap string fval, default NaN (r.2 !! k)) rs) ∧
  map fst (ffill_rows last rs) = map fst rs ∧
  Forall (λ r : Timestamp * gmap string fval, is_Some (r.2 !! k))
         (ffill_rows last rs).
Proof.
  induction rs as [|[d r] rs IH]; intros last Hlast Hkeys; [done|].
  inversion Hkeys as [|? ? [v Hv] Hrest]; subst. simpl in Hv.
  cbn [ffill_rows map fst snd].
  set (r' := map_imap _ r).
  set (x' := if is_nan v then default v (last !! k) else v).
  assert (Hr' : r' !! k = Some x').
  { subst r'. rewrite map_lookup_imap, Hv. done. }
  assert (Hnext : map_Forall (λ _ v, is_nan v = false)
                    (filter (λ kv : string * fval, is_nan kv.2 = false) r' ∪ last)).
  { apply map_Forall_union_2; [|done].
    intros j y Hj. apply map_lookup_filter_Some in Hj as [_ Hy]. done. }
  assert (Hx' : default NaN
                  ((filter (λ kv : string * fval, is_nan kv.2 = false) r' ∪ last)
                     !! k) = x').
  { destruct (is_nan x') eqn:Hnan.
    - rewrite lookup_union_r.
      + subst x'. destruct (is_nan v) eqn:Hvn; [|congruence].
        destruct (last !! k) as [y|] eqn:Hy; simpl in *.
        * specialize (Hlast k y Hy). simpl in Hlast. congruence.
        * by destruct v.
      + apply map_lookup_filter_None. right. intros y Hy. simpl.
        rewrite Hr' in Hy. injection Hy as <-. congruence.
    - rewrite lookup_union_l'.
      + erewrite map_lookup_filter_Some_2; [done|exact Hr'|done].
      + exists x'. by apply map_lookup_filter_Some_2. }
  destruct (IH _ Hnext Hrest) as (Hcol & Hdates & Hk).
  split; [|split].
  - rewrite Hcol, Hx', Hr', Hv. simpl.
    assert (Heq : x' = if is_nan v then default NaN (last !! k) else v)
      by (subst x'; by destruct v).
    by rewrite Heq.
  - by rewrite Hdates.
  - constructor; [|done]. cbn [snd]. rewrite Hr'. by eexists.
Qed.

Lemma column_ffill (df : DataFrame) (k : string) :
  Forall (λ r : Timestamp * gmap string fval, is_Some (r.2 !! k)) (rows df) →
  column (ffill df) k = ffill_series (column df k) ∧
  map fst (rows (ffill df)) = map fst (rows df) ∧
  Forall (λ r : Timestamp * gmap string fval, is_Some (r.2 !! k))
         (rows (ffill df)).
Proof.
  intros Hkeys. unfold column, ffill, ffill_series. cbn [rows].
  destruct (column_ffill_rows k (rows df) ∅) as (Hcol & Hdates & Hk);
    [apply map_Forall_empty | done |].
  rewrite lookup_empty in Hcol. done.
Qed.

Lemma column_bfill (df : DataFrame) (k : string) :
  Forall (λ r : Timestamp * gmap string fval, is_Some (r.2 !! k)) (rows df) →
  column (bfill df) k = reverse (ffill_series (reverse (column df k))) ∧
  map fst (rows (bfill df)) = map fst (rows df).
Proof.
  intros Hkeys. unfold column, bfill, ffill_series. cbn [rows].
  destruct (column_ffill_rows k (reverse (rows df)) ∅) as (Hcol & Hdates & Hk);
    [apply map_Forall_empty | by apply Forall_reverse |].
  rewrite lookup_empty in Hcol. simpl in Hcol.
  change (map ?f ?l) with (f <$> l) in *.
  split.
  - by rewrite fmap_reverse, Hcol, fmap_reverse.
  - by rewrite fmap_reverse, Hdates, fmap_reverse, reverse_involutive.
Qed.

Lemma required_columns_present (data : DataFrame) :
  Forall (λ col, col ∈ columns data) required_columns →
  prepare_data data = Ok (bfill (ffill data)).
Proof.
  intros Hreq. unfold prepare_data, required_columns in *.
  repeat (apply Forall_cons in Hreq as [? Hreq]).
  simpl. by rewrite !bool_decide_eq_true_2.
Qed.

(** X27: on a frame with the five required columns [prepare_data] returns a
    frame with the same columns and dates; in a column that every row has,
    a cell that was defined is unchanged, and if the column has a defined
    cell at all, no cell of it is undefined afterwards. *)
Theorem prepare_data_fills_gaps (data : DataFrame) (k : string) :
  Forall (λ col, col ∈ columns data) required_columns →
  Forall (λ r : Timestamp * gmap string fval, is_Some (r.2 !! k)) (rows data) →
  ∃ out,
    prepare_data data = Ok out ∧
    columns out = columns data ∧
    map fst (rows out) = map fst (rows data) ∧
    (∀ i x, column data k !! i = Some x → is_nan x = false →
            column out k !! i = Some x) ∧
    (Exists (λ x, is_nan x = false) (column data k) →
     Forall (λ x, is_nan x = false) (column out k)).
Proof.
  intros Hreq Hkeys. exists (bfill (ffill data)).
  split; [by apply required_columns_present|]. split; [done|].
  destruct (column_ffill data k Hkeys) as (Hf & Hfd & Hfk).
  destruct (column_bfill (ffill data) k Hfk) as (Hb & Hbd).
  rewrite Hb, Hf. split; [congruence|]. split.
  - intros i x Hx Hv. by apply fill_both_ways_keeps_valid.
  - apply fill_both_ways_valid.
Qed.

Lemma prepare_data_fills_gaps_witness :
  let data :=
    market_data [ohlcv 1 (Fin 9) (Fin 11) (Fin 8) NaN (Fin 100);
                 ohlcv 2 (Fin 10) (Fin 12) (Fin 9) (Fin 10) (Fin 120);
                 ohlcv 3 (Fin 10) (Fin 12) (Fin 9) NaN (Fin 90)] in
  ∃ out,
    prepare_data data = Ok out ∧
    columns out = columns data ∧
    map fst (rows out) = map fst (rows data) ∧
    (∀ i x, column data "Close" !! i = Some x → is_nan x = false →
            column out "Close" !! i = Some x) ∧
    (Exists (λ x, is_nan x = false) (column data "Close") →
     Forall (λ x, is_nan x = false) (column out "Close")).
Proof.
  intros data. apply (prepare_data_fills_gaps data "Close").
  - repeat constructor.
  - repeat constructor; eexists; vm_compute; reflexivity.
Defined.

(** * Portfolio risk metrics *)

Lemma positive_values (f : EquitySnapshot → fval) (l : list EquitySnapshot) :
  Forall (λ s, ∃ q, f s = Fin q ∧ (0 < q)%Q) l →
  ∃ qs, map f l = map Fin qs ∧ Forall (λ q, 0 < q)%Q qs.
Proof.
  induction 1 as [|s l (q & Hq & Hpos) _ (qs & Hqs & Hall)].
  - by exists [].
  - exists (q :: qs). simpl. rewrite Hq, Hqs. by split; [|constructor].
Qed.

Lemma length_expanding_max_from (s : Series) : ∀ best,
  length (expanding_max_from best s) = length s.
Proof. induction s as [|x s IH]; intros best; simpl; [done|]. by rewrite IH. Qed.

(** X28: on an equity curve with positive portfolio values and at least 30
    defined returns, [calculate_portfolio_risk_metrics] returns its
    metrics: ['portfolio_value'] is the value of the last snapshot, and
    ['current_drawdown'] is a finite percentage that is at most 0 and not
    deeper than [calculate_max_drawdown] of the same curve. *)
Theorem current_drawdown_within_max_drawdown (sqrtQ : Q → Q)
    (self : BacktestEngine) (res : BacktestResult) :
  Forall (λ s, ∃ q, snap_portfolio_value s = Fin q ∧ (0 < q)%Q)
         (res_equity_curve res) →
  30 ≤ length (dropna_series (map snap_returns (res_equity_curve res))) →
  ∃ metrics d m s,
    calculate_portfolio_risk_metrics sqrtQ self (res_equity_curve res)
    = Ok metrics ∧
    metrics !! "current_drawdown"%string = Some (Fin d) ∧
    calculate_max_drawdown res = Fin m ∧
    (d <= 0)%Q ∧ (- d <= m)%Q ∧
    last (res_equity_curve res) = Some s ∧
    metrics !! "portfolio_value"%string = Some (snap_portfolio_value s).
Proof.
  intros Hvalues Hlen.
  destruct (positive_values _ _ Hvalues) as (qs & Hqs & Hpos).
  assert (Hne : qs ≠ []).
  { intros ->. destruct (res_equity_curve res); [simpl in Hlen; lia|done]. }
  destruct (max_drawdown_finite res qs Hqs Hne Hpos)
    as (m & Hm & _ & _ & Hdom & _).
  unfold calculate_portfolio_risk_metrics.
  destruct (res_equity_curve res) as [|s0 ec] eqn:Hec; [by destruct qs|].
  rewrite bool_decide_eq_false_2 by lia. cbv zeta.
  destruct (last (s0 :: ec)) as [s|] eqn:Hs; [|by apply last_None in Hs].
  assert (Hj : ∃ v, qs !! (length qs - 1) = Some v ∧ snap_portfolio_value s = Fin v).
  { destruct (lookup_lt_is_Some_2 qs (length qs - 1)) as [v Hv];
      [destruct qs; [done|simpl; lia]|].
    exists v. split; [done|].
    assert (Hl : last (map snap_portfolio_value (s0 :: ec))
                 = Some (snap_portfolio_value s)) by (by rewrite fmap_last, Hs).
    rewrite Hqs, last_lookup, list_lookup_fmap, length_map in Hl.
    replace (Nat.pred (length qs)) with (length qs - 1) in Hl by lia.
    rewrite Hv in Hl. simpl in Hl. congruence. }
  destruct Hj as (v & Hv & Hsv).
  destruct (expanding_max_lookup qs None (length qs - 1) v ltac:(done) Hv)
    as (pk & Hpk & Hall & _ & Hor).
  destruct Hor as [(i & Hi & Hpki)|?]; [|done].
  assert (Hv0 : (0 < v)%Q).
  { rewrite Forall_forall in Hpos. apply Hpos. by eapply list_elem_of_lookup_2. }
  assert (Hvpk : (v <= pk)%Q) by (by apply (Hall (length qs - 1))).
  assert (Hlast_pv : last (map snap_portfolio_value (s0 :: ec)) = Some (Fin v))
    by (by rewrite fmap_last, Hs, <- Hsv).
  assert (Hlast_pk : last (expanding_max (map snap_portfolio_value (s0 :: ec)))
                     = Some (Fin pk)).
  { rewrite Hqs, last_lookup. unfold expanding_max.
    rewrite length_expanding_max_from, length_map.
    replace (Nat.pred (length qs)) with (length qs - 1) by lia. done. }
  rewrite Hlast_pv, Hlast_pk. cbn [default].
  eexists _, _, m, s. split; [reflexivity|].
  split.
  { rewrite !lookup_insert_ne by done. rewrite lookup_insert_eq.
    unfold of_Z. simpl. rewrite Qeq_bool_false_pos by lra. reflexivity. }
  split; [done|].
  change (inject_Z 100) with 100%Q.
  assert (Hd : ((v + - pk) / pk <= 0)%Q) by (apply Qle_shift_div_r; lra).
  specialize (Hdom i (length qs - 1) pk v Hi Hpki Hv).
  assert (Heq : ((pk - v) / pk == - ((v + - pk) / pk))%Q) by (field; lra).
  rewrite Heq in Hdom. revert Hd Hdom. generalize ((v + - pk) / pk)%Q.
  intros a Ha Hdom.
  split; [lra|]. split; [lra|]. split; [done|].
  rewrite !lookup_insert_ne by done. rewrite lookup_singleton_eq. by rewrite Hsv.
Qed.

Lemma current_drawdown_within_max_drawdown_witness :
  ∃ res,
    run_backtest (engine 10000 0.001) falling_month precomputed = Ok res ∧
    ∃ metrics d m s,
      calculate_portfolio_risk_metrics sqrt_floor (engine 10000 0.001)
        (res_equity_curve res) = Ok metrics ∧
      metrics !! "current_drawdown"%string = Some (Fin d) ∧
      calculate_max_drawdown res = Fin m ∧
      (d <= 0)%Q ∧ (- d <= m)%Q ∧
      last (res_equity_curve res) = Some s ∧
      metrics !! "portfolio_value"%string = Some (snap_portfolio_value s).
Proof.
  eexists. split; [vm_compute; reflexivity|].
  apply (current_drawdown_within_max_drawdown sqrt_floor (engine 10000 0.001)).
  - repeat constructor; eexists; (split; [reflexivity|reflexivity]).
  - vm_compute. lia.
Defined.

(** * Metrics of a back-test that never trades *)

Lemma series_sum_zero (s : Series) : ∀ a,
  Forall (λ x, ∃ q, x = Fin q ∧ (q == 0)%Q) s →
  ∃ t, foldl fadd (Fin a) s = Fin t ∧ (t == a)%Q.
Proof.
  induction s as [|x s IH]; intros a Hall; simpl.
  - by exists a.
  - inversion Hall as [|? ? (q & -> & Hq) Hrest]; subst.
    destruct (IH (a + q)%Q Hrest) as (t & -> & Ht).
    exists t. split; [done|]. rewrite Ht, Hq. ring.
Qed.

Lemma mean_zero (s : Series) :
  s ≠ [] → Forall (λ x, ∃ q, x = Fin q ∧ (q == 0)%Q) s →
  ∃ m, mean s = Fin m ∧ (m == 0)%Q.
Proof.
  intros Hne Hall. unfold mean, series_sum.
  destruct (series_sum_zero s 0 Hall) as (t & -> & Ht).
  assert (Hn : (0 < inject_Z (Z.of_nat (length s)))%Q).
  { destruct s; [done|]. unfold Qlt, inject_Z. simpl. lia. }
  unfold of_Z. simpl. rewrite Qeq_bool_false_pos by done.
  eexists. split; [reflexivity|]. rewrite Ht. field. lra.
Qed.

Lemma std_zero (sqrtQ : Q → Q) (s : Series) :
  (∀ y, (y == 0)%Q → (sqrtQ y == 0)%Q) →
  2 ≤ length s → Forall (λ x, ∃ q, x = Fin q ∧ (q == 0)%Q) s →
  ∃ d, std sqrtQ s = Fin d ∧ (d == 0)%Q.
Proof.
  intros Hsqrt Hlen Hall. unfold std.
  rewrite bool_decide_eq_false_2 by lia. cbv zeta.
  destruct (mean_zero s) as (m & -> & Hm);
    [intros ->; simpl in Hlen; lia | done |].
  assert (Hsq : Forall (λ x, ∃ q, x = Fin q ∧ (q == 0)%Q)
                  (map (λ x, fmul (fsub x (Fin m)) (fsub x (Fin m))) s)).
  { apply Forall_fmap. eapply Forall_impl; [exact Hall|].
    intros x (q & -> & Hq). simpl. eexists. split; [reflexivity|].
    rewrite Hq, Hm. ring. }
  unfold series_sum.
  destruct (series_sum_zero _ 0 Hsq) as (t & -> & Ht).
  assert (Hn : (0 < inject_Z (Z.of_nat (length s) - 1))%Q).
  { unfold Qlt, inject_Z. simpl. lia. }
  unfold of_Z. simpl. rewrite Qeq_bool_false_pos by done.
  assert (Hy : (t / inject_Z (Z.of_nat (length s) - 1) == 0)%Q).
  { rewrite Ht. field. lra. }
  unfold fsqrt, Qlt_bool.
  rewrite (proj2 (Qle_bool_iff 0 _)) by (rewrite Hy; lra).
  simpl. eexists. split; [reflexivity|]. by apply Hsqrt.
Qed.

Lemma hold_returns_zero (ic : Q) (ec : list EquitySnapshot) : ∀ prev,
  ¬ (ic == 0)%Q → (prev == ic)%Q →
  returns_chain (Fin prev) ec →
  Forall (λ s, same (snap_portfolio_value s) (Fin ic)) ec →
  Forall (λ x, ∃ q, x = Fin q ∧ (q == 0)%Q) (map snap_returns ec).
Proof.
  induction ec as [|s ec IH]; intros prev Hic Hprev Hchain Hsame; [done|].
  destruct Hchain as [Hr Hchain].
  inversion Hsame as [|? ? Hs Hrest]; subst.
  destruct (snap_portfolio_value s) as [a| | |] eqn:Ha; try done. simpl in Hs.
  simpl. constructor.
  - rewrite Hr. simpl.
    assert (Hp0 : Qeq_bool prev 0 = false).
    { apply not_true_is_false. intros H0. apply Qeq_bool_iff in H0.
      apply Hic. by rewrite <- Hprev. }
    rewrite Hp0. eexists. split; [reflexivity|]. rewrite Hs, Hprev. field. done.
  - by apply (IH a).
Qed.

(** X29: a back-test over at least two bars with finite closes whose signals
    are all HOLD, from an initial capital other than 0, has a Sharpe ratio,
    a Sortino ratio, a win rate and a profit factor of 0 (for a square root
    that maps 0 to 0). *)
Theorem idle_backtest_has_zero_ratios {Strat : Type} `{BaseStrategy Strat}
    (sqrtQ : Q → Q) (self : BacktestEngine) (data : DataFrame)
    (strategy : Strat) (signal_data : DataFrame) (risk_free_rate : Q) :
  (∀ y, (y == 0)%Q → (sqrtQ y == 0)%Q) →
  generate_signals strategy data = Ok signal_data →
  2 ≤ length (iterrows signal_data) →
  ¬ (initial_capital self == 0)%Q →
  Forall (λ bar : Timestamp * gmap string fval,
            (∃ p, bar.2 !! "close"%string = Some (Fin p)) ∧
            feqb (row_get bar.2 "signal" (of_Z 0)) (of_Z 1) = false ∧
            feqb (row_get bar.2 "signal" (of_Z 0)) (of_Z (-1)) = false)
         (iterrows signal_data) →
  ∃ res,
    run_backtest self data strategy = Ok res ∧
    calculate_sharpe_ratio sqrtQ res risk_free_rate = Fin 0 ∧
    calculate_sortino_ratio sqrtQ res risk_free_rate = of_Z 0 ∧
    calculate_win_rate res = Fin 0 ∧
    calculate_profit_factor res = of_Z 0.
Proof.
  intros Hsqrt Hgen Hlen Hic Hbars.
  destruct (run_backtest_hold self data strategy signal_data Hgen)
    as (res & Hres & Htrades & Hn & Hsame & _);
    [intros Hnil; rewrite Hnil in Hlen; simpl in Hlen; lia | done |].
  destruct (run_backtest_returns_chain self data strategy res Hres)
    as [Hchain _].
  pose proof (hold_returns_zero _ _ _ Hic (Qeq_refl _) Hchain Hsame) as Hzero.
  assert (Hdrop : dropna_series (returns_of res) = returns_of res).
  { apply dropna_series_finite. eapply Forall_impl; [exact Hzero|].
    intros x (q & -> & _). eauto. }
  assert (Hrl : length (returns_of res) = length (iterrows signal_data))
    by (unfold returns_of; by rewrite length_map).
  exists res. split; [done|]. split; [|split; [|split]].
  - unfold calculate_sharpe_ratio. cbv zeta. rewrite Hdrop.
    destruct (std_zero sqrtQ (returns_of res) Hsqrt ltac:(lia) Hzero)
      as (d & -> & Hd).
    unfold of_Z. simpl. apply Qeq_bool_iff in Hd.
    change (inject_Z 0) with 0%Q. rewrite Hd. by rewrite orb_true_r.
  - unfold calculate_sortino_ratio. cbv zeta. rewrite Hdrop.
    rewrite bool_decide_eq_false_2 by lia.
    assert (Hneg : List.filter (λ r, fltb r (of_Z 0)) (returns_of res) = []).
    { clear - Hzero. unfold returns_of.
      induction Hzero as [|x l (q & -> & Hq) _ IH]; [done|]. simpl.
      unfold fltb, of_Z. rewrite (proj2 (Qlt_bool_false q (inject_Z 0))); [done|].
      change (inject_Z 0) with 0%Q. lra. }
    rewrite Hneg. simpl.
    destruct (mean_zero (returns_of res)) as (m & -> & Hm);
      [destruct (returns_of res); [simpl in Hrl; lia|done] | done |].
    unfold fgtb, fltb, of_Z. rewrite (proj2 (Qlt_bool_false _ _)); [done|].
    change (inject_Z 0) with 0%Q. lra.
  - unfold calculate_win_rate, total_trades. by rewrite Htrades.
  - unfold calculate_profit_factor. by rewrite Htrades.
Qed.

Lemma idle_backtest_has_zero_ratios_witness :
  ∃ res,
    run_backtest (engine 10000 0.001) (closes [100; 101; 99]%Q) precomputed
    = Ok res ∧
    calculate_sharpe_ratio sqrt_floor res 0.02 = Fin 0 ∧
    calculate_sortino_ratio sqrt_floor res 0.02 = of_Z 0 ∧
    calculate_win_rate res = Fin 0 ∧
    calculate_profit_factor res = of_Z 0.
Proof.
  apply (idle_backtest_has_zero_ratios sqrt_floor (engine 10000 0.001)
           (closes [100; 101; 99]%Q) precomputed (closes [100; 101; 99]%Q)).
  - intros [n d] Hy. unfold Qeq in *. simpl in *.
    assert (n = 0%Z) as -> by lia. reflexivity.
  - reflexivity.
  - simpl. lia.
  - discriminate.
  - repeat constructor; simpl; eauto.
Defined.
